(** * The Threshold Gambit: agent, environment and simulation loop

    A shallow embedding of [agent.py], [enviroment.py] and the
    [run_simulation] function of [simulation.py], followed by the
    properties of the generation loop, the learning rule and the
    configuration checks.

    Conventions.
    - Python [int] is [Z].
    - Python [float] is IEEE 754 binary64, here [spec_float] with
      precision 53 and maximal exponent 1024; every operation rounds to
      nearest, ties to even, as the hardware does.  [spec_float] also
      holds mantissa-exponent pairs that no binary64 number has; a
      statement that needs a genuine binary64 asks for [is_binary64].
    - A raised exception is the left summand of [result].
    - [random.random()] reads the next sample of an oracle tape.
    - Calls to [log.*], [print] and [time.time()] change no value the
      functions below compute and are left out, and so is the
      ["duration_sec"] entry of a generation record; where the argument
      of a logging call computes a number that may raise, that
      computation is kept.  An f-string is evaluated whatever the log
      level, and formatting an [int] of more than 4300 digits raises
      [ValueError]: this is kept where the [int] comes straight from
      the caller (the threshold in [LearningAgent.__init__], the
      integers of the configuration in the first lines of
      [run_simulation]) and for the total step count of a run.  The
      other formatted [int]s are step counts, streaks and generation
      numbers, counted up from 0 within bounds formatted before, and
      thresholds formatted before or rounded from a float; they go
      through [str].
    - [KeyboardInterrupt] comes from outside the program; the runs
      below are the uninterrupted ones. *)

From Stdlib Require Import ZArith List String Bool Lia.
From Stdlib Require Import Floats.SpecFloat DecimalString.
From Equations Require Import Equations.
Import ListNotations.

#[local] Open Scope string_scope.
#[local] Open Scope list_scope.
#[local] Open Scope Z_scope.


(* ===================================================================== *)
(** ** Exceptions *)
(* ===================================================================== *)

Inductive exn : Type :=
| ValueError (msg : string)
| OverflowError (msg : string)
| ZeroDivisionError (msg : string)
| KeyError (key : string).

Definition result (A : Type) : Type := (exn + A)%type.

Definition ret {A : Type} (a : A) : result A := inr a.
Definition raise {A : Type} (e : exn) : result A := inl e.

Definition bind {A B : Type} (m : result A) (k : A -> result B) : result B :=
  match m with
  | inl e => inl e
  | inr a => k a
  end.

Notation "x <- m ;; k" := (bind m (fun x => k))
  (at level 61, m at next level, right associativity).

(* ===================================================================== *)
(** ** Python numbers *)
(* ===================================================================== *)

Module PyFloat.

Definition float : Type := spec_float.

Definition prec : Z := 53.
Definition emax : Z := 1024.

Definition add : float -> float -> float := SFadd prec emax.
Definition sub : float -> float -> float := SFsub prec emax.
Definition mul : float -> float -> float := SFmul prec emax.
Definition ltb : float -> float -> bool := SFltb.
Definition leb : float -> float -> bool := SFleb.

(** The literals [0.0] and [1.0]. *)
Definition zero : float := S754_zero false.
Definition one : float := S754_finite false 4503599627370496 (-52).

(** [float(n)] for an [int] operand of a mixed operation: the nearest
    binary64, [OverflowError] beyond the largest one. *)
Definition of_int (n : Z) : result float :=
  match binary_normalize prec emax n 0 false with
  | S754_infinity _ => raise (OverflowError "int too large to convert to float")
  | x => ret x
  end.

(** [a / b] on two [int]s: the correctly rounded quotient. *)
Definition int_true_div (a b : Z) : result float :=
  match a, b with
  | _, Z0 => raise (ZeroDivisionError "division by zero")
  | Z0, Zpos _ => ret (S754_zero false)
  | Z0, Zneg _ => ret (S754_zero true)
  | _, _ =>
      match SFdiv prec emax
              (S754_finite (a <? 0) (Z.to_pos (Z.abs a)) 0)
              (S754_finite (b <? 0) (Z.to_pos (Z.abs b)) 0) with
      | S754_infinity _ =>
          raise (OverflowError "integer division result too large for a float")
      | x => ret x
      end
  end.

(** The integer nearest to [m * 2^e] for [m >= 0], ties to the even
    one. *)
Definition round_half_even_pos (m e : Z) : Z :=
  match e with
  | Zneg p =>
      let d := Z.pow_pos 2 p in
      let q := m / d in
      let r := m mod d in
      match 2 * r ?= d with
      | Lt => q
      | Gt => q + 1
      | Eq => if Z.even q then q else q + 1
      end
  | _ => m * 2 ^ e
  end.

(** The integer nearest to [m * 2^e] for [m >= 0], ties away from
    zero. *)
Definition round_half_away_pos (m e : Z) : Z :=
  match e with
  | Zneg p =>
      let d := Z.pow_pos 2 p in
      let q := m / d in
      let r := m mod d in
      match 2 * r ?= d with
      | Lt => q
      | _ => q + 1
      end
  | _ => m * 2 ^ e
  end.

(** A rounding of a float to an integer, given the rounding of a
    non-negative [m * 2^e]; infinities and NaN have no integer. *)
Definition round_with (rnd : Z -> Z -> Z) (x : float) : result Z :=
  match x with
  | S754_zero _ => ret 0
  | S754_finite s m e =>
      let n := rnd (Zpos m) e in
      ret (if s then - n else n)
  | S754_infinity _ =>
      raise (OverflowError "cannot convert float infinity to integer")
  | S754_nan =>
      raise (ValueError "cannot convert float NaN to integer")
  end.

(** The built-in [round(x)] with one argument. *)
Definition round : float -> result Z := round_with round_half_even_pos.

End PyFloat.

Import PyFloat.

(** [str(n)] and [{n}] in an f-string. *)
Definition str (n : Z) : string := NilEmpty.string_of_int (Z.to_int n).

(** The interpreter's limit on the decimal digits of an [int] that is
    converted to text ([sys.get_int_max_str_digits()], 4300 unless
    changed, which this program never does), and the first magnitude
    beyond it, [10^4300], held as a numeral. *)
Definition int_max_str_digits : Z := 4300.

Definition str_digits_limit : Z := Eval vm_compute in 10 ^ int_max_str_digits.

(** [{n}] in an f-string that may meet any [int]: [str(n)], or
    [ValueError] when [n] has more than 4300 digits. *)
Definition format_int (n : Z) : result string :=
  if Z.abs n >=? str_digits_limit then
    raise (ValueError "Exceeds the limit (4300 digits) for integer string conversion; use sys.set_int_max_str_digits() to increase the limit")
  else ret (str n).

(** [sum(l)] on a list of [int]s. *)
Definition sum (l : list Z) : Z := fold_left Z.add l 0.

(** [len(l)]. *)
Definition len {A : Type} (l : list A) : Z := Z.of_nat (List.length l).

(* ===================================================================== *)
(** ** agent.py *)
(* ===================================================================== *)

(** The attributes [SimpleAgent.__init__] creates. *)
Record SimpleAgent : Type := mkSimpleAgent {
  name : string;
  give_up_threshold : Z;
  consecutive_punishments : Z;
  total_punishments_received : Z;
  total_rewards_received : Z;
  steps_lived : Z;
  decision_log : list string
}.

(** Attribute assignments [self.x = v]. *)
Definition set_name (v : string) (self : SimpleAgent) : SimpleAgent :=
  mkSimpleAgent v (give_up_threshold self) (consecutive_punishments self)
    (total_punishments_received self) (total_rewards_received self)
    (steps_lived self) (decision_log self).

Definition set_give_up_threshold (v : Z) (self : SimpleAgent) : SimpleAgent :=
  mkSimpleAgent (name self) v (consecutive_punishments self)
    (total_punishments_received self) (total_rewards_received self)
    (steps_lived self) (decision_log self).

Definition set_consecutive_punishments (v : Z) (self : SimpleAgent) : SimpleAgent :=
  mkSimpleAgent (name self) (give_up_threshold self) v
    (total_punishments_received self) (total_rewards_received self)
    (steps_lived self) (decision_log self).

Definition set_total_punishments_received (v : Z) (self : SimpleAgent) : SimpleAgent :=
  mkSimpleAgent (name self) (give_up_threshold self) (consecutive_punishments self)
    v (total_rewards_received self) (steps_lived self) (decision_log self).

Definition set_total_rewards_received (v : Z) (self : SimpleAgent) : SimpleAgent :=
  mkSimpleAgent (name self) (give_up_threshold self) (consecutive_punishments self)
    (total_punishments_received self) v (steps_lived self) (decision_log self).

Definition set_steps_lived (v : Z) (self : SimpleAgent) : SimpleAgent :=
  mkSimpleAgent (name self) (give_up_threshold self) (consecutive_punishments self)
    (total_punishments_received self) (total_rewards_received self)
    v (decision_log self).

Definition set_decision_log (v : list string) (self : SimpleAgent) : SimpleAgent :=
  mkSimpleAgent (name self) (give_up_threshold self) (consecutive_punishments self)
    (total_punishments_received self) (total_rewards_received self)
    (steps_lived self) v.

(** [self.decision_log.append(entry)]. *)
Definition decision_log_append (entry : string) (self : SimpleAgent) : SimpleAgent :=
  set_decision_log (decision_log self ++ [entry]) self.

Module SimpleAgent_.

Definition __init__ (give_up_threshold : Z) (name : string) : result SimpleAgent :=
  if give_up_threshold <=? 0 then
    raise (ValueError "give_up_threshold must be positive.")
  else
    ret (mkSimpleAgent name give_up_threshold 0 0 0 0 []).

Definition reset (self : SimpleAgent) : SimpleAgent :=
  let self := set_consecutive_punishments 0 self in
  let self := set_total_punishments_received 0 self in
  let self := set_total_rewards_received 0 self in
  let self := set_steps_lived 0 self in
  set_decision_log [] self.

Definition record_step (is_reward : bool) (self : SimpleAgent) : SimpleAgent :=
  let self := set_steps_lived (steps_lived self + 1) self in
  if is_reward then
    let self := set_total_rewards_received (total_rewards_received self + 1) self in
    let self := set_consecutive_punishments 0 self in
    decision_log_append
      ("Step " ++ str (steps_lived self)
         ++ ": REWARD received. Resetting consecutive punishments.")%string self
  else
    let self := set_total_punishments_received (total_punishments_received self + 1) self in
    let self := set_consecutive_punishments (consecutive_punishments self + 1) self in
    decision_log_append
      ("Step " ++ str (steps_lived self)
         ++ ": PUNISHMENT received. Consecutive: "
         ++ str (consecutive_punishments self) ++ ".")%string self.

(** Returns the decision and the agent, whose log grows when it gives
    up. *)
Definition decide_to_continue (self : SimpleAgent) : bool * SimpleAgent :=
  if consecutive_punishments self >=? give_up_threshold self then
    let decision := false in
    let reason :=
      ("Reached give_up_threshold (" ++ str (give_up_threshold self)
         ++ ") with " ++ str (consecutive_punishments self)
         ++ " consecutive punishments.")%string in
    let self :=
      decision_log_append
        ("Step " ++ str (steps_lived self)
           ++ ": DECISION: Give Up. Reason: " ++ reason)%string self in
    (decision, self)
  else
    let decision := true in
    (decision, self).

End SimpleAgent_.

(** The dictionary [get_generation_summary] returns.  Its
    ["decision_log"] is the agent's list object itself; [reset] rebinds
    the attribute to a new list and nothing appends between the summary
    and the next [reset], so the record keeps the value it was given. *)
Record Summary : Type := mkSummary {
  lifespan : Z;
  total_rewards : Z;
  total_punishments : Z;
  final_consecutive_punishments : Z;
  summary_decision_log : list string
}.

Definition get_generation_summary (self : SimpleAgent) : Summary :=
  mkSummary (steps_lived self) (total_rewards_received self)
    (total_punishments_received self) (consecutive_punishments self)
    (decision_log self).

(** [LearningAgent(SimpleAgent)]: the inherited attributes and the two
    it adds. *)
Record LearningAgent : Type := mkLearningAgent {
  base : SimpleAgent;
  learning_rate : float;
  historical_lifespans : list Z
}.

Definition set_base (v : SimpleAgent) (self : LearningAgent) : LearningAgent :=
  mkLearningAgent v (learning_rate self) (historical_lifespans self).

Definition set_historical_lifespans (v : list Z) (self : LearningAgent) : LearningAgent :=
  mkLearningAgent (base self) (learning_rate self) v.

Module LearningAgent_.

(** The last statement is [log.info] on an f-string that formats the
    threshold (the name is a string and the rate a float, which always
    format); the message itself goes to the log. *)
Definition __init__ (initial_threshold : Z) (learning_rate : float) (name : string)
  : result LearningAgent :=
  super <- SimpleAgent_.__init__ initial_threshold name ;;
  let self := mkLearningAgent super learning_rate [initial_threshold] in
  threshold_text <- format_int (give_up_threshold (base self)) ;;
  ret self.

(** An exception leaves the method after the append; the caller drops
    the agent then, so the failed call returns no agent. *)
Definition learn_from_history (current_lifespan : Z) (self : LearningAgent)
  : result LearningAgent :=
  let self :=
    set_historical_lifespans (historical_lifespans self ++ [current_lifespan]) self in
  current_avg <-
    match historical_lifespans self with
    | _ :: _ => int_true_div (sum (historical_lifespans self))
                             (len (historical_lifespans self))
    | [] => of_int (give_up_threshold (base self))
    end ;;
  rounded_avg <- round current_avg ;;
  let target_threshold := Z.max 1 rounded_avg in
  threshold_f <- of_int (give_up_threshold (base self)) ;;
  target_f <- of_int target_threshold ;;
  new_threshold <-
    round (add (mul threshold_f (sub one (learning_rate self)))
               (mul target_f (learning_rate self))) ;;
  ret (set_base (set_give_up_threshold (Z.max 1 new_threshold) (base self)) self).

Definition reset (self : LearningAgent) : LearningAgent :=
  let b := base self in
  let b := set_consecutive_punishments 0 b in
  let b := set_total_punishments_received 0 b in
  let b := set_total_rewards_received 0 b in
  let b := set_steps_lived 0 b in
  let b := set_decision_log [] b in
  set_base b self.

End LearningAgent_.

(** An agent object is an instance of one of the two classes. *)
Inductive Agent : Type :=
| Simple (a : SimpleAgent)
| Learner (a : LearningAgent).

(** The [SimpleAgent] attributes of an agent of either class. *)
Definition attrs (agent : Agent) : SimpleAgent :=
  match agent with
  | Simple a => a
  | Learner a => base a
  end.

Definition set_attrs (v : SimpleAgent) (agent : Agent) : Agent :=
  match agent with
  | Simple _ => Simple v
  | Learner a => Learner (set_base v a)
  end.

(** Method resolution: [reset] is overridden, the rest is inherited. *)
Definition reset (agent : Agent) : Agent :=
  match agent with
  | Simple a => Simple (SimpleAgent_.reset a)
  | Learner a => Learner (LearningAgent_.reset a)
  end.

Definition record_step (is_reward : bool) (agent : Agent) : Agent :=
  set_attrs (SimpleAgent_.record_step is_reward (attrs agent)) agent.

Definition decide_to_continue (agent : Agent) : bool * Agent :=
  let '(decision, a) := SimpleAgent_.decide_to_continue (attrs agent) in
  (decision, set_attrs a agent).

(* ===================================================================== *)
(** ** enviroment.py *)
(* ===================================================================== *)

(** The state of the [random] module: the samples still to come. *)
Definition Rng : Type := nat -> float.

(** [random.random()]. *)
Definition random_random (rng : Rng) : float * Rng :=
  (rng 0%nat, fun n => rng (S n)).

(** What [random.random()] promises of a sample: [0.0 <= x < 1.0]. *)
Definition unit_sample (x : float) : Prop :=
  leb zero x = true /\ ltb x one = true.

Record HarshEnvironment : Type := mkHarshEnvironment {
  reward_probability : float;
  steps_taken : Z;
  total_rewards_given : Z;
  total_punishments_given : Z
}.

(** The ["actual_reward_rate"] entry is the [int] 0 before the first
    step and a [float] after. *)
Inductive number : Type :=
| Int (n : Z)
| Float (x : float).

Record EnvStats : Type := mkEnvStats {
  total_steps : Z;
  stats_total_rewards : Z;
  stats_total_punishments : Z;
  configured_reward_prob : float;
  actual_reward_rate : number
}.

Module HarshEnvironment_.

Definition __init__ (reward_probability : float) : result HarshEnvironment :=
  if negb (leb zero reward_probability && leb reward_probability one) then
    raise (ValueError "reward_probability must be between 0.0 and 1.0")
  else
    ret (mkHarshEnvironment reward_probability 0 0 0).

Definition step (self : HarshEnvironment) (rng : Rng)
  : bool * HarshEnvironment * Rng :=
  let steps := steps_taken self + 1 in
  let '(sample, rng) := random_random rng in
  let is_reward := ltb sample (reward_probability self) in
  if is_reward then
    (is_reward,
     mkHarshEnvironment (reward_probability self) steps
       (total_rewards_given self + 1) (total_punishments_given self),
     rng)
  else
    (is_reward,
     mkHarshEnvironment (reward_probability self) steps
       (total_rewards_given self) (total_punishments_given self + 1),
     rng).

Definition get_stats (self : HarshEnvironment) : result EnvStats :=
  actual_rate <-
    (if steps_taken self >? 0 then
       q <- int_true_div (total_rewards_given self) (steps_taken self) ;;
       ret (Float q)
     else ret (Int 0)) ;;
  ret (mkEnvStats (steps_taken self) (total_rewards_given self)
         (total_punishments_given self) (reward_probability self) actual_rate).

Definition reset_stats (self : HarshEnvironment) : HarshEnvironment :=
  mkHarshEnvironment (reward_probability self) 0 0 0.

End HarshEnvironment_.

(* ===================================================================== *)
(** ** simulation.py *)
(* ===================================================================== *)

(** The entries of [config] that [run_simulation] reads.  The two read
    with [config.get(key, default)] may be absent. *)
Record Config : Type := mkConfig {
  num_generations : Z;
  cfg_reward_probability : float;
  agent_type : option string;
  agent_initial_threshold : Z;
  cfg_learning_rate : option float;
  max_steps_per_generation : Z
}.

(** The literal [0.05], default of [config.get('learning_rate', 0.05)]. *)
Definition lit_0_05 : float := S754_finite false 7205759403792794 (-57).

(** [config.get(key, default)]. *)
Definition get {A : Type} (entry : option A) (default : A) : A :=
  match entry with
  | Some v => v
  | None => default
  end.

(** [config[key]] on an entry that may be absent. *)
Definition getitem {A : Type} (entry : option A) (key : string) : result A :=
  match entry with
  | Some v => ret v
  | None => raise (KeyError key)
  end.

Record GenerationData : Type := mkGenerationData {
  generation : Z;
  summary : Summary;
  end_reason : string;
  threshold_used : Z
}.

(** The objects a generation works on. *)
Record World : Type := mkWorld {
  env_of : HarshEnvironment;
  agent_of : Agent;
  rng_of : Rng
}.

(** Steps 1 to 3 of the inner loop. *)
Definition interact (w : World) : bool * World :=
  let '(is_reward, environment, rng) :=
    HarshEnvironment_.step (env_of w) (rng_of w) in
  let agent := record_step is_reward (agent_of w) in
  let '(should_continue, agent) := decide_to_continue agent in
  (should_continue, mkWorld environment agent rng).

(** The [while True] loop of one generation, entered with the step
    count so far; it yields the world, the step count and [end_reason]
    at the [break]. *)
Equations? step_loop (max_steps : Z) (step_count_this_gen : Z) (w : World)
  : World * Z * string
  by wf (Z.to_nat (max_steps - step_count_this_gen)) lt :=
  step_loop max_steps step_count_this_gen w with interact w := {
    | (false, w') :=
        (w', step_count_this_gen + 1, "Agent Threshold Reached");
    | (true, w') with Z_ge_dec (step_count_this_gen + 1) max_steps := {
      | left _ := (w', step_count_this_gen + 1, "Max Steps Reached");
      | right _ := step_loop max_steps (step_count_this_gen + 1) w' } }.
Proof. lia. Qed.

(** The state of the [for gen_num in range(...)] loop. *)
Record SimState : Type := mkSimState {
  world : World;
  all_generation_data : list GenerationData;
  generations_completed : Z
}.

(** [agent.name = v]. *)
Definition rename (v : string) (agent : Agent) : Agent :=
  set_attrs (set_name v (attrs agent)) agent.

(** [if isinstance(agent, LearningAgent): agent.learn_from_history(n)]. *)
Definition learn_if_learner (n : Z) (agent : Agent) : result Agent :=
  match agent with
  | Simple a => ret (Simple a)
  | Learner a => a' <- LearningAgent_.learn_from_history n a ;; ret (Learner a')
  end.

(** One pass of the [for] body.  The second component is the exception
    that left it, if any; the state keeps what was done before. *)
Definition run_generation (config : Config) (agent_type : string) (gen_num : Z)
  (st : SimState) : SimState * option exn :=
  let w := world st in
  let agent := reset (agent_of w) in
  let agent := rename (agent_type ++ "_Gen" ++ str gen_num)%string agent in
  let current_threshold := give_up_threshold (attrs agent) in
  let step_count_this_gen := 0 in
  let '(w, _, end_reason) :=
    step_loop (max_steps_per_generation config) step_count_this_gen
      (mkWorld (env_of w) agent (rng_of w)) in
  let gen_summary := get_generation_summary (attrs (agent_of w)) in
  let generation_data :=
    mkGenerationData gen_num gen_summary end_reason current_threshold in
  let all_generation_data := all_generation_data st ++ [generation_data] in
  let generations_completed := generations_completed st + 1 in
  match learn_if_learner (lifespan gen_summary) (agent_of w) with
  | inr agent =>
      (mkSimState (mkWorld (env_of w) agent (rng_of w))
         all_generation_data generations_completed, None)
  | inl e =>
      (mkSimState w all_generation_data generations_completed, Some e)
  end.

(** [range(1, stop)]. *)
Definition range_from_1 (stop : Z) : list Z :=
  map Z.of_nat (seq 1 (Z.to_nat (stop - 1))).

(** The [for] loop inside [try]: an exception ends it, and the
    [except Exception] clause goes on to [finally] with the state so
    far. *)
Fixpoint run_generations (config : Config) (agent_type : string)
  (gen_nums : list Z) (st : SimState) : SimState :=
  match gen_nums with
  | [] => st
  | gen_num :: rest =>
      match run_generation config agent_type gen_num st with
      | (st, None) => run_generations config agent_type rest st
      | (st, Some _) => st
      end
  end.

(** The first [try] block. *)
Definition initialise (config : Config) : result (HarshEnvironment * Agent) :=
  environment <- HarshEnvironment_.__init__ (cfg_reward_probability config) ;;
  let agent_type := get (agent_type config) "SimpleAgent" in
  let initial_threshold := agent_initial_threshold config in
  if String.eqb agent_type "LearningAgent" then
    agent <- LearningAgent_.__init__ initial_threshold
               (get (cfg_learning_rate config) lit_0_05) "Learner_Gen0" ;;
    ret (environment, Learner agent)
  else
    agent <- SimpleAgent_.__init__ initial_threshold "Simple_Gen0" ;;
    ret (environment, Simple agent).

(** The f-string of the ["Parameters: ..."] line that [run_simulation]
    logs before its first [try]: the fields are evaluated and formatted
    from left to right.  The probability is a float and always formats;
    the three [int]s are formatted with [{n}], and [config['agent_type']]
    needs the key. *)
Definition log_parameters (config : Config) : result unit :=
  gens_text <- format_int (num_generations config) ;;
  agent_text <- getitem (agent_type config) "agent_type" ;;
  init_thresh_text <- format_int (agent_initial_threshold config) ;;
  max_steps_text <- format_int (max_steps_per_generation config) ;;
  ret tt.

(** The numbers the [finally] block computes for its summary when a
    generation has completed: [total_duration / generations_completed]
    converts the count to a float (the duration itself is wall-clock
    time and has no value here), and [sum(lifespans) / len(lifespans)]
    divides two [int]s.  Either may raise. *)
Definition summary_averages (st : SimState) : result unit :=
  if generations_completed st >? 0 then
    count_f <- of_int (generations_completed st) ;;
    let lifespans := map (fun g => lifespan (summary g)) (all_generation_data st) in
    average_lifespan <- int_true_div (sum lifespans) (len lifespans) ;;
    ret tt
  else ret tt.

(** [run_simulation(config)], run on the samples [rng].  The empty
    dictionary of the early [return [], {}] is [None].  An exception
    raised by the log line before the first [try], inside [finally]
    (where the statistics line formats ["total_steps"]), or by the
    [get_stats()] of the [return], leaves the function. *)
Definition run_simulation (config : Config) (rng : Rng)
  : result (list GenerationData * option EnvStats) :=
  parameters <- log_parameters config ;;
  match initialise config with
  | inl _ => ret ([], None)
  | inr (environment, agent) =>
      let st :=
        run_generations config (get (agent_type config) "SimpleAgent")
          (range_from_1 (num_generations config + 1))
          (mkSimState (mkWorld environment agent rng) [] 0) in
      env_stats <- HarshEnvironment_.get_stats (env_of (world st)) ;;
      total_steps_text <- format_int (total_steps env_stats) ;;
      averages <- summary_averages st ;;
      final_stats <- HarshEnvironment_.get_stats (env_of (world st)) ;;
      ret (all_generation_data st, Some final_stats)
  end.

(* ===================================================================== *)
(** ** Binary64 arithmetic stays finite on moderate values *)
(* ===================================================================== *)

(** *** Digits *)
Lemma digits2_pos_size (p : positive) : digits2_pos p = Pos.size p.
Proof. induction p; cbn; congruence. Qed.

Lemma Zdigits2_log2 (m : Z) : 0 < m -> Zdigits2 m = Z.log2 m + 1.
Proof.
  destruct m as [|p|p]; try lia. intros _. cbn [Zdigits2].
  rewrite digits2_pos_size. destruct p; cbn; lia.
Qed.

Lemma Zdigits2_nonneg (m : Z) : 0 <= Zdigits2 m.
Proof. destruct m; cbn; lia. Qed.

Lemma Zdigits2_pos (m : Z) : 0 < m -> 0 < Zdigits2 m.
Proof. destruct m; cbn; lia. Qed.

Lemma Zdigits2_bounds (m : Z) :
  0 < m -> 2 ^ (Zdigits2 m - 1) <= m < 2 ^ Zdigits2 m.
Proof.
  intros Hm. rewrite Zdigits2_log2 by exact Hm.
  replace (Z.log2 m + 1 - 1) with (Z.log2 m) by lia.
  apply Z.log2_spec. exact Hm.
Qed.

Lemma Zdigits2_le (m k : Z) : 0 <= m -> 0 <= k -> m < 2 ^ k -> Zdigits2 m <= k.
Proof.
  intros Hm Hk Hlt.
  destruct (Z.eq_dec m 0) as [-> | Hne]; [cbn; lia|].
  pose proof (Zdigits2_bounds m ltac:(lia)) as [Hlo _].
  destruct (Z_lt_le_dec k (Zdigits2 m)) as [Hgt | Hle]; [|exact Hle].
  exfalso.
  assert (2 ^ k <= 2 ^ (Zdigits2 m - 1)) by (apply Z.pow_le_mono_r; lia).
  lia.
Qed.

Lemma Zdigits2_ge (m k : Z) : 0 < m -> 2 ^ (k - 1) <= m -> k <= Zdigits2 m.
Proof.
  intros Hm Hlo.
  pose proof (Zdigits2_bounds m Hm) as [_ Hhi].
  pose proof (Zdigits2_pos m Hm) as Hd.
  destruct (Z_lt_le_dec (Zdigits2 m) k) as [Hlt | Hle]; [|exact Hle].
  exfalso.
  assert (2 ^ Zdigits2 m <= 2 ^ (k - 1)) by (apply Z.pow_le_mono_r; lia).
  lia.
Qed.

Lemma Zdigits2_mono (m n : Z) : 0 <= m <= n -> Zdigits2 m <= Zdigits2 n.
Proof.
  intros [Hm Hmn].
  destruct (Z.eq_dec n 0) as [-> | Hn].
  - replace m with 0 by lia. lia.
  - apply Zdigits2_le; [exact Hm | apply Zdigits2_nonneg |].
    pose proof (Zdigits2_bounds n ltac:(lia)). lia.
Qed.

Lemma Zdigits2_succ (m : Z) : 0 <= m -> Zdigits2 (m + 1) <= Zdigits2 m + 1.
Proof.
  intros Hm.
  destruct (Z.eq_dec m 0) as [-> | Hne]; [cbn; lia|].
  pose proof (Zdigits2_bounds m ltac:(lia)) as [_ Hhi].
  pose proof (Zdigits2_pos m ltac:(lia)).
  apply Zdigits2_le; [lia | lia |].
  rewrite Z.pow_add_r by lia. change (2 ^ 1) with 2. lia.
Qed.

Lemma Zdigits2_mul (m n : Z) :
  0 < m -> 0 < n ->
  Zdigits2 m + Zdigits2 n - 1 <= Zdigits2 (m * n) <= Zdigits2 m + Zdigits2 n.
Proof.
  intros Hm Hn.
  pose proof (Zdigits2_bounds m Hm) as [Hml Hmh].
  pose proof (Zdigits2_bounds n Hn) as [Hnl Hnh].
  pose proof (Zdigits2_pos m Hm). pose proof (Zdigits2_pos n Hn).
  split.
  - apply Zdigits2_ge; [nia|].
    replace (Zdigits2 m + Zdigits2 n - 1 - 1)
      with ((Zdigits2 m - 1) + (Zdigits2 n - 1)) by lia.
    rewrite Z.pow_add_r by lia. nia.
  - apply Zdigits2_le; [nia | lia |].
    rewrite Z.pow_add_r by lia. nia.
Qed.

(** Dropping [n] low bits drops [n] digits. *)
Lemma Zdigits2_div_pow2 (m n : Z) :
  0 < m -> 0 <= n ->
  (n < Zdigits2 m -> 0 < m / 2 ^ n /\ Zdigits2 (m / 2 ^ n) = Zdigits2 m - n)
  /\ (Zdigits2 m <= n -> m / 2 ^ n = 0).
Proof.
  intros Hm Hn.
  pose proof (Zdigits2_bounds m Hm) as [Hlo Hhi].
  assert (Hp : 0 < 2 ^ n) by (apply Z.pow_pos_nonneg; lia).
  split.
  - intros Hlt.
    assert (Hq : 2 ^ (Zdigits2 m - n - 1) <= m / 2 ^ n < 2 ^ (Zdigits2 m - n)).
    { split.
      - apply Z.div_le_lower_bound; [exact Hp|].
        rewrite <- Z.pow_add_r by lia.
        now replace (n + (Zdigits2 m - n - 1)) with (Zdigits2 m - 1) by lia.
      - apply Z.div_lt_upper_bound; [exact Hp|].
        rewrite <- Z.pow_add_r by lia.
        now replace (n + (Zdigits2 m - n)) with (Zdigits2 m) by lia. }
    assert (Hpos : 0 < m / 2 ^ n).
    { pose proof (Z.pow_pos_nonneg 2 (Zdigits2 m - n - 1) ltac:(lia) ltac:(lia)).
      lia. }
    split; [exact Hpos|].
    apply Z.le_antisymm.
    + apply Zdigits2_le; lia.
    + apply Zdigits2_ge; [exact Hpos|]. apply Hq.
  - intros Hle. apply Z.div_small. split; [lia|].
    assert (2 ^ Zdigits2 m <= 2 ^ n) by (apply Z.pow_le_mono_r; lia). lia.
Qed.

(** *** The exponent function of binary64 *)
Definition fexp64 (x : Z) : Z := Z.max (x - 53) (-1074).

Lemma fexp_eq (x : Z) : fexp prec emax x = fexp64 x.
Proof. reflexivity. Qed.

(** *** Right shifts *)
Lemma shr_1_m (mrs : shr_record) :
  0 <= shr_m mrs -> shr_m (shr_1 mrs) = shr_m mrs / 2.
Proof.
  destruct mrs as [m r s]. cbn [shr_m]. intros Hm.
  destruct m as [|[p|p|]|p]; try lia; cbn [shr_1 shr_m].
  - reflexivity.
  - rewrite Pos2Z.inj_xI. apply (Z.div_unique _ _ _ 1); lia.
  - rewrite Pos2Z.inj_xO. apply (Z.div_unique _ _ _ 0); lia.
  - reflexivity.
Qed.

Lemma iter_shr_1_m (p : positive) :
  forall mrs, 0 <= shr_m mrs ->
              shr_m (iter_pos shr_1 p mrs) = shr_m mrs / 2 ^ Zpos p.
Proof.
  induction p as [p IH | p IH |]; intros mrs Hm; cbn [iter_pos].
  - assert (H1 : 0 <= shr_m (shr_1 mrs))
      by (rewrite shr_1_m by exact Hm; apply Z.div_pos; lia).
    assert (Hp : 0 < 2 ^ Zpos p) by (apply Z.pow_pos_nonneg; lia).
    assert (H2 : 0 <= shr_m (iter_pos shr_1 p (shr_1 mrs)))
      by (rewrite IH by exact H1; apply Z.div_pos; lia).
    rewrite IH by exact H2. rewrite IH by exact H1. rewrite shr_1_m by exact Hm.
    rewrite !Z.div_div by lia. f_equal.
    replace (Zpos p~1) with (1 + Zpos p + Zpos p) by lia.
    rewrite !Z.pow_add_r by lia. change (2 ^ 1) with 2. lia.
  - assert (Hp : 0 < 2 ^ Zpos p) by (apply Z.pow_pos_nonneg; lia).
    assert (H2 : 0 <= shr_m (iter_pos shr_1 p mrs))
      by (rewrite IH by exact Hm; apply Z.div_pos; lia).
    rewrite IH by exact H2. rewrite IH by exact Hm.
    rewrite !Z.div_div by lia. f_equal.
    replace (Zpos p~0) with (Zpos p + Zpos p) by lia.
    rewrite Z.pow_add_r by lia. reflexivity.
  - rewrite shr_1_m by exact Hm. reflexivity.
Qed.

Lemma shr_record_of_loc_m (m : Z) (l : location) :
  shr_m (shr_record_of_loc m l) = m.
Proof. destruct l as [|[]]; reflexivity. Qed.

(** [shr_fexp] brings a mantissa with enough digits to the exponent of
    its magnitude. *)
Lemma shr_fexp_spec (m e : Z) (l : location) :
  0 <= m ->
  e <= fexp64 (Zdigits2 m + e) ->
  let '(mrs, e') := shr_fexp prec emax m e l in
  e' = fexp64 (Zdigits2 m + e)
  /\ shr_m mrs = m / 2 ^ (e' - e).
Proof.
  intros Hm He. unfold shr_fexp, shr. rewrite fexp_eq.
  destruct (fexp64 (Zdigits2 m + e) - e) as [|p|p] eqn:E; try lia.
  - split; [lia|]. replace (e - e) with 0 by lia.
    rewrite shr_record_of_loc_m. cbn. now rewrite Z.div_1_r.
  - split; [lia|]. rewrite iter_shr_1_m
      by (rewrite shr_record_of_loc_m; exact Hm).
    rewrite shr_record_of_loc_m. f_equal. f_equal. lia.
Qed.

Lemma round_nearest_even_range (m : Z) (l : location) :
  round_nearest_even m l = m \/ round_nearest_even m l = m + 1.
Proof.
  destruct l as [|[]]; cbn; try tauto. destruct (Z.even m); tauto.
Qed.

(** *** Rounding to binary64 *)

(** [bounded_by k x]: [x] is finite and below [2^k] in magnitude. *)
Definition bounded_by (k : Z) (x : spec_float) : Prop :=
  match x with
  | S754_zero _ => True
  | S754_finite _ m e => Zpos (digits2_pos m) + e <= k
  | S754_infinity _ | S754_nan => False
  end.

Definition is_binary64 (x : spec_float) : Prop := valid_binary prec emax x = true.

Lemma finite_is_binary64 (s : bool) (m : positive) (e : Z) :
  fexp64 (Zpos (digits2_pos m) + e) = e -> e <= 971 ->
  is_binary64 (S754_finite s m e).
Proof.
  intros Hc He. unfold is_binary64. cbn [valid_binary].
  unfold bounded, canonical_mantissa. rewrite fexp_eq, Hc.
  rewrite Z.eqb_refl. cbn [andb]. apply Z.leb_le. cbn. lia.
Qed.

Lemma is_binary64_finite (s : bool) (m : positive) (e : Z) :
  is_binary64 (S754_finite s m e) ->
  fexp64 (Zpos (digits2_pos m) + e) = e /\ e <= 971.
Proof.
  unfold is_binary64. cbn [valid_binary]. unfold bounded, canonical_mantissa.
  rewrite fexp_eq. intros H. apply andb_true_iff in H as [Hc He].
  apply Z.eqb_eq in Hc. apply Z.leb_le in He. cbn in He. lia.
Qed.

(** The core of every operation: a non-negative mantissa with enough
    digits, of magnitude at most [k <= 1023], rounds to a binary64
    number of magnitude at most [k + 1]; no overflow, no NaN. *)
Lemma binary_round_aux_ok (s : bool) (mx ex : Z) (lx : location) (k : Z) :
  0 <= mx ->
  ex <= fexp64 (Zdigits2 mx + ex) ->
  Zdigits2 mx + ex <= k -> -1074 <= k -> k <= 1023 ->
  is_binary64 (binary_round_aux prec emax s mx ex lx)
  /\ bounded_by (k + 1) (binary_round_aux prec emax s mx ex lx).
Proof.
  intros Hmx Hex Hk Hklo Hkhi. unfold binary_round_aux.
  pose proof (shr_fexp_spec mx ex lx Hmx Hex) as H1.
  destruct (shr_fexp prec emax mx ex lx) as [mrs' e'].
  destruct H1 as [He' Hm'].
  set (m' := shr_m mrs') in *.
  assert (Hn1 : 0 <= e' - ex) by lia.
  assert (Hcase : (m' = 0 /\ Zdigits2 mx + ex <= e')
                  \/ (0 < m' /\ Zdigits2 m' + e' = Zdigits2 mx + ex)).
  { destruct (Z.eq_dec mx 0) as [-> | Hne].
    - left. rewrite Hm'. split; [apply Z.div_0_l|].
      + apply Z.pow_nonzero; lia.
      + cbn [Zdigits2] in *. lia.
    - destruct (Zdigits2_div_pow2 mx (e' - ex) ltac:(lia) Hn1) as [Hbig Hsmall].
      destruct (Z_lt_le_dec (e' - ex) (Zdigits2 mx)) as [Hlt | Hle].
      + right. destruct (Hbig Hlt) as [Hpos Hdig]. rewrite Hm'. split; [exact Hpos|].
        rewrite Hdig. lia.
      + left. rewrite Hm'. split; [exact (Hsmall Hle) | lia]. }
  set (m1 := round_nearest_even m' (loc_of_shr_record mrs')).
  assert (Hm1 : m1 = m' \/ m1 = m' + 1) by apply round_nearest_even_range.
  assert (Hm'0 : 0 <= m') by (destruct Hcase; lia).
  assert (Hm10 : 0 <= m1) by lia.
  assert (Hd1 : Zdigits2 m' <= Zdigits2 m1 <= Zdigits2 m' + 1).
  { destruct Hm1 as [-> | ->]; [lia|].
    split; [apply Zdigits2_mono; lia | apply Zdigits2_succ; lia]. }
  assert (Hpre : e' <= fexp64 (Zdigits2 m1 + e')).
  { unfold fexp64 in *. destruct Hcase as [[_ Hc] | [_ Hc]]; lia. }
  assert (Hmag : Zdigits2 m1 + e' <= k + 1).
  { destruct Hcase as [[Hz Hc] | [_ Hc]].
    - rewrite Hz in Hd1. cbn [Zdigits2] in Hd1. unfold fexp64 in *. lia.
    - lia. }
  pose proof (shr_fexp_spec m1 e' loc_Exact Hm10 Hpre) as H2.
  destruct (shr_fexp prec emax m1 e' loc_Exact) as [mrs'' e''].
  destruct H2 as [He'' Hm''].
  assert (Hn2 : 0 <= e'' - e') by lia.
  destruct (shr_m mrs'') as [|m|m] eqn:Em.
  - split; [reflexivity | exact I].
  - assert (Hm1pos : 0 < m1).
    { destruct (Z.eq_dec m1 0) as [Hz | Hne]; [|lia].
      rewrite Hz, Z.div_0_l in Hm'' by (apply Z.pow_nonzero; lia). lia. }
    destruct (Zdigits2_div_pow2 m1 (e'' - e') Hm1pos Hn2) as [Hbig Hsmall].
    assert (Hlt : e'' - e' < Zdigits2 m1).
    { destruct (Z_lt_le_dec (e'' - e') (Zdigits2 m1)) as [Hlt | Hle]; [exact Hlt|].
      rewrite (Hsmall Hle) in Hm''. lia. }
    destruct (Hbig Hlt) as [_ Hdig]. rewrite <- Hm'' in Hdig. cbn [Zdigits2] in Hdig.
    assert (He971 : e'' <= 971) by (unfold fexp64 in *; lia).
    replace (e'' <=? emax - prec) with true
      by (symmetry; apply Z.leb_le; cbn; lia).
    split.
    + apply finite_is_binary64; [|exact He971].
      rewrite Hdig. replace (Zdigits2 m1 - (e'' - e') + e'') with (Zdigits2 m1 + e') by lia.
      lia.
    + cbn [bounded_by]. lia.
  - exfalso.
    assert (0 <= m1 / 2 ^ (e'' - e'))
      by (apply Z.div_pos; [exact Hm10 | apply Z.pow_pos_nonneg; lia]).
    lia.
Qed.

(** *** Left alignment *)
Lemma iter_xO_pow2 (m d : positive) :
  Zpos (Pos.iter xO m d) = Zpos m * 2 ^ Zpos d.
Proof.
  induction d as [|d IH] using Pos.peano_ind.
  - cbn. lia.
  - rewrite Pos.iter_succ, Pos2Z.inj_xO, IH, Pos2Z.inj_succ.
    rewrite Z.pow_succ_r by lia. lia.
Qed.

Lemma Zdigits2_mul_pow2 (m n : Z) :
  0 < m -> 0 <= n -> Zdigits2 (m * 2 ^ n) = Zdigits2 m + n.
Proof.
  intros Hm Hn.
  pose proof (Zdigits2_bounds m Hm) as [Hlo Hhi].
  pose proof (Zdigits2_pos m Hm) as Hd.
  assert (Hp : 0 < 2 ^ n) by (apply Z.pow_pos_nonneg; lia).
  apply Z.le_antisymm.
  - apply Zdigits2_le; [nia | lia |].
    rewrite Z.pow_add_r by lia. nia.
  - apply Zdigits2_ge; [nia|].
    replace (Zdigits2 m + n - 1) with ((Zdigits2 m - 1) + n) by lia.
    rewrite Z.pow_add_r by lia. nia.
Qed.

(** Aligning to a lower exponent keeps the value and the magnitude. *)
Lemma shl_align_spec (m : positive) (e e' : Z) :
  let '(mz, ez) := shl_align m e e' in
  ez = Z.min e e'
  /\ Zpos mz = Zpos m * 2 ^ (e - ez)
  /\ Zpos (digits2_pos mz) + ez = Zpos (digits2_pos m) + e.
Proof.
  unfold shl_align.
  destruct (e' - e) as [|d|d] eqn:E.
  - split; [lia|]. replace (e - e) with 0 by lia. split; lia.
  - split; [lia|]. replace (e - e) with 0 by lia. split; lia.
  - split; [lia|].
    assert (Hd : e - e' = Zpos d) by lia.
    split.
    + rewrite iter_xO_pow2, Hd. reflexivity.
    + change (Zpos (digits2_pos (Pos.iter xO m d)))
        with (Zdigits2 (Zpos (Pos.iter xO m d))).
      rewrite iter_xO_pow2, Zdigits2_mul_pow2 by lia.
      cbn [Zdigits2]. lia.
Qed.

Lemma binary_round_ok (s : bool) (m : positive) (e k : Z) :
  Zpos (digits2_pos m) + e <= k -> -1074 <= k -> k <= 1023 ->
  is_binary64 (binary_round prec emax s m e)
  /\ bounded_by (k + 1) (binary_round prec emax s m e).
Proof.
  intros Hk Hlo Hhi. unfold binary_round.
  pose proof (shl_align_spec m e (fexp prec emax (Zpos (digits2_pos m) + e))) as H.
  destruct (shl_align m e _) as [mz ez].
  destruct H as (Hez & _ & Hmag). rewrite fexp_eq in Hez.
  apply binary_round_aux_ok; cbn [Zdigits2]; try lia.
  rewrite Hmag. lia.
Qed.

Lemma binary_normalize_ok (m e k : Z) (szero : bool) :
  Zdigits2 m + e <= k -> -1074 <= k -> k <= 1023 ->
  is_binary64 (binary_normalize prec emax m e szero)
  /\ bounded_by (k + 1) (binary_normalize prec emax m e szero).
Proof.
  intros Hk Hlo Hhi. destruct m as [|p|p]; cbn [binary_normalize Zdigits2] in *.
  - split; [reflexivity | exact I].
  - now apply binary_round_ok.
  - now apply binary_round_ok.
Qed.

(** *** Operations *)
Lemma SFmul_ok (x y : spec_float) (j k : Z) :
  is_binary64 x -> is_binary64 y ->
  bounded_by j x -> bounded_by k y ->
  -1074 <= j + k -> j + k <= 1023 ->
  is_binary64 (SFmul prec emax x y)
  /\ bounded_by (j + k + 1) (SFmul prec emax x y).
Proof.
  intros Hx Hy Bx By Hlo Hhi.
  destruct x as [sx | sx | | sx mx ex], y as [sy | sy | | sy my ey];
    cbn [bounded_by] in Bx, By; try contradiction;
    cbn [SFmul]; try (split; [reflexivity | exact I]).
  apply is_binary64_finite in Hx as [Cx _].
  apply is_binary64_finite in Hy as [Cy _].
  pose proof (Zdigits2_mul (Zpos mx) (Zpos my) ltac:(lia) ltac:(lia)) as Hd.
  change (Zpos mx * Zpos my) with (Zpos (mx * my)) in Hd.
  cbn [Zdigits2] in Hd.
  apply binary_round_aux_ok; cbn [Zdigits2]; unfold fexp64 in *; lia.
Qed.

Lemma Zdigits2_abs (m : Z) : Zdigits2 (Z.abs m) = Zdigits2 m.
Proof. destruct m; reflexivity. Qed.

Lemma Zdigits2_lt_pow2 (m k : Z) :
  0 <= k -> Z.abs m < 2 ^ k -> Zdigits2 m <= k.
Proof.
  intros Hk H. rewrite <- Zdigits2_abs. apply Zdigits2_le; lia.
Qed.

Lemma pos_lt_pow2_digits (m : positive) :
  Zpos m < 2 ^ Zpos (digits2_pos m).
Proof. apply (Zdigits2_bounds (Zpos m)). lia. Qed.

(** The signed sum of two aligned mantissas. *)
Lemma aligned_sum_digits (m1 m2 : positive) (e1 e2 : Z) (s1 s2 : Z) (k : Z) :
  (s1 = 1 \/ s1 = -1) -> (s2 = 1 \/ s2 = -1) ->
  Zpos (digits2_pos m1) + e1 <= k -> Zpos (digits2_pos m2) + e2 <= k ->
  let ez := Z.min e1 e2 in
  Zdigits2 (s1 * (Zpos m1 * 2 ^ (e1 - ez)) + s2 * (Zpos m2 * 2 ^ (e2 - ez))) + ez
  <= k + 1.
Proof.
  intros Hs1 Hs2 H1 H2 ez.
  assert (Hb : forall m e, Zpos (digits2_pos m) + e <= k -> ez <= e ->
                           Zpos m * 2 ^ (e - ez) < 2 ^ (k - ez)).
  { intros m e Hm He.
    pose proof (pos_lt_pow2_digits m) as Hlt.
    assert (Hp : 0 < 2 ^ (e - ez)) by (apply Z.pow_pos_nonneg; lia).
    apply Z.lt_le_trans with (2 ^ Zpos (digits2_pos m) * 2 ^ (e - ez)); [nia|].
    rewrite <- Z.pow_add_r by lia. apply Z.pow_le_mono_r; lia. }
  pose proof (Hb m1 e1 H1 ltac:(lia)) as B1.
  pose proof (Hb m2 e2 H2 ltac:(lia)) as B2.
  clear Hb.
  assert (Hkz : 0 <= k - ez) by lia.
  assert (HA : 0 < Zpos m1 * 2 ^ (e1 - ez))
    by (apply Z.mul_pos_pos; [lia | apply Z.pow_pos_nonneg; lia]).
  assert (HB : 0 < Zpos m2 * 2 ^ (e2 - ez))
    by (apply Z.mul_pos_pos; [lia | apply Z.pow_pos_nonneg; lia]).
  set (A := Zpos m1 * 2 ^ (e1 - ez)) in *.
  set (B := Zpos m2 * 2 ^ (e2 - ez)) in *.
  assert (Zdigits2 (s1 * A + s2 * B) <= k - ez + 1); [|lia].
  apply Zdigits2_lt_pow2; [lia|].
  rewrite Z.pow_add_r by lia. change (2 ^ 1) with 2.
  set (P := 2 ^ (k - ez)) in *.
  destruct Hs1 as [-> | ->], Hs2 as [-> | ->]; lia.
Qed.

Lemma cond_Zopp_sign (s : bool) (m : Z) :
  exists c, (c = 1 \/ c = -1) /\ cond_Zopp s m = c * m.
Proof. destruct s; [exists (-1) | exists 1]; cbn [cond_Zopp]; split; lia. Qed.

Lemma fst_shl_align_min (m : positive) (e e' : Z) :
  Zpos (fst (shl_align m e (Z.min e e'))) = Zpos m * 2 ^ (e - Z.min e e').
Proof.
  pose proof (shl_align_spec m e (Z.min e e')) as H.
  destruct (shl_align m e (Z.min e e')) as [mz ez]. cbn [fst].
  destruct H as (Hez & Hm & _). rewrite Hm. do 2 f_equal. lia.
Qed.

Lemma aligned_sum_ok (sx sy : bool) (mx my : positive) (ex ey : Z)
  (op : Z -> Z -> Z) (k : Z) :
  (op = Z.add \/ op = Z.sub) ->
  Zpos (digits2_pos mx) + ex <= k -> Zpos (digits2_pos my) + ey <= k ->
  -1074 <= k + 1 -> k + 1 <= 1023 ->
  let ez := Z.min ex ey in
  let r := binary_normalize prec emax
             (op (cond_Zopp sx (Zpos (fst (shl_align mx ex ez))))
                 (cond_Zopp sy (Zpos (fst (shl_align my ey ez))))) ez false in
  is_binary64 r /\ bounded_by (k + 2) r.
Proof.
  intros Hop Hx Hy Hlo Hhi ez r. subst r.
  replace (k + 2) with (k + 1 + 1) by lia.
  apply binary_normalize_ok; [|lia|lia].
  destruct (cond_Zopp_sign sx (Zpos (fst (shl_align mx ex ez)))) as (c1 & Hc1 & ->).
  destruct (cond_Zopp_sign sy (Zpos (fst (shl_align my ey ez)))) as (c2 & Hc2 & ->).
  unfold ez. rewrite fst_shl_align_min.
  rewrite (Z.min_comm ex ey), fst_shl_align_min, (Z.min_comm ey ex).
  destruct Hop as [-> | ->].
  - apply aligned_sum_digits; assumption.
  - replace (c1 * (Zpos mx * 2 ^ (ex - Z.min ex ey))
             - c2 * (Zpos my * 2 ^ (ey - Z.min ex ey)))
      with (c1 * (Zpos mx * 2 ^ (ex - Z.min ex ey))
            + (- c2) * (Zpos my * 2 ^ (ey - Z.min ex ey))) by lia.
    apply aligned_sum_digits; try assumption. lia.
Qed.

Lemma is_binary64_sign (s s' : bool) (m : positive) (e : Z) :
  is_binary64 (S754_finite s m e) -> is_binary64 (S754_finite s' m e).
Proof. exact (fun H => H). Qed.

Lemma SFadd_ok (x y : spec_float) (k : Z) :
  is_binary64 x -> is_binary64 y ->
  bounded_by k x -> bounded_by k y ->
  -1074 <= k + 1 -> k + 1 <= 1023 ->
  is_binary64 (SFadd prec emax x y)
  /\ bounded_by (k + 2) (SFadd prec emax x y).
Proof.
  intros Hx Hy Bx By Hlo Hhi.
  destruct x as [sx | sx | | sx mx ex], y as [sy | sy | | sy my ey];
    cbn [bounded_by] in Bx, By; try contradiction; cbn [SFadd].
  - destruct sx, sy; split; (reflexivity || exact I).
  - split; [exact Hy | cbn [bounded_by]; lia].
  - split; [exact Hx | cbn [bounded_by]; lia].
  - apply (aligned_sum_ok sx sy mx my ex ey Z.add k); auto.
Qed.

Lemma SFsub_ok (x y : spec_float) (k : Z) :
  is_binary64 x -> is_binary64 y ->
  bounded_by k x -> bounded_by k y ->
  -1074 <= k + 1 -> k + 1 <= 1023 ->
  is_binary64 (SFsub prec emax x y)
  /\ bounded_by (k + 2) (SFsub prec emax x y).
Proof.
  intros Hx Hy Bx By Hlo Hhi.
  destruct x as [sx | sx | | sx mx ex], y as [sy | sy | | sy my ey];
    cbn [bounded_by] in Bx, By; try contradiction; cbn [SFsub].
  - destruct sx, sy; split; (reflexivity || exact I).
  - split; [exact (is_binary64_sign sy (negb sy) my ey Hy) | cbn [bounded_by]; lia].
  - split; [exact Hx | cbn [bounded_by]; lia].
  - apply (aligned_sum_ok sx sy mx my ex ey Z.sub k); auto.
Qed.

(** *** Division of two integers *)
Lemma SFdiv_ints_ok (sa sb : bool) (a b : positive) (k : Z) :
  Zpos (digits2_pos a) - Zpos (digits2_pos b) + 1 <= k ->
  -1074 <= k -> k <= 1023 ->
  is_binary64 (SFdiv prec emax (S754_finite sa a 0) (S754_finite sb b 0))
  /\ bounded_by (k + 1)
       (SFdiv prec emax (S754_finite sa a 0) (S754_finite sb b 0)).
Proof.
  intros Hk Hlo Hhi. cbn [SFdiv]. unfold SFdiv_core_binary.
  cbn [Zdigits2]. rewrite fexp_eq.
  set (d1 := Zpos (digits2_pos a)) in *. set (d2 := Zpos (digits2_pos b)) in *.
  replace (d1 + 0 - (d2 + 0)) with (d1 - d2) by lia.
  replace (0 - 0) with 0 by lia.
  set (e' := Z.min (fexp64 (d1 - d2)) 0).
  set (s := 0 - e').
  assert (Hs : 0 <= s) by (unfold s, e'; lia).
  set (m' := match s with
             | 0 => Zpos a
             | Zpos _ => Z.shiftl (Zpos a) s
             | Zneg _ => 0
             end).
  assert (Hm' : m' = Zpos a * 2 ^ s).
  { unfold m'. clearbody s. destruct s as [|p|p]; try lia.
    apply Z.shiftl_mul_pow2. lia. }
  pose proof (Z_div_mod m' (Zpos b) ltac:(lia)) as Hdiv.
  unfold Z.div_eucl in Hdiv |- *. fold (Z.div_eucl m' (Zpos b)) in *.
  destruct (Z.div_eucl m' (Zpos b)) as [q r] eqn:Eqr.
  destruct Hdiv as [Hqr Hr].
  assert (Ha : 2 ^ (d1 - 1) <= Zpos a < 2 ^ d1)
    by (apply (Zdigits2_bounds (Zpos a)); lia).
  assert (Hb : 2 ^ (d2 - 1) <= Zpos b < 2 ^ d2)
    by (apply (Zdigits2_bounds (Zpos b)); lia).
  assert (Hps : 0 < 2 ^ s) by (apply Z.pow_pos_nonneg; lia).
  assert (Hq0 : 0 <= q) by nia.
  assert (Hd1 : 1 <= d1) by (unfold d1; lia).
  assert (Hd2 : 1 <= d2) by (unfold d2; lia).
  (* upper bound on the digits of the quotient *)
  assert (Hup : Zdigits2 q <= Z.max (d1 + s - d2 + 1) 0).
  { apply Zdigits2_le; [exact Hq0 | lia |].
    destruct (Z_lt_le_dec (d1 + s - d2 + 1) 0) as [Hneg | Hnn].
    - rewrite Z.max_r by lia. cbn.
      assert (m' < Zpos b); [|nia].
      rewrite Hm'. apply Z.lt_le_trans with (2 ^ d1 * 2 ^ s); [nia|].
      rewrite <- Z.pow_add_r by lia.
      apply Z.le_trans with (2 ^ (d2 - 1)); [apply Z.pow_le_mono_r; lia | lia].
    - rewrite Z.max_l by lia.
      assert (Hlt : m' < 2 ^ (d1 + s)).
      { rewrite Hm', Z.pow_add_r by lia. nia. }
      assert (Hsplit : 2 ^ (d1 + s) = 2 ^ (d1 + s - d2 + 1) * 2 ^ (d2 - 1)).
      { rewrite <- Z.pow_add_r by lia. f_equal. lia. }
      assert (0 < 2 ^ (d1 + s - d2 + 1)) by (apply Z.pow_pos_nonneg; lia).
      nia. }
  (* lower bound, when the quotient is not zero *)
  assert (Hdown : 0 < q -> d1 + s - d2 <= Zdigits2 q).
  { intros Hqpos.
    destruct (Z_lt_le_dec (d1 + s - d2) 1) as [Hsmall | Hbig].
    - pose proof (Zdigits2_pos q Hqpos). lia.
    - apply Zdigits2_ge; [exact Hqpos|].
      assert (Hge : 2 ^ (d1 + s - 1) <= m').
      { rewrite Hm'. replace (d1 + s - 1) with ((d1 - 1) + s) by lia.
        rewrite Z.pow_add_r by lia. nia. }
      assert (Hsplit : 2 ^ (d1 + s - 1) = 2 ^ (d1 + s - d2 - 1) * 2 ^ d2).
      { rewrite <- Z.pow_add_r by lia. f_equal. lia. }
      assert (0 < 2 ^ (d1 + s - d2 - 1)) by (apply Z.pow_pos_nonneg; lia).
      nia. }
  apply binary_round_aux_ok; try lia.
  - destruct (Z.eq_dec q 0) as [-> | Hne].
    + cbn [Zdigits2].
      assert (m' < Zpos b) by nia.
      assert (2 ^ (d1 + s - 1) <= m').
      { rewrite Hm'. replace (d1 + s - 1) with ((d1 - 1) + s) by lia.
        rewrite Z.pow_add_r by lia. nia. }
      assert (d1 + s - 1 < d2).
      { apply (Z.pow_lt_mono_r_iff 2); lia. }
      unfold s, e', fexp64 in *. lia.
    + specialize (Hdown ltac:(lia)). unfold s, e', fexp64 in *. lia.
  - unfold s, e', fexp64 in *. lia.
Qed.

(** *** The Python operations *)

Lemma one_is_binary64 : is_binary64 one.
Proof. reflexivity. Qed.

Lemma of_int_ok (n k : Z) :
  Zdigits2 n <= k -> -1074 <= k -> k <= 1023 ->
  exists x, of_int n = inr x /\ is_binary64 x /\ bounded_by (k + 1) x.
Proof.
  intros Hk Hlo Hhi. unfold of_int.
  destruct (binary_normalize_ok n 0 k false ltac:(lia) Hlo Hhi) as [Hv Hb].
  destruct (binary_normalize prec emax n 0 false) as [s | s | | s m e];
    cbn [bounded_by] in Hb; try contradiction; eexists; (split; [reflexivity|]);
    split; assumption.
Qed.

Lemma int_true_div_ok (a b k : Z) :
  b <> 0 ->
  Zdigits2 a - Zdigits2 b + 1 <= k -> 0 <= k -> k <= 1023 ->
  exists x, int_true_div a b = inr x /\ is_binary64 x /\ bounded_by (k + 1) x.
Proof.
  intros Hb Hk Hlo Hhi. unfold int_true_div.
  destruct a as [|pa|pa], b as [|pb|pb]; try contradiction;
    try (eexists; split; [reflexivity|]; split; [reflexivity | exact I]);
    cbn [Z.abs Z.to_pos Zdigits2] in *;
    match goal with |- context [SFdiv prec emax (S754_finite ?sa ?a 0)
                                  (S754_finite ?sb ?b 0)] =>
      destruct (SFdiv_ints_ok sa sb a b k ltac:(lia) ltac:(lia) Hhi) as [Hv Hbd];
      destruct (SFdiv prec emax (S754_finite sa a 0) (S754_finite sb b 0))
        as [s | s | | s m e]
    end;
    cbn [bounded_by] in Hbd; try contradiction;
    eexists; (split; [reflexivity|]); split; assumption.
Qed.

Lemma round_half_even_pos_bound (m : positive) (e k : Z) :
  Zpos (digits2_pos m) + e <= k -> 0 <= k ->
  0 <= round_half_even_pos (Zpos m) e <= 2 ^ k.
Proof.
  intros Hk Hk0.
  pose proof (Zdigits2_bounds (Zpos m) ltac:(lia)) as [_ Hhi]. cbn [Zdigits2] in Hhi.
  set (d := Zpos (digits2_pos m)) in *.
  assert (Hpk : 0 < 2 ^ k) by (apply Z.pow_pos_nonneg; lia).
  unfold round_half_even_pos.
  destruct e as [|p|p].
  - change (2 ^ 0) with 1. split; [lia|].
    assert (2 ^ d <= 2 ^ k) by (apply Z.pow_le_mono_r; lia). lia.
  - assert (Hp : 0 < 2 ^ Zpos p) by (apply Z.pow_pos_nonneg; lia).
    split; [nia|].
    assert (2 ^ d * 2 ^ Zpos p <= 2 ^ k).
    { rewrite <- Z.pow_add_r by lia. apply Z.pow_le_mono_r; lia. }
    nia.
  - change (Z.pow_pos 2 p) with (2 ^ Zpos p).
    assert (Hp : 0 < 2 ^ Zpos p) by (apply Z.pow_pos_nonneg; lia).
    assert (Hq : 0 <= Zpos m / 2 ^ Zpos p) by (apply Z.div_pos; lia).
    assert (Hq1 : Zpos m / 2 ^ Zpos p + 1 <= 2 ^ k).
    { destruct (Zdigits2_div_pow2 (Zpos m) (Zpos p) ltac:(lia) ltac:(lia))
        as [Hbig Hsmall]. cbn [Zdigits2] in Hbig, Hsmall. fold d in Hbig, Hsmall.
      destruct (Z_lt_le_dec (Zpos p) d) as [Hlt | Hle].
      - destruct (Hbig Hlt) as [Hpos Hdig].
        pose proof (Zdigits2_bounds _ Hpos) as [_ Hup]. rewrite Hdig in Hup.
        assert (2 ^ (d - Zpos p) <= 2 ^ k) by (apply Z.pow_le_mono_r; lia).
        lia.
      - rewrite (Hsmall Hle). lia. }
    destruct (2 * (Zpos m mod 2 ^ Zpos p) ?= 2 ^ Zpos p);
      [destruct (Z.even _)| |]; lia.
Qed.

Lemma round_ok (x : float) (k : Z) :
  bounded_by k x -> 0 <= k ->
  exists n, round x = inr n /\ Z.abs n <= 2 ^ k.
Proof.
  intros Hb Hk. unfold round, round_with.
  destruct x as [s | s | | s m e]; cbn [bounded_by] in Hb; try contradiction.
  - exists 0. split; [reflexivity|].
    pose proof (Z.pow_pos_nonneg 2 k ltac:(lia) Hk). cbn. lia.
  - eexists. split; [reflexivity|].
    pose proof (round_half_even_pos_bound m e k Hb Hk).
    destruct s; lia.
Qed.

(* ===================================================================== *)
(** ** The loop, one iteration at a time *)
(* ===================================================================== *)

(** The loop body as the source writes it: decision first, cap second. *)
Lemma step_loop_body (max_steps count : Z) (w : World) :
  step_loop max_steps count w =
    let '(should_continue, w') := interact w in
    if negb should_continue then
      (w', count + 1, "Agent Threshold Reached")
    else if count + 1 >=? max_steps then
      (w', count + 1, "Max Steps Reached")
    else step_loop max_steps (count + 1) w'.
Proof.
  simp step_loop.
  destruct (interact w) as [[|] w']; cbn; [|reflexivity].
  rewrite Z.geb_leb.
  destruct (Z_ge_dec (count + 1) max_steps) as [Hge | Hlt]; cbn;
    destruct (Z.leb_spec max_steps (count + 1)); (reflexivity || lia).
Qed.



#[local] Opaque str.

(* ===================================================================== *)
(** ** Method resolution on the attributes *)
(* ===================================================================== *)

Lemma attrs_set_attrs (v : SimpleAgent) (agent : Agent) :
  attrs (set_attrs v agent) = v.
Proof. destruct agent; reflexivity. Qed.

Lemma attrs_record_step (is_reward : bool) (agent : Agent) :
  attrs (record_step is_reward agent)
  = SimpleAgent_.record_step is_reward (attrs agent).
Proof. apply attrs_set_attrs. Qed.

Lemma decide_to_continue_fst (agent : Agent) :
  fst (decide_to_continue agent)
  = fst (SimpleAgent_.decide_to_continue (attrs agent)).
Proof.
  unfold decide_to_continue.
  destruct (SimpleAgent_.decide_to_continue (attrs agent)); reflexivity.
Qed.

Lemma attrs_decide_to_continue (agent : Agent) :
  attrs (snd (decide_to_continue agent))
  = snd (SimpleAgent_.decide_to_continue (attrs agent)).
Proof.
  unfold decide_to_continue.
  destruct (SimpleAgent_.decide_to_continue (attrs agent)); cbn.
  apply attrs_set_attrs.
Qed.

(** The decision reads two attributes and changes only the log. *)
Lemma simple_decide_value (a : SimpleAgent) :
  fst (SimpleAgent_.decide_to_continue a)
  = negb (consecutive_punishments a >=? give_up_threshold a).
Proof.
  unfold SimpleAgent_.decide_to_continue.
  destruct (consecutive_punishments a >=? give_up_threshold a); reflexivity.
Qed.

Lemma simple_decide_frame (a : SimpleAgent) :
  let a' := snd (SimpleAgent_.decide_to_continue a) in
  name a' = name a
  /\ give_up_threshold a' = give_up_threshold a
  /\ consecutive_punishments a' = consecutive_punishments a
  /\ total_punishments_received a' = total_punishments_received a
  /\ total_rewards_received a' = total_rewards_received a
  /\ steps_lived a' = steps_lived a.
Proof.
  unfold SimpleAgent_.decide_to_continue.
  destruct (consecutive_punishments a >=? give_up_threshold a); cbn; tauto.
Qed.

(** What one pass of steps 1 to 3 does, by the outcome drawn. *)
Definition outcome (w : World) : bool :=
  ltb (rng_of w 0%nat) (reward_probability (env_of w)).

Lemma interact_spec (w : World) :
  let a1 := record_step (outcome w) (agent_of w) in
  interact w =
    (fst (decide_to_continue a1),
     mkWorld (snd (fst (HarshEnvironment_.step (env_of w) (rng_of w))))
       (snd (decide_to_continue a1))
       (fun n => rng_of w (S n))).
Proof.
  unfold interact, outcome, HarshEnvironment_.step, random_random.
  destruct (ltb (rng_of w 0%nat) (reward_probability (env_of w))); cbn;
    match goal with |- context [decide_to_continue ?a] =>
      destruct (decide_to_continue a) end; reflexivity.
Qed.

Lemma env_step_spec (e : HarshEnvironment) (r : Rng) :
  let e' := snd (fst (HarshEnvironment_.step e r)) in
  let b := ltb (r 0%nat) (reward_probability e) in
  reward_probability e' = reward_probability e
  /\ steps_taken e' = steps_taken e + 1
  /\ total_rewards_given e' = total_rewards_given e + (if b then 1 else 0)
  /\ total_punishments_given e' = total_punishments_given e + (if b then 0 else 1).
Proof.
  unfold HarshEnvironment_.step, random_random.
  destruct (ltb (r 0%nat) (reward_probability e)); cbn; repeat split; lia.
Qed.

(* ===================================================================== *)
(** ** What a run of the loop adds up to *)
(* ===================================================================== *)

(** [advanced k w w']: [w'] is [w] after [k] steps, as far as the
    counters can tell; the threshold and the agent's class stay. *)
Record advanced (k : Z) (w w' : World) : Prop := mkAdvanced {
  adv_probability :
    reward_probability (env_of w') = reward_probability (env_of w);
  adv_steps_taken :
    steps_taken (env_of w') = steps_taken (env_of w) + k;
  adv_given :
    total_rewards_given (env_of w') + total_punishments_given (env_of w')
    = total_rewards_given (env_of w) + total_punishments_given (env_of w) + k;
  adv_steps_lived :
    steps_lived (attrs (agent_of w')) = steps_lived (attrs (agent_of w)) + k;
  adv_received :
    total_rewards_received (attrs (agent_of w'))
      + total_punishments_received (attrs (agent_of w'))
    = total_rewards_received (attrs (agent_of w))
      + total_punishments_received (attrs (agent_of w)) + k;
  adv_threshold :
    give_up_threshold (attrs (agent_of w')) = give_up_threshold (attrs (agent_of w));
  adv_class :
    agent_of w' = set_attrs (attrs (agent_of w')) (agent_of w);
  adv_rng :
    forall n, rng_of w' n = rng_of w (Z.to_nat k + n)%nat
}.

Lemma set_attrs_set_attrs (u v : SimpleAgent) (agent : Agent) :
  set_attrs u (set_attrs v agent) = set_attrs u agent.
Proof. destruct agent; reflexivity. Qed.

Lemma decide_to_continue_snd (agent : Agent) :
  snd (decide_to_continue agent)
  = set_attrs (snd (SimpleAgent_.decide_to_continue (attrs agent))) agent.
Proof.
  unfold decide_to_continue.
  destruct (SimpleAgent_.decide_to_continue (attrs agent)); reflexivity.
Qed.

Lemma interact_advanced (w : World) : advanced 1 w (snd (interact w)).
Proof.
  rewrite interact_spec. cbn [snd].
  pose proof (env_step_spec (env_of w) (rng_of w)) as (Hp & Hs & Hr & Hq).
  cbn zeta in Hp, Hs, Hr, Hq.
  pose proof (simple_decide_frame
                (attrs (record_step (outcome w) (agent_of w))))
    as (_ & Ht & _ & Hpu & Hre & Hst).
  cbn zeta in Ht, Hpu, Hre, Hst.
  rewrite attrs_record_step in Ht, Hpu, Hre, Hst.
  constructor; cbn [env_of agent_of rng_of]; try rewrite attrs_decide_to_continue,
    attrs_record_step.
  - exact Hp.
  - exact Hs.
  - rewrite Hr, Hq. destruct (ltb _ _); lia.
  - rewrite Hst. destruct (outcome w); cbn; lia.
  - rewrite Hre, Hpu. destruct (outcome w); cbn; lia.
  - rewrite Ht. destruct (outcome w); reflexivity.
  - rewrite decide_to_continue_snd. unfold record_step.
    now rewrite !attrs_set_attrs, !set_attrs_set_attrs.
  - intros n. reflexivity.
Qed.

Lemma advanced_trans (j k : Z) (w w1 w2 : World) :
  0 <= j -> 0 <= k ->
  advanced j w w1 -> advanced k w1 w2 -> advanced (j + k) w w2.
Proof.
  intros Hj Hk [] []. constructor; try lia; try congruence.
  - etransitivity; [eassumption|].
    match goal with H : agent_of w1 = _ |- _ => rewrite H end.
    now rewrite set_attrs_set_attrs.
  - intros n.
    match goal with
      H1 : forall n, rng_of w2 n = _, H0 : forall n, rng_of w1 n = _ |- _ =>
        rewrite H1, H0
    end.
    f_equal. lia.
Qed.

(** Induction along the iterations of the loop. *)
Lemma step_loop_induction (max_steps : Z)
  (P : Z -> World -> World * Z * string -> Prop) :
  (forall count w,
      (forall w', interact w = (true, w') -> count + 1 < max_steps ->
                  P (count + 1) w' (step_loop max_steps (count + 1) w')) ->
      P count w (step_loop max_steps count w)) ->
  forall count w, P count w (step_loop max_steps count w).
Proof.
  intros Hbody count.
  remember (Z.to_nat (max_steps - count)) as n eqn:Hn.
  revert count Hn.
  induction n as [n IH] using lt_wf_ind.
  intros count Hn w. apply Hbody.
  intros w' _ Hlt. apply (IH (Z.to_nat (max_steps - (count + 1)))); lia.
Qed.

Lemma step_loop_advanced (max_steps count : Z) (w : World) :
  let '(w', count', _) := step_loop max_steps count w in
  count < count' /\ advanced (count' - count) w w'.
Proof.
  revert count w.
  apply (step_loop_induction max_steps
           (fun count w r => let '(w', count', _) := r in
              count < count' /\ advanced (count' - count) w w')).
  intros count w IH.
  rewrite step_loop_body.
  pose proof (interact_advanced w) as Hadv.
  destruct (interact w) as [d w1]; cbn [snd] in Hadv.
  destruct d; cbn [negb].
  - destruct (count + 1 >=? max_steps) eqn:Hge.
    + split; [lia|]. now replace (count + 1 - count) with 1 by lia.
    + specialize (IH w1 eq_refl).
      assert (Hlt : count + 1 < max_steps).
      { rewrite Z.geb_leb in Hge. apply Z.leb_gt in Hge. lia. }
      specialize (IH Hlt).
      destruct (step_loop max_steps (count + 1) w1) as [[w' count'] r].
      destruct IH as [Hc IH]. split; [lia|].
      replace (count' - count) with (1 + (count' - (count + 1))) by lia.
      apply advanced_trans with w1; (lia || assumption).
  - split; [lia|]. now replace (count + 1 - count) with 1 by lia.
Qed.

(** How the loop ends: on the decision, or else on the cap. *)
Lemma step_loop_end (max_steps count : Z) (w : World) :
  let '(w', count', reason) := step_loop max_steps count w in
  let a := attrs (agent_of w') in
  (reason = "Agent Threshold Reached"
   /\ consecutive_punishments a >= give_up_threshold a)
  \/ (reason = "Max Steps Reached"
      /\ consecutive_punishments a < give_up_threshold a
      /\ count' >= max_steps).
Proof.
  revert count w.
  apply (step_loop_induction max_steps
           (fun count w r => let '(w', count', reason) := r in
              let a := attrs (agent_of w') in
              (reason = "Agent Threshold Reached"
               /\ consecutive_punishments a >= give_up_threshold a)
              \/ (reason = "Max Steps Reached"
                  /\ consecutive_punishments a < give_up_threshold a
                  /\ count' >= max_steps))).
  intros count w IH.
  rewrite step_loop_body.
  pose proof (interact_spec w) as Hi. cbn zeta in Hi.
  destruct (interact w) as [d w1].
  injection Hi as Hd Hw.
  assert (Hcmp : d = negb (consecutive_punishments (attrs (agent_of w1))
                           >=? give_up_threshold (attrs (agent_of w1)))).
  { rewrite Hd, Hw. cbn [agent_of].
    rewrite decide_to_continue_fst, simple_decide_value.
    rewrite attrs_decide_to_continue.
    pose proof (simple_decide_frame
                  (attrs (record_step (outcome w) (agent_of w))))
      as (_ & Ht & Hc & _).
    cbn zeta in Ht, Hc. now rewrite Ht, Hc. }
  clear Hd Hw.
  rewrite Z.geb_leb in Hcmp.
  destruct d; cbn [negb].
  - symmetry in Hcmp. apply negb_true_iff, Z.leb_gt in Hcmp.
    destruct (count + 1 >=? max_steps) eqn:Hge.
    + right. rewrite Z.geb_leb in Hge. apply Z.leb_le in Hge.
      repeat split; (reflexivity || lia).
    + apply IH; [reflexivity|].
      rewrite Z.geb_leb in Hge. apply Z.leb_gt in Hge. lia.
  - symmetry in Hcmp. apply negb_false_iff, Z.leb_le in Hcmp.
    left. split; [reflexivity | lia].
Qed.

(* ===================================================================== *)
(** ** The decision rule and the end of a generation *)
(* ===================================================================== *)

(** C1.  An agent of either class decides to give up (returns [False])
    exactly when [consecutive_punishments >= give_up_threshold]; and that
    decision is the only way the agent ends a generation: an iteration
    whose decision is to give up ends the loop with "Agent Threshold
    Reached", an iteration whose decision is to continue ends it only on
    the step count, and the loop's end reason is "Agent Threshold
    Reached" exactly when the agent stands at or over its threshold. *)
Theorem decide_to_continue_sole_agent_trigger :
  (forall agent : Agent,
      fst (decide_to_continue agent) = false
      <-> consecutive_punishments (attrs agent) >= give_up_threshold (attrs agent))
  /\ (forall (max_steps count : Z) (w : World),
         let '(should_continue, w1) := interact w in
         step_loop max_steps count w =
           if should_continue then
             if count + 1 >=? max_steps then (w1, count + 1, "Max Steps Reached")
             else step_loop max_steps (count + 1) w1
           else (w1, count + 1, "Agent Threshold Reached"))
  /\ (forall (max_steps count : Z) (w : World),
         let '(w', _, reason) := step_loop max_steps count w in
         reason = "Agent Threshold Reached"
         <-> consecutive_punishments (attrs (agent_of w'))
             >= give_up_threshold (attrs (agent_of w'))).
Proof.
  split; [|split].
  - intros agent.
    rewrite decide_to_continue_fst, simple_decide_value, Z.geb_leb.
    rewrite negb_false_iff, Z.leb_le. lia.
  - intros max_steps count w. rewrite step_loop_body.
    destruct (interact w) as [[|] w1]; reflexivity.
  - intros max_steps count w.
    pose proof (step_loop_end max_steps count w) as H.
    destruct (step_loop max_steps count w) as [[w' count'] reason].
    cbn zeta in H.
    destruct H as [[-> Hge] | (-> & Hlt & _)].
    + tauto.
    + split; [discriminate | lia].
Qed.

(** C4.  The decision is tested before the step cap: a generation whose
    last step is step number [max_steps_per_generation] and leaves the
    agent at or over its threshold ends with "Agent Threshold Reached",
    not with "Max Steps Reached". *)
Theorem give_up_on_last_allowed_step :
  forall (max_steps : Z) (w w' : World) (reason : string),
    step_loop max_steps 0 w = (w', max_steps, reason) ->
    consecutive_punishments (attrs (agent_of w'))
      >= give_up_threshold (attrs (agent_of w')) ->
    reason = "Agent Threshold Reached" /\ reason <> "Max Steps Reached".
Proof.
  intros max_steps w w' reason Hrun Hge.
  pose proof (step_loop_end max_steps 0 w) as H.
  rewrite Hrun in H. cbn zeta in H.
  destruct H as [[-> _] | (_ & Hlt & _)].
  - split; [reflexivity | discriminate].
  - lia.
Qed.

(** A world where every sample is [0.0]: with reward probability [0.0]
    each step is a punishment. *)
Definition all_zero : Rng := fun _ => zero.

Definition fresh_simple (threshold : Z) : Agent :=
  Simple (mkSimpleAgent "Simple_Gen0" threshold 0 0 0 0 []).

Definition punishing_world (threshold : Z) : World :=
  mkWorld (mkHarshEnvironment zero 0 0 0) (fresh_simple threshold) all_zero.

Lemma give_up_on_last_allowed_step_witness :
  let w' := fst (fst (step_loop 3 0 (punishing_world 3))) in
  step_loop 3 0 (punishing_world 3) = (w', 3, "Agent Threshold Reached")
  /\ consecutive_punishments (attrs (agent_of w')) = 3
  /\ give_up_threshold (attrs (agent_of w')) = 3
  /\ ("Agent Threshold Reached" = "Agent Threshold Reached"
      /\ "Agent Threshold Reached" <> "Max Steps Reached").
Proof.
  cbv zeta.
  split; [vm_compute; reflexivity|].
  split; [vm_compute; reflexivity|].
  split; [vm_compute; reflexivity|].
  apply (give_up_on_last_allowed_step 3 (punishing_world 3)
           (fst (fst (step_loop 3 0 (punishing_world 3))))).
  - vm_compute. reflexivity.
  - vm_compute. discriminate.
Defined.

(* ===================================================================== *)
(** ** [reset] *)
(* ===================================================================== *)

(** C6.  [reset] zeroes the streak, the two totals and [steps_lived],
    empties [decision_log] and keeps [give_up_threshold], for both
    classes; a learning agent also keeps [historical_lifespans] (and
    its learning rate), so the threshold after [reset] is the threshold
    before it. *)
Theorem reset_clears_counters_keeps_threshold :
  forall agent : Agent,
    let agent' := reset agent in
    consecutive_punishments (attrs agent') = 0
    /\ total_rewards_received (attrs agent') = 0
    /\ total_punishments_received (attrs agent') = 0
    /\ steps_lived (attrs agent') = 0
    /\ decision_log (attrs agent') = []
    /\ give_up_threshold (attrs agent') = give_up_threshold (attrs agent)
    /\ name (attrs agent') = name (attrs agent)
    /\ match agent, agent' with
       | Simple _, Simple _ => True
       | Learner a, Learner a' =>
           historical_lifespans a' = historical_lifespans a
           /\ learning_rate a' = learning_rate a
       | _, _ => False
       end.
Proof.
  intros [a | a]; cbn; repeat split; reflexivity.
Qed.

(* ===================================================================== *)
(** ** Formatting an integer *)
(* ===================================================================== *)

Lemma str_digits_limit_pos : 0 < str_digits_limit.
Proof. reflexivity. Qed.

(** Every float that is not infinite rounds to an [int] far below the
    limit, and so do the counts of a run of moderate size. *)
Lemma pow2_1100_below_limit : 2 ^ 1100 < str_digits_limit.
Proof. vm_compute. reflexivity. Qed.

#[local] Opaque str_digits_limit.

Lemma format_int_inr (n : Z) :
  Z.abs n < str_digits_limit -> format_int n = inr (str n).
Proof.
  intros H. unfold format_int.
  destruct (Z.geb_spec (Z.abs n) str_digits_limit); [lia | reflexivity].
Qed.


Lemma format_int_returned (n : Z) (text : string) :
  format_int n = inr text -> Z.abs n < str_digits_limit.
Proof.
  unfold format_int.
  destruct (Z.geb_spec (Z.abs n) str_digits_limit); [discriminate | intros _; lia].
Qed.

(* ===================================================================== *)
(** ** Construction of a learning agent *)
(* ===================================================================== *)





(* ===================================================================== *)
(** ** The learning rule *)
(* ===================================================================== *)

Lemma bind_inr {A B : Type} (m : result A) (k : A -> result B) (b : B) :
  bind m k = inr b -> exists a, m = inr a /\ k a = inr b.
Proof.
  destruct m as [e | a]; cbn; [discriminate|]. intros H. now exists a.
Qed.

(** The rule in the words of its contract: append, take the mean of the
    whole history, round it to the target (at least 1), interpolate
    between the threshold and the target, round, clamp at 1, assign.
    The rounding of a float to an integer is left open. *)
Definition learning_rule (rnd : float -> result Z) (current_lifespan : Z)
  (self : LearningAgent) : result LearningAgent :=
  let history := historical_lifespans self ++ [current_lifespan] in
  avg <- int_true_div (sum history) (len history) ;;
  rounded_avg <- rnd avg ;;
  let target := Z.max 1 rounded_avg in
  threshold_f <- of_int (give_up_threshold (base self)) ;;
  target_f <- of_int target ;;
  new_threshold <-
    rnd (add (mul threshold_f (sub one (learning_rate self)))
             (mul target_f (learning_rate self))) ;;
  ret (mkLearningAgent
         (set_give_up_threshold (Z.max 1 new_threshold) (base self))
         (learning_rate self) history).

(** Round half away from zero, the rounding the contract names. *)
Definition round_half_away : float -> result Z := round_with round_half_away_pos.

(** The fallback branch of [learn_from_history] is dead: the history
    has just been appended to. *)
Lemma learn_from_history_rule (n : Z) (self : LearningAgent) :
  LearningAgent_.learn_from_history n self = learning_rule round n self.
Proof.
  unfold LearningAgent_.learn_from_history, learning_rule.
  cbn [historical_lifespans set_historical_lifespans base learning_rate].
  destruct (historical_lifespans self ++ [n]) eqn:E.
  - now apply app_eq_nil in E as [_ E].
  - reflexivity.
Qed.

(** What a successful update leaves behind. *)
Lemma learn_from_history_frame (n : Z) (self self' : LearningAgent) :
  LearningAgent_.learn_from_history n self = inr self' ->
  1 <= give_up_threshold (base self')
  /\ historical_lifespans self' = historical_lifespans self ++ [n]
  /\ learning_rate self' = learning_rate self
  /\ name (base self') = name (base self)
  /\ consecutive_punishments (base self') = consecutive_punishments (base self)
  /\ total_punishments_received (base self') = total_punishments_received (base self)
  /\ total_rewards_received (base self') = total_rewards_received (base self)
  /\ steps_lived (base self') = steps_lived (base self)
  /\ decision_log (base self') = decision_log (base self).
Proof.
  rewrite learn_from_history_rule. unfold learning_rule.
  intros H.
  repeat (apply bind_inr in H as (? & _ & H)).
  injection H as <-. cbn. repeat split; lia.
Qed.

(** *** The learning rule returns *)

Lemma len_snoc_pos {A : Type} (l : list A) (x : A) : 1 <= len (l ++ [x]).
Proof. unfold len. rewrite length_app. cbn. lia. Qed.

(** On a binary64 rate below [2^64] in magnitude, with the threshold
    and the sum of the history below [2^64] in magnitude, every float
    of the update is finite and the call returns. *)
Lemma learn_from_history_returns (n : Z) (self : LearningAgent) :
  is_binary64 (learning_rate self) ->
  bounded_by 64 (learning_rate self) ->
  Z.abs (give_up_threshold (base self)) < 2 ^ 64 ->
  Z.abs (sum (historical_lifespans self ++ [n])) < 2 ^ 64 ->
  exists self', LearningAgent_.learn_from_history n self = inr self'.
Proof.
  intros Hrate Brate Hthr Hsum.
  rewrite learn_from_history_rule. unfold learning_rule.
  set (history := historical_lifespans self ++ [n]) in *.
  pose proof (len_snoc_pos (historical_lifespans self) n) as Hlen.
  fold history in Hlen.
  destruct (int_true_div_ok (sum history) (len history) 64)
    as (avg & -> & Vavg & Bavg); try lia.
  { pose proof (Zdigits2_lt_pow2 (sum history) 64 ltac:(lia) Hsum).
    pose proof (Zdigits2_pos (len history) ltac:(lia)). lia. }
  cbn [bind].
  destruct (round_ok avg 65 Bavg ltac:(lia)) as (r & -> & Hr). cbn [bind].
  destruct (of_int_ok (give_up_threshold (base self)) 64)
    as (tf & -> & Vtf & Btf); try lia.
  { apply Zdigits2_lt_pow2; lia. }
  cbn [bind].
  destruct (of_int_ok (Z.max 1 r) 66) as (gf & -> & Vgf & Bgf); try lia.
  { apply Zdigits2_lt_pow2; [lia|].
    assert (2 ^ 65 < 2 ^ 66) by (apply Z.pow_lt_mono_r; lia). lia. }
  cbn [bind].
  assert (Bone : bounded_by 64 one) by (cbn; lia).
  destruct (SFsub_ok one (learning_rate self) 64 one_is_binary64 Hrate Bone Brate)
    as [Vs Bs]; try lia.
  destruct (SFmul_ok tf (SFsub prec emax one (learning_rate self)) 65 66
              Vtf Vs Btf Bs) as [Vm1 Bm1]; try lia.
  destruct (SFmul_ok gf (learning_rate self) 67 64 Vgf Hrate Bgf Brate)
    as [Vm2 Bm2]; try lia.
  destruct (SFadd_ok _ _ 132 Vm1 Vm2 Bm1 Bm2) as [Va Ba]; try lia.
  destruct (round_ok _ 134 Ba ltac:(lia)) as (k & Hk & _).
  unfold add, mul, sub. rewrite Hk. cbn [bind]. eexists. reflexivity.
Qed.

(* ===================================================================== *)
(** ** Counters of the agent and of the environment *)
(* ===================================================================== *)

Definition agent_balanced (agent : Agent) : Prop :=
  steps_lived (attrs agent)
  = total_rewards_received (attrs agent) + total_punishments_received (attrs agent).

Definition env_balanced (e : HarshEnvironment) : Prop :=
  steps_taken e = total_rewards_given e + total_punishments_given e.

(** The agents and environments the constructors and methods can
    produce. *)
Inductive agent_reachable : Agent -> Prop :=
| reach_SimpleAgent (threshold : Z) (name : string) (a : SimpleAgent) :
    SimpleAgent_.__init__ threshold name = inr a ->
    agent_reachable (Simple a)
| reach_LearningAgent (threshold : Z) (rate : float) (name : string)
    (a : LearningAgent) :
    LearningAgent_.__init__ threshold rate name = inr a ->
    agent_reachable (Learner a)
| reach_reset (agent : Agent) :
    agent_reachable agent -> agent_reachable (reset agent)
| reach_record_step (is_reward : bool) (agent : Agent) :
    agent_reachable agent -> agent_reachable (record_step is_reward agent)
| reach_decide_to_continue (agent : Agent) :
    agent_reachable agent -> agent_reachable (snd (decide_to_continue agent))
| reach_rename (name : string) (agent : Agent) :
    agent_reachable agent -> agent_reachable (rename name agent)
| reach_learn_from_history (n : Z) (a a' : LearningAgent) :
    agent_reachable (Learner a) ->
    LearningAgent_.learn_from_history n a = inr a' ->
    agent_reachable (Learner a').

Inductive env_reachable : HarshEnvironment -> Prop :=
| reach_HarshEnvironment (p : float) (e : HarshEnvironment) :
    HarshEnvironment_.__init__ p = inr e -> env_reachable e
| reach_step (e : HarshEnvironment) (r : Rng) :
    env_reachable e -> env_reachable (snd (fst (HarshEnvironment_.step e r)))
| reach_reset_stats (e : HarshEnvironment) :
    env_reachable e -> env_reachable (HarshEnvironment_.reset_stats e).

Lemma simple_init_inr (threshold : Z) (name : string) (a : SimpleAgent) :
  SimpleAgent_.__init__ threshold name = inr a ->
  0 < threshold /\ a = mkSimpleAgent name threshold 0 0 0 0 [].
Proof.
  unfold SimpleAgent_.__init__.
  destruct (Z.leb_spec threshold 0) as [Hle | Hlt]; [discriminate|].
  intros E. injection E as <-. split; [lia | reflexivity].
Qed.

Lemma learning_init_inr (threshold : Z) (rate : float) (name : string)
  (a : LearningAgent) :
  LearningAgent_.__init__ threshold rate name = inr a ->
  0 < threshold < str_digits_limit
  /\ a = mkLearningAgent (mkSimpleAgent name threshold 0 0 0 0 []) rate [threshold].
Proof.
  unfold LearningAgent_.__init__. intros H.
  apply bind_inr in H as (b & Hb & H).
  apply simple_init_inr in Hb as [Hpos ->].
  cbn [base give_up_threshold] in H.
  apply bind_inr in H as (text & Htext & H). injection H as <-.
  apply format_int_returned in Htext. split; [lia | reflexivity].
Qed.

Lemma record_step_balanced (is_reward : bool) (agent : Agent) :
  agent_balanced agent -> agent_balanced (record_step is_reward agent).
Proof.
  unfold agent_balanced. rewrite attrs_record_step.
  destruct is_reward; cbn; lia.
Qed.

Lemma step_balanced (e : HarshEnvironment) (r : Rng) :
  env_balanced e -> env_balanced (snd (fst (HarshEnvironment_.step e r))).
Proof.
  unfold env_balanced.
  pose proof (env_step_spec e r) as (_ & Hs & Hr & Hp). cbn zeta in Hs, Hr, Hp.
  rewrite Hs, Hr, Hp. destruct (ltb _ _); lia.
Qed.

(** C9.  On every agent the constructors and methods can produce (so
    after every [record_step]) [steps_lived] is the sum of the rewards
    and punishments received, and on every environment they can produce
    (so after every [step]) [steps_taken] is the sum of the rewards and
    punishments given; [record_step] and [step] keep these equalities
    from whatever state satisfies them. *)
Theorem counters_balanced :
  (forall agent, agent_reachable agent -> agent_balanced agent)
  /\ (forall e, env_reachable e -> env_balanced e)
  /\ (forall is_reward agent,
         agent_balanced agent -> agent_balanced (record_step is_reward agent))
  /\ (forall e r,
         env_balanced e -> env_balanced (snd (fst (HarshEnvironment_.step e r)))).
Proof.
  split; [|split; [|split]].
  - intros agent Hreach.
    induction Hreach as [t n a H | t lr n a H | agent _ IH | b agent _ IH
                        | agent _ IH | n agent _ IH | n a a' _ IH H].
    + apply simple_init_inr in H as [_ ->]. reflexivity.
    + apply learning_init_inr in H as [_ ->]. reflexivity.
    + destruct agent; reflexivity.
    + now apply record_step_balanced.
    + unfold agent_balanced in *. rewrite attrs_decide_to_continue.
      pose proof (simple_decide_frame (attrs agent)) as (_ & _ & _ & Hp & Hr & Hs).
      cbn zeta in Hp, Hr, Hs. now rewrite Hp, Hr, Hs.
    + unfold agent_balanced, rename in *. rewrite attrs_set_attrs. exact IH.
    + apply learn_from_history_frame in H
        as (_ & _ & _ & _ & _ & Hp & Hr & Hs & _).
      unfold agent_balanced in *. cbn [attrs] in *. now rewrite Hp, Hr, Hs.
  - intros e Hreach.
    induction Hreach as [p e H | e r _ IH | e _ IH].
    + unfold HarshEnvironment_.__init__ in H.
      destruct (negb _); [discriminate|]. injection H as <-. reflexivity.
    + now apply step_balanced.
    + reflexivity.
  - exact record_step_balanced.
  - exact step_balanced.
Qed.

(** The threshold of an agent is at least 1 from its construction
    on: the constructors refuse the others and the learning rule clamps
    at 1. *)
Lemma reachable_threshold_positive (agent : Agent) :
  agent_reachable agent -> 1 <= give_up_threshold (attrs agent).
Proof.
  intros Hreach.
  induction Hreach as [t n a H | t lr n a H | agent _ IH | b agent _ IH
                      | agent _ IH | n agent _ IH | n a a' _ IH H].
  - apply simple_init_inr in H as [Hpos ->]. cbn. lia.
  - apply learning_init_inr in H as [Hpos ->]. cbn. lia.
  - destruct agent; exact IH.
  - rewrite attrs_record_step. destruct b; exact IH.
  - rewrite attrs_decide_to_continue.
    pose proof (simple_decide_frame (attrs agent)) as (_ & Ht & _).
    cbn zeta in Ht. now rewrite Ht.
  - unfold rename. rewrite attrs_set_attrs. exact IH.
  - apply learn_from_history_frame in H as (Hthr & _). exact Hthr.
Qed.

Lemma counters_balanced_witness :
  agent_reachable (record_step false (fresh_simple 3))
  /\ agent_balanced (record_step false (fresh_simple 3)).
Proof.
  assert (H : agent_reachable (record_step false (fresh_simple 3))).
  { apply reach_record_step.
    apply (reach_SimpleAgent 3 "Simple_Gen0"). reflexivity. }
  split; [exact H | exact (proj1 counters_balanced _ H)].
Defined.

(* ===================================================================== *)
(** ** Generations under the two extreme probabilities *)
(* ===================================================================== *)

(** No sample of [random.random()] is below [0.0]. *)
Lemma sample_not_below_zero (x : float) :
  leb zero x = true -> ltb x zero = false.
Proof.
  destruct x as [s | s | | s m e]; cbn; try destruct s; (reflexivity || discriminate).
Qed.

Lemma outcome_punishment (w : World) :
  reward_probability (env_of w) = zero ->
  unit_sample (rng_of w 0%nat) ->
  outcome w = false.
Proof.
  intros Hp [Hlo _]. unfold outcome. rewrite Hp.
  now apply sample_not_below_zero.
Qed.

Lemma outcome_reward (w : World) :
  reward_probability (env_of w) = one ->
  unit_sample (rng_of w 0%nat) ->
  outcome w = true.
Proof.
  intros Hp [_ Hhi]. unfold outcome. now rewrite Hp.
Qed.

(** The attributes the decision reads, after one pass of steps 1-3. *)
Lemma interact_streak (w : World) :
  let '(should_continue, w') := interact w in
  let a := attrs (agent_of w) in
  let a' := attrs (agent_of w') in
  give_up_threshold a' = give_up_threshold a
  /\ consecutive_punishments a'
     = (if outcome w then 0 else consecutive_punishments a + 1)
  /\ should_continue
     = negb (consecutive_punishments a' >=? give_up_threshold a')
  /\ reward_probability (env_of w') = reward_probability (env_of w)
  /\ (forall n, rng_of w' n = rng_of w (S n)).
Proof.
  pose proof (interact_advanced w) as Hadv.
  rewrite interact_spec in *. cbn [snd] in Hadv. cbn zeta.
  cbn [agent_of env_of rng_of].
  rewrite decide_to_continue_fst, simple_decide_value.
  rewrite attrs_decide_to_continue, attrs_record_step.
  pose proof (simple_decide_frame
                (SimpleAgent_.record_step (outcome w) (attrs (agent_of w))))
    as (_ & Ht & Hc & _).
  cbn zeta in Ht, Hc. rewrite Ht, Hc.
  repeat split.
  - destruct (outcome w); reflexivity.
  - destruct (outcome w); reflexivity.
  - exact (adv_probability _ _ _ Hadv).
Qed.

(** With probability [0.0] the loop runs until the streak reaches the
    threshold, if the cap leaves room for that. *)
Lemma step_loop_all_punished (n : nat) :
  forall (max_steps count : Z) (w : World),
    reward_probability (env_of w) = zero ->
    (forall i, unit_sample (rng_of w i)) ->
    give_up_threshold (attrs (agent_of w))
      - consecutive_punishments (attrs (agent_of w)) = Z.of_nat (S n) ->
    count + Z.of_nat (S n) <= max_steps ->
    exists w',
      step_loop max_steps count w
      = (w', count + Z.of_nat (S n), "Agent Threshold Reached").
Proof.
  induction n as [|n IH]; intros max_steps count w Hp Hs Hgap Hroom;
    rewrite step_loop_body;
    pose proof (interact_streak w) as Hi;
    destruct (interact w) as [d w1]; cbn zeta in Hi;
    destruct Hi as (Ht & Hc & Hd & Hp1 & Hr1);
    rewrite (outcome_punishment w Hp (Hs 0%nat)) in Hc;
    rewrite Z.geb_leb in Hd.
  - replace d with false.
    + exists w1. reflexivity.
    + rewrite Hd. symmetry. apply negb_false_iff, Z.leb_le. lia.
  - replace d with true.
    + cbn [negb]. rewrite Z.geb_leb.
      destruct (Z.leb_spec max_steps (count + 1)) as [Hle | Hlt]; [lia|].
      destruct (IH max_steps (count + 1) w1) as [w' Hw'].
      * congruence.
      * intros i. rewrite Hr1. apply Hs.
      * lia.
      * lia.
      * exists w'. rewrite Hw'. do 2 f_equal. lia.
    + rewrite Hd. symmetry. apply negb_true_iff, Z.leb_gt. lia.
Qed.

(** With probability [1.0] and a positive threshold the loop runs until
    the cap, and for one step when the cap is not positive. *)
Lemma step_loop_all_rewarded (n : nat) :
  forall (max_steps count : Z) (w : World),
    reward_probability (env_of w) = one ->
    (forall i, unit_sample (rng_of w i)) ->
    1 <= give_up_threshold (attrs (agent_of w)) ->
    max_steps - (count + 1) <= Z.of_nat n ->
    exists w',
      step_loop max_steps count w
      = (w', Z.max (count + 1) max_steps, "Max Steps Reached")
      /\ consecutive_punishments (attrs (agent_of w')) = 0.
Proof.
  induction n as [|n IH]; intros max_steps count w Hp Hs Hthr Hroom;
    rewrite step_loop_body;
    pose proof (interact_streak w) as Hi;
    destruct (interact w) as [d w1]; cbn zeta in Hi;
    destruct Hi as (Ht & Hc & Hd & Hp1 & Hr1);
    rewrite (outcome_reward w Hp (Hs 0%nat)) in Hc;
    rewrite Z.geb_leb in Hd;
    (replace d with true
      by (rewrite Hd; symmetry; apply negb_true_iff, Z.leb_gt; lia));
    cbn [negb]; rewrite Z.geb_leb;
    destruct (Z.leb_spec max_steps (count + 1)) as [Hle | Hlt];
    try (exists w1; split; [do 2 f_equal; lia | exact Hc]);
    try lia.
  destruct (IH max_steps (count + 1) w1) as (w' & Hw' & Hc').
  - congruence.
  - intros i. rewrite Hr1. apply Hs.
  - lia.
  - lia.
  - exists w'. split; [|exact Hc']. rewrite Hw'. do 2 f_equal. lia.
Qed.

(** The world a generation starts its steps in. *)
Definition generation_start (agent_type : string) (gen_num : Z) (st : SimState)
  : World :=
  mkWorld (env_of (world st))
    (rename (agent_type ++ "_Gen" ++ str gen_num)%string
       (reset (agent_of (world st))))
    (rng_of (world st)).

Lemma generation_start_attrs (agent_type : string) (gen_num : Z) (st : SimState) :
  let a := attrs (agent_of (generation_start agent_type gen_num st)) in
  give_up_threshold a = give_up_threshold (attrs (agent_of (world st)))
  /\ consecutive_punishments a = 0
  /\ total_rewards_received a = 0
  /\ total_punishments_received a = 0
  /\ steps_lived a = 0.
Proof.
  unfold generation_start, rename. cbn [agent_of]. rewrite attrs_set_attrs.
  destruct (agent_of (world st)); cbn; tauto.
Qed.

(** One generation, read off the loop it runs. *)
Lemma run_generation_spec (config : Config) (agent_type : string) (gen_num : Z)
  (st : SimState) :
  let w0 := generation_start agent_type gen_num st in
  let '(w', _, reason) := step_loop (max_steps_per_generation config) 0 w0 in
  let '(st', raised) := run_generation config agent_type gen_num st in
  all_generation_data st'
  = all_generation_data st
      ++ [mkGenerationData gen_num (get_generation_summary (attrs (agent_of w')))
            reason (give_up_threshold (attrs (agent_of w0)))]
  /\ env_of (world st') = env_of w'
  /\ rng_of (world st') = rng_of w'
  /\ generations_completed st' = generations_completed st + 1
  /\ match learn_if_learner (steps_lived (attrs (agent_of w'))) (agent_of w') with
     | inr learned => raised = None /\ agent_of (world st') = learned
     | inl e => raised = Some e /\ agent_of (world st') = agent_of w'
     end.
Proof.
  unfold run_generation, generation_start. cbn zeta.
  destruct (step_loop _ _ _) as [[w' count'] reason].
  cbn [lifespan get_generation_summary].
  destruct (learn_if_learner _ _) as [e | learned]; cbn; tauto.
Qed.

(** "In exactly [T] steps, on the threshold": what a generation appends
    to the records, and that nothing was raised. *)
Definition gives_up_after (T : Z) (config : Config) (agent_type : string)
  (gen_num : Z) (st : SimState) : Prop :=
  exists st' gd,
    run_generation config agent_type gen_num st = (st', None)
    /\ all_generation_data st' = all_generation_data st ++ [gd]
    /\ lifespan (summary gd) = T
    /\ end_reason gd = "Agent Threshold Reached".

(** C3, as amended.  With reward probability [0.0], a generation of a
    fixed-threshold agent whose threshold is [T >= 1] ends after exactly
    [T] steps with "Agent Threshold Reached", provided
    [T <= max_steps_per_generation]. *)
Theorem zero_probability_gives_up_at_threshold :
  forall (T : Z) (config : Config) (agent_type : string) (gen_num : Z)
    (st : SimState) (a : SimpleAgent),
    1 <= T ->
    T <= max_steps_per_generation config ->
    agent_of (world st) = Simple a ->
    give_up_threshold a = T ->
    reward_probability (env_of (world st)) = zero ->
    (forall i, unit_sample (rng_of (world st) i)) ->
    gives_up_after T config agent_type gen_num st.
Proof.
  intros T config agent_type gen_num st a HT Hcap Hagent Hthr Hp Hs.
  unfold gives_up_after.
  pose proof (run_generation_spec config agent_type gen_num st) as Hgen.
  pose proof (generation_start_attrs agent_type gen_num st)
    as (Ht0 & Hc0 & _ & _ & Hl0).
  cbn zeta in Hgen, Ht0, Hc0, Hl0.
  rewrite Hagent in Ht0. cbn [attrs] in Ht0. rewrite Hthr in Ht0.
  set (w0 := generation_start agent_type gen_num st) in *.
  destruct (step_loop_all_punished (Z.to_nat (T - 1))
              (max_steps_per_generation config) 0 w0) as [w' Hloop].
  - exact Hp.
  - exact Hs.
  - lia.
  - lia.
  - pose proof (step_loop_advanced (max_steps_per_generation config) 0 w0) as Hadv.
    rewrite Hloop in Hgen, Hadv. destruct Hadv as [_ Hadv].
    destruct (run_generation config agent_type gen_num st) as [st' raised].
    destruct Hgen as (Hdata & _ & _ & _ & Hlearn).
    assert (Hclass : agent_of w' = set_attrs (attrs (agent_of w')) (agent_of w0))
      by exact (adv_class _ _ _ Hadv).
    assert (Hsimple : exists b, agent_of w' = Simple b).
    { rewrite Hclass. unfold w0, generation_start, rename. cbn [agent_of].
      rewrite Hagent. cbn. eauto. }
    destruct Hsimple as [b Hb]. rewrite Hb in Hlearn. cbn in Hlearn.
    destruct Hlearn as [-> _].
    eexists st', _. split; [reflexivity|]. split; [exact Hdata|].
    cbn. split; [|reflexivity].
    rewrite (adv_steps_lived _ _ _ Hadv), Hl0. lia.
Qed.

(** "On the cap after [n] steps": what a generation appends to the
    records when it never gives up. *)
Definition runs_to_cap_after (n : Z) (config : Config) (agent_type : string)
  (gen_num : Z) (st : SimState) : Prop :=
  exists gd,
    all_generation_data (fst (run_generation config agent_type gen_num st))
    = all_generation_data st ++ [gd]
    /\ lifespan (summary gd) = n
    /\ end_reason gd = "Max Steps Reached"
    /\ end_reason gd <> "Agent Threshold Reached"
    /\ final_consecutive_punishments (summary gd) = 0.

(** C5.  With reward probability [1.0] and a step cap of at least 1
    (the configuration's positive safety cap), a generation of an
    agent the program can build (either class) never ends by the
    agent giving up: it ends on the cap, with "Max Steps Reached" and
    an empty streak, after exactly [max_steps_per_generation] steps. *)
Theorem sure_reward_runs_to_the_cap :
  forall (config : Config) (agent_type : string) (gen_num : Z) (st : SimState),
    1 <= max_steps_per_generation config ->
    reward_probability (env_of (world st)) = one ->
    (forall i, unit_sample (rng_of (world st) i)) ->
    agent_reachable (agent_of (world st)) ->
    runs_to_cap_after (max_steps_per_generation config)
      config agent_type gen_num st.
Proof.
  intros config agent_type gen_num st Hcap Hp Hs Hreach.
  unfold runs_to_cap_after.
  pose proof (reachable_threshold_positive _ Hreach) as Hthr.
  pose proof (run_generation_spec config agent_type gen_num st) as Hgen.
  pose proof (generation_start_attrs agent_type gen_num st)
    as (Ht0 & _ & _ & _ & Hl0).
  cbn zeta in Hgen, Ht0, Hl0.
  set (w0 := generation_start agent_type gen_num st) in *.
  destruct (step_loop_all_rewarded
              (Z.to_nat (max_steps_per_generation config))
              (max_steps_per_generation config) 0 w0) as (w' & Hloop & Hc').
  - exact Hp.
  - exact Hs.
  - lia.
  - lia.
  - pose proof (step_loop_advanced (max_steps_per_generation config) 0 w0) as Hadv.
    rewrite Hloop in Hgen, Hadv. destruct Hadv as [_ Hadv].
    destruct (run_generation config agent_type gen_num st) as [st' raised].
    destruct Hgen as (Hdata & _).
    eexists. split; [exact Hdata|]. cbn.
    repeat split.
    + rewrite (adv_steps_lived _ _ _ Hadv), Hl0. lia.
    + discriminate.
    + exact Hc'.
Qed.

Definition start_state (w : World) : SimState := mkSimState w [] 0.

Definition punishing_config (threshold max_steps : Z) : Config :=
  mkConfig 1 zero (Some "SimpleAgent") threshold None max_steps.

Lemma all_zero_unit_samples : forall i, unit_sample (all_zero i).
Proof. intros i. split; reflexivity. Qed.

Lemma zero_probability_gives_up_at_threshold_witness :
  gives_up_after 3 (punishing_config 3 10) "SimpleAgent" 1
    (start_state (punishing_world 3)).
Proof.
  apply (zero_probability_gives_up_at_threshold 3 (punishing_config 3 10)
           "SimpleAgent" 1 (start_state (punishing_world 3))
           (mkSimpleAgent "Simple_Gen0" 3 0 0 0 0 [])).
  - lia.
  - cbn. lia.
  - reflexivity.
  - reflexivity.
  - reflexivity.
  - exact all_zero_unit_samples.
Defined.

(** C3 as stated fails when the cap is below the threshold: threshold
    5, cap 3, probability [0.0].  The generation ends after 3 steps on
    "Max Steps Reached". *)
Lemma cap_below_threshold_counterexample :
  let config := punishing_config 5 3 in
  let st := start_state (punishing_world 5) in
  (1 <= 5
   /\ agent_of (world st) = fresh_simple 5
   /\ reward_probability (env_of (world st)) = zero
   /\ (forall i, unit_sample (rng_of (world st) i)))
  /\ (exists st' gd,
         run_generation config "SimpleAgent" 1 st = (st', None)
         /\ all_generation_data st' = [gd]
         /\ lifespan (summary gd) = 3
         /\ end_reason gd = "Max Steps Reached")
  /\ ~ gives_up_after 5 config "SimpleAgent" 1 st.
Proof.
  cbv zeta. split; [|split].
  - repeat split; try reflexivity. lia.
  - eexists _, _. split; [vm_compute; reflexivity|]. cbn.
    split; [reflexivity|]. split; reflexivity.
  - intros (st' & gd & Hrun & Hdata & Hlife & _).
    assert (E : map (fun g => lifespan (summary g))
                  (all_generation_data
                     (fst (run_generation (punishing_config 5 3) "SimpleAgent" 1
                             (start_state (punishing_world 5))))) = [3])
      by (vm_compute; reflexivity).
    rewrite Hrun in E. cbn [fst] in E. rewrite Hdata in E. cbn in E.
    injection E as E. lia.
Qed.

Definition rewarding_world (threshold : Z) : World :=
  mkWorld (mkHarshEnvironment one 0 0 0) (fresh_simple threshold) all_zero.

Lemma sure_reward_runs_to_the_cap_witness :
  runs_to_cap_after 4 (mkConfig 1 one (Some "SimpleAgent") 3 None 4) "SimpleAgent" 1
    (start_state (rewarding_world 3)).
Proof.
  apply (sure_reward_runs_to_the_cap (mkConfig 1 one (Some "SimpleAgent") 3 None 4)
           "SimpleAgent" 1 (start_state (rewarding_world 3))).
  - cbn. lia.
  - reflexivity.
  - exact all_zero_unit_samples.
  - apply (reach_SimpleAgent 3 "Simple_Gen0"). reflexivity.
Defined.

(* ===================================================================== *)
(** ** Totals over a whole run *)
(* ===================================================================== *)

Definition sum_lifespans (gens : list GenerationData) : Z :=
  sum (map (fun g => lifespan (summary g)) gens).

Definition sum_outcomes (gens : list GenerationData) : Z :=
  sum (map (fun g => total_rewards (summary g) + total_punishments (summary g))
         gens).

Lemma sum_snoc (l : list Z) (x : Z) : sum (l ++ [x]) = sum l + x.
Proof. unfold sum. now rewrite fold_left_app. Qed.

(** The records account for every step the environment has taken. *)
Definition sim_balanced (st : SimState) : Prop :=
  steps_taken (env_of (world st)) = sum_lifespans (all_generation_data st)
  /\ sum_outcomes (all_generation_data st) = sum_lifespans (all_generation_data st).

Lemma run_generation_balanced (config : Config) (agent_type : string)
  (gen_num : Z) (st : SimState) :
  sim_balanced st ->
  sim_balanced (fst (run_generation config agent_type gen_num st)).
Proof.
  intros [Hsteps Hsum].
  pose proof (run_generation_spec config agent_type gen_num st) as Hgen.
  pose proof (generation_start_attrs agent_type gen_num st)
    as (_ & _ & Hr0 & Hp0 & Hl0).
  cbn zeta in Hgen, Hr0, Hp0, Hl0.
  set (w0 := generation_start agent_type gen_num st) in *.
  pose proof (step_loop_advanced (max_steps_per_generation config) 0 w0) as Hadv.
  destruct (step_loop (max_steps_per_generation config) 0 w0)
    as [[w' count'] reason].
  destruct Hadv as [_ Hadv].
  destruct (run_generation config agent_type gen_num st) as [st' raised].
  destruct Hgen as (Hdata & Henv & _).
  pose proof (adv_steps_taken _ _ _ Hadv) as Hst.
  pose proof (adv_steps_lived _ _ _ Hadv) as Hli.
  pose proof (adv_received _ _ _ Hadv) as Hre.
  unfold sim_balanced, sum_lifespans, sum_outcomes. cbn [fst].
  rewrite Hdata, Henv, !map_app. cbn [map]. rewrite !sum_snoc. cbn.
  fold (sum_lifespans (all_generation_data st)).
  fold (sum_outcomes (all_generation_data st)).
  change (env_of w0) with (env_of (world st)) in Hst.
  split; lia.
Qed.

Lemma run_generations_balanced (config : Config) (agent_type : string)
  (gen_nums : list Z) :
  forall st, sim_balanced st ->
             sim_balanced (run_generations config agent_type gen_nums st).
Proof.
  induction gen_nums as [|gen_num rest IH]; intros st Hst; cbn.
  - exact Hst.
  - pose proof (run_generation_balanced config agent_type gen_num st Hst) as H.
    destruct (run_generation config agent_type gen_num st) as [st' [e|]];
      cbn [fst] in H.
    + exact H.
    + now apply IH.
Qed.

Definition probability_in_range (p : float) : bool := leb zero p && leb p one.

Lemma initialise_inr (config : Config) (e : HarshEnvironment) (a : Agent) :
  initialise config = inr (e, a) ->
  e = mkHarshEnvironment (cfg_reward_probability config) 0 0 0
  /\ probability_in_range (cfg_reward_probability config) = true
  /\ 0 < agent_initial_threshold config
  /\ give_up_threshold (attrs a) = agent_initial_threshold config.
Proof.
  unfold initialise, HarshEnvironment_.__init__, probability_in_range.
  destruct (leb zero _ && leb _ one); cbn; [|discriminate].
  destruct (String.eqb _ _); intros H;
    apply bind_inr in H as (x & Hx & H); injection H as <- <-.
  - apply learning_init_inr in Hx as [Hpos ->]. cbn. tauto.
  - apply simple_init_inr in Hx as [Hpos ->]. cbn. tauto.
Qed.

(** What the first log line of [run_simulation] needs of a
    configuration: the ["agent_type"] entry, and three integers of at
    most 4300 digits. *)
Definition printable (config : Config) : Prop :=
  agent_type config <> None
  /\ Z.abs (num_generations config) < str_digits_limit
  /\ Z.abs (agent_initial_threshold config) < str_digits_limit
  /\ Z.abs (max_steps_per_generation config) < str_digits_limit.

Lemma log_parameters_inr (config : Config) :
  printable config -> log_parameters config = inr tt.
Proof.
  intros (Htype & Hgens & Hthr & Hcap). unfold log_parameters.
  rewrite !format_int_inr by assumption.
  destruct (agent_type config); [reflexivity | contradiction].
Qed.

Lemma log_parameters_returned (config : Config) (u : unit) :
  log_parameters config = inr u -> printable config.
Proof.
  unfold log_parameters. intros H.
  apply bind_inr in H as (t1 & H1 & H).
  apply bind_inr in H as (t2 & H2 & H).
  apply bind_inr in H as (t3 & H3 & H).
  apply bind_inr in H as (t4 & H4 & _).
  apply format_int_returned in H1, H3, H4.
  repeat split; try assumption.
  intros Hnone. rewrite Hnone in H2. discriminate H2.
Qed.

(** Otherwise the line raises, and [run_simulation] with it. *)
Lemma log_parameters_inl (config : Config) :
  ~ printable config ->
  exists e,
    log_parameters config = inl e
    /\ ((exists msg, e = ValueError msg) \/ e = KeyError "agent_type").
Proof.
  intros Hnot. destruct (log_parameters config) as [e | []] eqn:Hlog.
  - exists e. split; [reflexivity|]. revert Hlog. unfold log_parameters, format_int.
    destruct (_ >=? _); cbn [bind raise ret];
      [intros H; injection H as <-; eauto|].
    destruct (agent_type config); cbn [getitem bind raise ret];
      [|intros H; injection H as <-; eauto].
    destruct (_ >=? _); cbn [bind raise ret];
      [intros H; injection H as <-; eauto|].
    destruct (_ >=? _); cbn [bind raise ret];
      [intros H; injection H as <-; eauto | discriminate].
  - exfalso. apply Hnot. exact (log_parameters_returned config tt Hlog).
Qed.

(** A run that returned went past the first log line, and then on from
    what construction gave. *)
Lemma run_simulation_returned (config : Config) (rng : Rng)
  (r : list GenerationData * option EnvStats) :
  run_simulation config rng = inr r ->
  printable config
  /\ match initialise config with
     | inl _ => r = ([], None)
     | inr (environment, agent) =>
         let st :=
           run_generations config (get (agent_type config) "SimpleAgent")
             (range_from_1 (num_generations config + 1))
             (mkSimState (mkWorld environment agent rng) [] 0) in
         exists s,
           HarshEnvironment_.get_stats (env_of (world st)) = inr s
           /\ Z.abs (total_steps s) < str_digits_limit
           /\ summary_averages st = inr tt
           /\ r = (all_generation_data st, Some s)
     end.
Proof.
  unfold run_simulation. intros H.
  apply bind_inr in H as (u & Hlog & H).
  split; [exact (log_parameters_returned config u Hlog)|].
  destruct (initialise config) as [e | [environment agent]].
  - now injection H as <-.
  - cbn zeta in *.
    apply bind_inr in H as (s1 & Hs1 & H).
    apply bind_inr in H as (text & Htext & H).
    apply bind_inr in H as ([] & Havg & H).
    rewrite Hs1 in H. cbn [bind] in H. injection H as <-.
    exists s1. split; [exact Hs1|].
    split; [exact (format_int_returned _ _ Htext)|].
    split; [exact Havg | reflexivity].
Qed.

(** A configuration that is not printable stops [run_simulation] at
    its first log line, before the [try] that guards construction: the
    exception leaves the function. *)
Lemma run_simulation_unprintable (config : Config) (rng : Rng) :
  ~ printable config ->
  exists e,
    run_simulation config rng = inl e
    /\ ((exists msg, e = ValueError msg) \/ e = KeyError "agent_type").
Proof.
  intros Hnot. destruct (log_parameters_inl config Hnot) as (e & Hlog & He).
  exists e. split; [|exact He]. unfold run_simulation. now rewrite Hlog.
Qed.

(** Conversely, a printable configuration runs as follows. *)
Lemma run_simulation_printable (config : Config) (rng : Rng) :
  printable config ->
  run_simulation config rng
  = match initialise config with
    | inl _ => ret ([], None)
    | inr (environment, agent) =>
        let st :=
          run_generations config (get (agent_type config) "SimpleAgent")
            (range_from_1 (num_generations config + 1))
            (mkSimState (mkWorld environment agent rng) [] 0) in
        env_stats <- HarshEnvironment_.get_stats (env_of (world st)) ;;
        total_steps_text <- format_int (total_steps env_stats) ;;
        averages <- summary_averages st ;;
        final_stats <- HarshEnvironment_.get_stats (env_of (world st)) ;;
        ret (all_generation_data st, Some final_stats)
    end.
Proof.
  intros Hp. unfold run_simulation. rewrite (log_parameters_inr config Hp).
  reflexivity.
Qed.

Lemma get_stats_inr (e : HarshEnvironment) (s : EnvStats) :
  HarshEnvironment_.get_stats e = inr s ->
  total_steps s = steps_taken e
  /\ stats_total_rewards s = total_rewards_given e
  /\ stats_total_punishments s = total_punishments_given e.
Proof.
  unfold HarshEnvironment_.get_stats. intros H.
  apply bind_inr in H as (r & _ & H). injection H as <-. cbn. tauto.
Qed.

(** The totals of a run that returned its statistics. *)
Lemma run_totals_of_returned :
  forall (config : Config) (rng : Rng) (gens : list GenerationData)
    (stats : EnvStats),
    run_simulation config rng = inr (gens, Some stats) ->
    sum_outcomes gens = sum_lifespans gens
    /\ total_steps stats = sum_lifespans gens.
Proof.
  intros config rng gens stats H.
  apply run_simulation_returned in H as [_ H].
  destruct (initialise config) as [e | [env a]] eqn:Hinit; [discriminate|].
  apply initialise_inr in Hinit as (-> & _).
  cbn zeta in H. destruct H as (s2 & Hs2 & _ & _ & H).
  injection H as -> <-.
  apply get_stats_inr in Hs2 as (-> & _).
  match goal with |- context [run_generations ?c ?t ?l ?st] =>
    pose proof (run_generations_balanced c t l st) as Hbal end.
  destruct Hbal as [Hsteps Hsum].
  - split; reflexivity.
  - split; [exact Hsum | exact Hsteps].
Qed.


(* ===================================================================== *)
(** ** Runs of a printable configuration return *)
(* ===================================================================== *)

(** The rewards given never exceed the steps taken. *)
Definition env_sane (e : HarshEnvironment) : Prop :=
  0 <= total_rewards_given e <= steps_taken e.

Lemma step_sane (e : HarshEnvironment) (r : Rng) :
  env_sane e -> env_sane (snd (fst (HarshEnvironment_.step e r))).
Proof.
  unfold env_sane.
  pose proof (env_step_spec e r) as (_ & Hs & Hr & _). cbn zeta in Hs, Hr.
  rewrite Hs, Hr. destruct (ltb _ _); lia.
Qed.

Lemma step_loop_sane (max_steps count : Z) (w : World) :
  env_sane (env_of w) ->
  env_sane (env_of (fst (fst (step_loop max_steps count w)))).
Proof.
  revert count w.
  apply (step_loop_induction max_steps
           (fun count w r => env_sane (env_of w) ->
                             env_sane (env_of (fst (fst r))))).
  intros count w IH Hsane.
  rewrite step_loop_body.
  pose proof (interact_spec w) as Hi. cbn zeta in Hi.
  destruct (interact w) as [d w1]. injection Hi as Hd Hw.
  assert (Hsane1 : env_sane (env_of w1))
    by (rewrite Hw; cbn [env_of]; now apply step_sane).
  destruct d; cbn [negb].
  - destruct (count + 1 >=? max_steps) eqn:Hge; [exact Hsane1|].
    apply IH; [reflexivity | | exact Hsane1].
    rewrite Z.geb_leb in Hge. apply Z.leb_gt in Hge. lia.
  - exact Hsane1.
Qed.

Lemma run_generation_sane (config : Config) (agent_type : string) (gen_num : Z)
  (st : SimState) :
  env_sane (env_of (world st)) ->
  env_sane (env_of (world (fst (run_generation config agent_type gen_num st)))).
Proof.
  intros Hsane.
  pose proof (run_generation_spec config agent_type gen_num st) as Hgen.
  cbn zeta in Hgen.
  pose proof (step_loop_sane (max_steps_per_generation config) 0
                (generation_start agent_type gen_num st) Hsane) as Hloop.
  destruct (step_loop _ _ _) as [[w' count'] reason].
  destruct (run_generation config agent_type gen_num st) as [st' raised].
  destruct Hgen as (_ & Henv & _). cbn [fst] in *. rewrite Henv. exact Hloop.
Qed.

Lemma run_generations_sane (config : Config) (agent_type : string)
  (gen_nums : list Z) :
  forall st, env_sane (env_of (world st)) ->
             env_sane (env_of (world (run_generations config agent_type gen_nums st))).
Proof.
  induction gen_nums as [|gen_num rest IH]; intros st Hst; cbn.
  - exact Hst.
  - pose proof (run_generation_sane config agent_type gen_num st Hst) as H.
    destruct (run_generation config agent_type gen_num st) as [st' [e|]];
      cbn [fst] in H.
    + exact H.
    + now apply IH.
Qed.

(** [get_stats] divides a count of rewards by a count of steps that is
    at least as large: the quotient is a float. *)
Lemma get_stats_returns (e : HarshEnvironment) :
  env_sane e -> exists s, HarshEnvironment_.get_stats e = inr s.
Proof.
  intros [Hlo Hhi]. unfold HarshEnvironment_.get_stats.
  destruct (Z.gtb_spec (steps_taken e) 0) as [Hpos | Hzero].
  - destruct (int_true_div_ok (total_rewards_given e) (steps_taken e) 1)
      as (x & -> & _); try lia.
    + pose proof (Zdigits2_mono (total_rewards_given e) (steps_taken e)
                    ltac:(lia)). lia.
    + cbn. eauto.
  - cbn. eauto.
Qed.

(** A generation takes at least one step and at most
    [max(1, max_steps)] steps. *)
Lemma step_loop_count (max_steps count : Z) (w : World) :
  let '(_, count', _) := step_loop max_steps count w in
  count < count' <= Z.max (count + 1) max_steps.
Proof.
  revert count w.
  apply (step_loop_induction max_steps
           (fun count w r => let '(_, count', _) := r in
              count < count' <= Z.max (count + 1) max_steps)).
  intros count w IH. rewrite step_loop_body.
  destruct (interact w) as [[|] w1]; cbn [negb]; [|lia].
  destruct (count + 1 >=? max_steps) eqn:Hge; [lia|].
  rewrite Z.geb_leb in Hge. apply Z.leb_gt in Hge.
  specialize (IH w1 eq_refl ltac:(lia)).
  destruct (step_loop max_steps (count + 1) w1) as [[w' count'] reason]. lia.
Qed.

(** After [k] generations at most: as many records as generations
    completed, and lifespans that add up to at most [k] caps. *)
Definition sized (config : Config) (k : Z) (st : SimState) : Prop :=
  len (all_generation_data st) = generations_completed st
  /\ 0 <= generations_completed st <= k
  /\ 0 <= sum_lifespans (all_generation_data st)
       <= k * Z.max 1 (max_steps_per_generation config).

Lemma run_generation_sized (config : Config) (agent_type : string) (gen_num : Z)
  (k : Z) (st : SimState) :
  sized config k st ->
  sized config (k + 1) (fst (run_generation config agent_type gen_num st)).
Proof.
  intros (Hlen & Hgc & Hsum).
  pose proof (run_generation_spec config agent_type gen_num st) as Hgen.
  pose proof (generation_start_attrs agent_type gen_num st)
    as (_ & _ & _ & _ & Hl0).
  cbn zeta in Hgen, Hl0.
  set (w0 := generation_start agent_type gen_num st) in *.
  pose proof (step_loop_advanced (max_steps_per_generation config) 0 w0) as Hadv.
  pose proof (step_loop_count (max_steps_per_generation config) 0 w0) as Hcount.
  destruct (step_loop (max_steps_per_generation config) 0 w0)
    as [[w' count'] reason].
  destruct Hadv as [_ Hadv].
  destruct (run_generation config agent_type gen_num st) as [st' raised].
  destruct Hgen as (Hdata & _ & _ & Hgc' & _).
  pose proof (adv_steps_lived _ _ _ Hadv) as Hli.
  unfold sized, sum_lifespans, len in *. cbn [fst].
  rewrite Hdata, Hgc', map_app, length_app. cbn [map List.length].
  rewrite sum_snoc. cbn [lifespan summary get_generation_summary].
  repeat split; try lia; nia.
Qed.

Lemma run_generations_sized (config : Config) (agent_type : string)
  (gen_nums : list Z) :
  forall k st,
    sized config k st ->
    sized config (k + len gen_nums)
      (run_generations config agent_type gen_nums st).
Proof.
  assert (Hmono : forall j k st, j <= k -> sized config j st -> sized config k st).
  { intros j k st Hjk (Hlen & Hgc & Hsum). unfold sized. repeat split; try lia; nia. }
  induction gen_nums as [|gen_num rest IH]; intros k st Hst; cbn [run_generations].
  - apply (Hmono k); [unfold len; cbn; lia | exact Hst].
  - pose proof (run_generation_sized config agent_type gen_num k st Hst) as H.
    destruct (run_generation config agent_type gen_num st) as [st' [e|]];
      cbn [fst] in H.
    + apply (Hmono (k + 1)); [|exact H]. unfold len. cbn [List.length]. lia.
    + replace (k + len (gen_num :: rest)) with (k + 1 + len rest)
        by (unfold len; cbn [List.length]; lia).
      now apply IH.
Qed.

Lemma len_range_from_1 (n : Z) : len (range_from_1 (n + 1)) = Z.max 0 n.
Proof. unfold len, range_from_1. rewrite length_map, length_seq. lia. Qed.

Lemma summary_averages_returns (config : Config) (k : Z) (st : SimState) :
  sized config k st ->
  k < 2 ^ 500 -> max_steps_per_generation config < 2 ^ 500 ->
  summary_averages st = inr tt.
Proof.
  intros (Hlen & Hgc & Hsum) Hk Hcap. unfold summary_averages.
  destruct (Z.gtb_spec (generations_completed st) 0) as [Hpos | Hzero];
    [|reflexivity].
  assert (H500 : 0 < 2 ^ 500) by (apply Z.pow_pos_nonneg; lia).
  destruct (of_int_ok (generations_completed st) 500) as (x & -> & _); try lia.
  { apply Zdigits2_lt_pow2; lia. }
  cbn [bind]. fold (sum_lifespans (all_generation_data st)).
  replace (len (map (fun g => lifespan (summary g)) (all_generation_data st)))
    with (generations_completed st)
    by (unfold len in *; rewrite length_map; lia).
  destruct (int_true_div_ok (sum_lifespans (all_generation_data st))
              (generations_completed st) 1000) as (y & -> & _); try lia.
  - assert (Hprod : k * Z.max 1 (max_steps_per_generation config) < 2 ^ 1000).
    { change 1000 with (500 + 500). rewrite Z.pow_add_r by lia. nia. }
    pose proof (Zdigits2_lt_pow2 (sum_lifespans (all_generation_data st)) 1000
                  ltac:(lia) ltac:(lia)).
    pose proof (Zdigits2_pos (generations_completed st) Hpos). lia.
  - reflexivity.
Qed.

(** [run_simulation] returns on every sequence of samples and every
    printable configuration whose two counts are below [2^500]: with
    the empty results when construction fails, with the records and
    the statistics otherwise. *)
Lemma run_simulation_returns (config : Config) (rng : Rng) :
  printable config ->
  num_generations config < 2 ^ 500 ->
  max_steps_per_generation config < 2 ^ 500 ->
  exists gens stats, run_simulation config rng = inr (gens, stats).
Proof.
  intros Hprint Hgens Hcap. rewrite (run_simulation_printable config rng Hprint).
  destruct (initialise config) as [e | [env a]] eqn:Hinit.
  - eexists _, _. reflexivity.
  - apply initialise_inr in Hinit as (-> & _).
    match goal with |- context [run_generations ?c ?t ?l ?st] =>
      pose proof (run_generations_sane c t l st) as Hsane;
      pose proof (run_generations_sized c t l 0 st) as Hsized;
      pose proof (run_generations_balanced c t l st) as Hbal;
      set (final := run_generations c t l st) in *
    end.
    assert (H500 : 0 < 2 ^ 500) by (apply Z.pow_pos_nonneg; lia).
    assert (Hsz : sized config
                    (0 + len (range_from_1 (num_generations config + 1))) final)
      by (apply Hsized; unfold sized, sum_lifespans, sum, len; cbn; lia).
    pose proof Hsz as (_ & _ & Hsum).
    destruct Hbal as [Hsteps _]; [split; reflexivity|].
    rewrite len_range_from_1 in Hsum.
    destruct (get_stats_returns (env_of (world final))) as [s Hs].
    + apply Hsane. unfold env_sane. cbn. lia.
    + cbn zeta. rewrite Hs. cbn [bind].
      rewrite format_int_inr.
      * cbn [bind].
        rewrite (summary_averages_returns config
                   (0 + len (range_from_1 (num_generations config + 1))) final).
        -- cbn [bind]. eexists _, _. reflexivity.
        -- exact Hsz.
        -- rewrite len_range_from_1. lia.
        -- exact Hcap.
      * apply get_stats_inr in Hs as (-> & _). rewrite Hsteps.
        pose proof pow2_1100_below_limit as Hlimit.
        assert (Hprod : (0 + Z.max 0 (num_generations config))
                        * Z.max 1 (max_steps_per_generation config) < 2 ^ 1000).
        { change 1000 with (500 + 500). rewrite Z.pow_add_r by lia. nia. }
        assert (2 ^ 1000 < 2 ^ 1100) by (apply Z.pow_lt_mono_r; lia).
        lia.
Qed.

(** C7.  For every run that returns the environment's statistics, the
    rewards and punishments of all generation records add up to the sum
    of their lifespans, and so does the environment's ["total_steps"].
    Runs do return: for every configuration that has its
    ["agent_type"] entry, an initial threshold of at most 4300 digits
    and a number of generations and a step cap below [2^500] in
    magnitude, on every sequence of samples; and the run returns no
    statistics only when construction failed, with no record. *)
Theorem run_totals_agree :
  forall (config : Config) (rng : Rng),
    (forall gens s,
        run_simulation config rng = inr (gens, Some s) ->
        sum_outcomes gens = sum_lifespans gens
        /\ total_steps s = sum_lifespans gens)
    /\ (forall gens,
           run_simulation config rng = inr (gens, None) ->
           gens = [] /\ exists e, initialise config = inl e)
    /\ (agent_type config <> None ->
        Z.abs (agent_initial_threshold config) < str_digits_limit ->
        Z.abs (num_generations config) < 2 ^ 500 ->
        Z.abs (max_steps_per_generation config) < 2 ^ 500 ->
        exists gens stats, run_simulation config rng = inr (gens, stats)).
Proof.
  intros config rng. split; [|split].
  - intros gens s Hrun. exact (run_totals_of_returned config rng gens s Hrun).
  - intros gens Hrun. apply run_simulation_returned in Hrun as [_ Hrun].
    destruct (initialise config) as [e | [env a]].
    + injection Hrun as ->. split; [reflexivity | eauto].
    + cbn zeta in Hrun. destruct Hrun as (s & _ & _ & _ & Hrun). discriminate Hrun.
  - intros Htype Hthr Hgens Hcap.
    pose proof pow2_1100_below_limit as Hlimit.
    assert (2 ^ 500 < 2 ^ 1100) by (apply Z.pow_lt_mono_r; lia).
    apply run_simulation_returns; [|lia|lia].
    unfold printable. repeat split; (assumption || lia).
Qed.

Lemma run_totals_agree_witness :
  let config := mkConfig 3 zero (Some "LearningAgent") 3 None 10 in
  (agent_type config <> None
   /\ Z.abs (agent_initial_threshold config) < str_digits_limit
   /\ Z.abs (num_generations config) < 2 ^ 500
   /\ Z.abs (max_steps_per_generation config) < 2 ^ 500)
  /\ exists gens s,
      run_simulation config all_zero = inr (gens, Some s)
      /\ List.length gens = 3%nat
      /\ sum_lifespans gens = 9
      /\ sum_outcomes gens = 9
      /\ total_steps s = 9.
Proof.
  cbv zeta.
  assert (Hsmall : Some "LearningAgent" <> None
                   /\ Z.abs 3 < str_digits_limit
                   /\ Z.abs 3 < 2 ^ 500 /\ Z.abs 10 < 2 ^ 500).
  { split; [discriminate|]. repeat split; vm_compute; reflexivity. }
  split; [exact Hsmall|].
  destruct Hsmall as (Htype & Hthr & Hgens & Hcap).
  destruct (proj2 (proj2 (run_totals_agree
                            (mkConfig 3 zero (Some "LearningAgent") 3 None 10)
                            all_zero)) Htype Hthr Hgens Hcap)
    as (gens & stats & Hrun).
  assert (H : exists gens0 s0,
             run_simulation (mkConfig 3 zero (Some "LearningAgent") 3 None 10)
               all_zero = inr (gens0, Some s0)
             /\ List.length gens0 = 3%nat /\ sum_lifespans gens0 = 9).
  { eexists _, _. split; [vm_compute; reflexivity|].
    split; vm_compute; reflexivity. }
  destruct H as (gens0 & s0 & Hrun0 & Hlen & Hsum).
  exists gens0, s0. split; [exact Hrun0|]. split; [exact Hlen|].
  destruct (proj1 (run_totals_agree
                     (mkConfig 3 zero (Some "LearningAgent") 3 None 10) all_zero)
              gens0 s0 Hrun0) as [Ho Ht].
  split; [exact Hsum|]. split; lia.
Defined.

(* ===================================================================== *)
(** ** Configuration checks *)
(* ===================================================================== *)

(** What the initial threshold decides of the agent's construction, for
    a threshold the learning agent's log line can format. *)
Lemma initialise_agent (config : Config) :
  Z.abs (agent_initial_threshold config) < str_digits_limit ->
  probability_in_range (cfg_reward_probability config) = true ->
  if agent_initial_threshold config <=? 0 then
    initialise config = inl (ValueError "give_up_threshold must be positive.")
  else exists agent,
      initialise config
      = inr (mkHarshEnvironment (cfg_reward_probability config) 0 0 0, agent).
Proof.
  intros Hsize Hrange.
  unfold initialise, HarshEnvironment_.__init__, LearningAgent_.__init__,
    SimpleAgent_.__init__.
  unfold probability_in_range in Hrange. rewrite Hrange. cbn [negb bind ret].
  destruct (Z.leb_spec (agent_initial_threshold config) 0) as [Hle | Hlt];
    destruct (String.eqb _ _); cbn [bind ret raise base give_up_threshold];
    try reflexivity.
  - rewrite format_int_inr by exact Hsize. cbn [bind ret]. eauto.
  - eauto.
Qed.

Lemma initialise_inl_iff (config : Config) :
  Z.abs (agent_initial_threshold config) < str_digits_limit ->
  (exists e, initialise config = inl e)
  <-> probability_in_range (cfg_reward_probability config) = false
      \/ agent_initial_threshold config <= 0.
Proof.
  intros Hsize.
  destruct (probability_in_range (cfg_reward_probability config)) eqn:Hrange.
  - pose proof (initialise_agent config Hsize Hrange) as H.
    destruct (Z.leb_spec (agent_initial_threshold config) 0) as [Hle | Hlt].
    + split; [intros _; now right | intros _; eauto].
    + destruct H as [agent H]. split.
      * intros [e He]. rewrite H in He. discriminate He.
      * intros [Hf | Hle]; [discriminate Hf | lia].
  - split; [intros _; now left | intros _].
    unfold initialise, HarshEnvironment_.__init__.
    unfold probability_in_range in Hrange. rewrite Hrange. cbn. eauto.
Qed.

(** Whatever construction raises is a [ValueError]. *)
Lemma initialise_inl_ValueError (config : Config) (e : exn) :
  initialise config = inl e -> exists msg, e = ValueError msg.
Proof.
  unfold initialise, HarshEnvironment_.__init__, LearningAgent_.__init__,
    SimpleAgent_.__init__, format_int.
  destruct (negb _); cbn [bind ret raise].
  - intros H. injection H as <-. eauto.
  - destruct (String.eqb _ _), (agent_initial_threshold config <=? 0);
      cbn [bind ret raise base give_up_threshold];
      try destruct (_ >=? _); cbn [bind ret raise];
      intros H; try discriminate H; injection H as <-; eauto.
Qed.

(** C8 as stated: every one of the four faults makes construction
    fail. *)
Definition every_fault_rejected : Prop :=
  forall config : Config,
    agent_initial_threshold config <= 0
    \/ probability_in_range (cfg_reward_probability config) = false
    \/ num_generations config <= 0
    \/ max_steps_per_generation config <= 0 ->
    exists e, initialise config = inl e.

(** Zero generations, and a cap of zero steps, raise nothing: the first
    run has no generation and returns the statistics of an untouched
    environment, the second runs its two generations, one step each. *)
Lemma unchecked_counts_counterexample :
  let no_generations := mkConfig 0 one (Some "SimpleAgent") 3 None 10 in
  let no_steps := mkConfig 2 one (Some "SimpleAgent") 3 None 0 in
  (num_generations no_generations <= 0
   /\ max_steps_per_generation no_steps <= 0)
  /\ initialise no_generations
     = inr (mkHarshEnvironment one 0 0 0, fresh_simple 3)
  /\ initialise no_steps
     = inr (mkHarshEnvironment one 0 0 0, fresh_simple 3)
  /\ run_simulation no_generations all_zero
     = inr ([], Some (mkEnvStats 0 0 0 one (Int 0)))
  /\ (exists gens stats,
         run_simulation no_steps all_zero = inr (gens, Some stats)
         /\ map (fun g => (lifespan (summary g), end_reason g)) gens
            = [(1, "Max Steps Reached"); (1, "Max Steps Reached")])
  /\ ~ every_fault_rejected.
Proof.
  cbv zeta.
  split; [split; cbn [num_generations max_steps_per_generation]; lia|].
  split; [vm_compute; reflexivity|].
  split; [vm_compute; reflexivity|].
  split; [vm_compute; reflexivity|].
  split.
  - eexists _, _. split; vm_compute; reflexivity.
  - intros H.
    destruct (H (mkConfig 0 one (Some "SimpleAgent") 3 None 10)) as [e He].
    + right; right; left. cbn [num_generations]. lia.
    + vm_compute in He. discriminate He.
Qed.

(** C8, as amended.  On a configuration that the first log line of
    [run_simulation] can print (it has its ["agent_type"] entry, and
    the number of generations, the initial threshold and the step cap
    have at most 4300 digits), construction raises exactly when the
    reward probability is not within [0.0, 1.0] or the initial
    threshold is not positive; what it raises is a [ValueError];
    [run_simulation] then runs no generation and returns the empty
    results.  The number of generations and the step cap are not
    checked. *)
Theorem invalid_configuration_raised_at_construction :
  forall config : Config,
    printable config ->
    ((exists e, initialise config = inl e)
     <-> probability_in_range (cfg_reward_probability config) = false
         \/ agent_initial_threshold config <= 0)
    /\ (forall e, initialise config = inl e -> exists msg, e = ValueError msg)
    /\ (forall e rng, initialise config = inl e ->
                      run_simulation config rng = inr ([], None)).
Proof.
  intros config Hprint. split; [|split].
  - apply initialise_inl_iff. destruct Hprint as (_ & _ & Hthr & _). exact Hthr.
  - intros e. apply initialise_inl_ValueError.
  - intros e rng H. rewrite (run_simulation_printable config rng Hprint).
    now rewrite H.
Qed.

(* ===================================================================== *)
(** ** Which rounding [learn_from_history] applies *)
(* ===================================================================== *)

(** [round_half_even_pos m e] is a nearest integer of [m * 2^e], and on
    a tie the even one. *)
Lemma round_half_even_pos_nearest (m : Z) (p : positive) :
  0 <= m ->
  let d := Z.pow_pos 2 p in
  let n := round_half_even_pos m (Zneg p) in
  2 * Z.abs (m - n * d) <= d
  /\ (2 * Z.abs (m - n * d) = d -> Z.even n = true).
Proof.
  intros Hm. cbn zeta. unfold round_half_even_pos.
  assert (Hd : 0 < Z.pow_pos 2 p)
    by (change (Z.pow_pos 2 p) with (2 ^ Z.pos p); apply Z.pow_pos_nonneg; lia).
  set (d := Z.pow_pos 2 p) in *.
  pose proof (Z.div_mod m d ltac:(lia)) as Hdm.
  pose proof (Z.mod_pos_bound m d Hd) as Hr.
  set (q := m / d) in *. set (r := m mod d) in *.
  destruct (Z.compare_spec (2 * r) d) as [Heq | Hlt | Hgt].
  - destruct (Z.even q) eqn:Hev.
    + split; [nia | intros _; exact Hev].
    + split; [nia | intros _].
      rewrite Z.even_add, Hev. reflexivity.
  - split; nia.
  - split; nia.
Qed.

(** [round_half_away_pos m e] is a nearest integer of [m * 2^e], and on
    a tie the one above. *)
Lemma round_half_away_pos_nearest (m : Z) (p : positive) :
  0 <= m ->
  let d := Z.pow_pos 2 p in
  let n := round_half_away_pos m (Zneg p) in
  2 * Z.abs (m - n * d) <= d
  /\ (2 * Z.abs (m - n * d) = d -> m < n * d).
Proof.
  intros Hm. cbn zeta. unfold round_half_away_pos.
  assert (Hd : 0 < Z.pow_pos 2 p)
    by (change (Z.pow_pos 2 p) with (2 ^ Z.pos p); apply Z.pow_pos_nonneg; lia).
  set (d := Z.pow_pos 2 p) in *.
  pose proof (Z.div_mod m d ltac:(lia)) as Hdm.
  pose proof (Z.mod_pos_bound m d Hd) as Hr.
  set (q := m / d) in *. set (r := m mod d) in *.
  destruct (Z.compare_spec (2 * r) d) as [Heq | Hlt | Hgt]; split; nia.
Qed.

(** The literals [0.5], [2.0], [2.5] and [3.0]. *)
Definition lit_0_5 : float := S754_finite false 4503599627370496 (-53).
Definition lit_2_0 : float := S754_finite false 4503599627370496 (-51).
Definition lit_2_5 : float := S754_finite false 5629499534213120 (-51).
Definition lit_3_0 : float := S754_finite false 6755399441055744 (-51).

(** [LearningAgent(2, 0.5)] as constructed. *)
Definition learner_2_half : LearningAgent :=
  mkLearningAgent (mkSimpleAgent "Learner_Gen0" 2 0 0 0 0 []) lit_0_5 [2].

(** C2 as stated: the rule with round-half-away-from-zero. *)
Definition learns_rounding_half_away : Prop :=
  forall (n : Z) (self : LearningAgent),
    LearningAgent_.learn_from_history n self = learning_rule round_half_away n self.

(** Threshold 2, rate 0.5, history [2], lifespan 4: the mean is 3.0,
    the interpolation is 2 * 0.5 + 3 * 0.5 = 2.5, a tie.  The code
    assigns 2 (the even neighbour); half away from zero gives 3. *)
Lemma learn_tie_counterexample :
  LearningAgent_.__init__ 2 lit_0_5 "Learner_Gen0" = inr learner_2_half
  /\ int_true_div (sum [2; 4]) (len [2; 4]) = inr lit_3_0
  /\ of_int 2 = inr lit_2_0
  /\ of_int 3 = inr lit_3_0
  /\ add (mul lit_2_0 (sub one lit_0_5)) (mul lit_3_0 lit_0_5) = lit_2_5
  /\ round lit_2_5 = inr 2
  /\ round_half_away lit_2_5 = inr 3
  /\ LearningAgent_.learn_from_history 4 learner_2_half
     = inr (mkLearningAgent (mkSimpleAgent "Learner_Gen0" 2 0 0 0 0 [])
              lit_0_5 [2; 4])
  /\ learning_rule round_half_away 4 learner_2_half
     = inr (mkLearningAgent (mkSimpleAgent "Learner_Gen0" 3 0 0 0 0 [])
              lit_0_5 [2; 4])
  /\ ~ learns_rounding_half_away.
Proof.
  repeat (split; [vm_compute; reflexivity|]).
  intros H. specialize (H 4 learner_2_half).
  vm_compute in H. discriminate H.
Qed.

(** C2, as amended.  [learn_from_history(current_lifespan)] appends the
    lifespan to the history, takes the floating-point mean of the whole
    history (seed included), sets the target to [max(1, round(mean))],
    interpolates [threshold * (1 - rate) + target * rate] in floating
    point, rounds, clamps at 1 and assigns the threshold, where both
    roundings are the built-in [round]: to nearest, ties to even.  It
    raises exactly where that rule raises (a float that is not finite,
    an [int] beyond the floats).  A call that returns leaves a threshold
    of at least 1, the history grown by one and everything else as it
    was; and the call does return whenever the rate is a binary64
    number below [2^64] in magnitude and the threshold and the sum of
    the history are below [2^64] in magnitude. *)
Theorem learn_from_history_rounds_half_even :
  forall (n : Z) (self : LearningAgent),
    LearningAgent_.learn_from_history n self = learning_rule round n self
    /\ (forall self',
           LearningAgent_.learn_from_history n self = inr self' ->
           1 <= give_up_threshold (base self')
           /\ historical_lifespans self' = historical_lifespans self ++ [n]
           /\ learning_rate self' = learning_rate self
           /\ consecutive_punishments (base self') = consecutive_punishments (base self)
           /\ total_punishments_received (base self')
              = total_punishments_received (base self)
           /\ total_rewards_received (base self') = total_rewards_received (base self)
           /\ steps_lived (base self') = steps_lived (base self)
           /\ decision_log (base self') = decision_log (base self))
    /\ (is_binary64 (learning_rate self) ->
        bounded_by 64 (learning_rate self) ->
        Z.abs (give_up_threshold (base self)) < 2 ^ 64 ->
        Z.abs (sum (historical_lifespans self ++ [n])) < 2 ^ 64 ->
        exists self', LearningAgent_.learn_from_history n self = inr self')
    /\ (forall (m : Z) (p : positive),
           0 <= m ->
           let d := Z.pow_pos 2 p in
           let k := round_half_even_pos m (Zneg p) in
           2 * Z.abs (m - k * d) <= d
           /\ (2 * Z.abs (m - k * d) = d -> Z.even k = true)).
Proof.
  intros n self. split; [apply learn_from_history_rule | split; [|split]].
  - intros self' H.
    apply learn_from_history_frame in H. tauto.
  - apply learn_from_history_returns.
  - intros m p Hm. apply round_half_even_pos_nearest. exact Hm.
Qed.

Lemma learn_from_history_rounds_half_even_witness :
  (is_binary64 lit_0_5 /\ bounded_by 64 lit_0_5
   /\ Z.abs 2 < 2 ^ 64 /\ Z.abs (sum ([2] ++ [4])) < 2 ^ 64)
  /\ LearningAgent_.learn_from_history 4 learner_2_half
     = inr (mkLearningAgent (mkSimpleAgent "Learner_Gen0" 2 0 0 0 0 [])
              lit_0_5 [2; 4])
  /\ (exists self', LearningAgent_.learn_from_history 4 learner_2_half = inr self')
  /\ 1 <= 2
  /\ [2; 4] = [2] ++ [4].
Proof.
  assert (Hpre : is_binary64 lit_0_5 /\ bounded_by 64 lit_0_5
                 /\ Z.abs 2 < 2 ^ 64 /\ Z.abs (sum ([2] ++ [4])) < 2 ^ 64).
  { split; [reflexivity|]. split; [cbn; lia|]. split; [reflexivity | reflexivity]. }
  assert (H : LearningAgent_.learn_from_history 4 learner_2_half
              = inr (mkLearningAgent (mkSimpleAgent "Learner_Gen0" 2 0 0 0 0 [])
                       lit_0_5 [2; 4]))
    by (vm_compute; reflexivity).
  split; [exact Hpre|]. split; [exact H|].
  destruct Hpre as (H1 & H2 & H3 & H4).
  split.
  - exact (proj1 (proj2 (proj2
             (learn_from_history_rounds_half_even 4 learner_2_half))) H1 H2 H3 H4).
  - pose proof (proj1 (proj2 (learn_from_history_rounds_half_even 4 learner_2_half))
                  _ H) as (Hthr & Hhist & _).
    split; [exact Hthr | exact Hhist].
Defined.

Lemma invalid_configuration_raised_at_construction_witness :
  let config := mkConfig 100 one (Some "SimpleAgent") 0 None 10000 in
  printable config
  /\ initialise config = inl (ValueError "give_up_threshold must be positive.")
  /\ run_simulation config all_zero = inr ([], None).
Proof.
  cbv zeta.
  assert (Hprint : printable (mkConfig 100 one (Some "SimpleAgent") 0 None 10000)).
  { split; [discriminate|]. repeat split; vm_compute; reflexivity. }
  assert (H : initialise (mkConfig 100 one (Some "SimpleAgent") 0 None 10000)
              = inl (ValueError "give_up_threshold must be positive."))
    by (vm_compute; reflexivity).
  split; [exact Hprint|]. split; [exact H|].
  exact (proj2 (proj2 (invalid_configuration_raised_at_construction
                         (mkConfig 100 one (Some "SimpleAgent") 0 None 10000)
                         Hprint))
           _ all_zero H).
Defined.

(* ===================================================================== *)
(** ** Further properties: one interaction in detail *)
(* ===================================================================== *)

(** What steps 1 to 3 do to each counter and to the log, by the outcome
    drawn and the decision taken. *)
Lemma interact_detail (w : World) :
  let '(should_continue, w') := interact w in
  let a := attrs (agent_of w) in
  let a' := attrs (agent_of w') in
  let rewarded := if outcome w then 1 else 0 in
  total_rewards_received a' = total_rewards_received a + rewarded
  /\ total_punishments_received a' = total_punishments_received a + (1 - rewarded)
  /\ total_rewards_given (env_of w') = total_rewards_given (env_of w) + rewarded
  /\ total_punishments_given (env_of w')
     = total_punishments_given (env_of w) + (1 - rewarded)
  /\ len (decision_log a')
     = len (decision_log a) + 1 + (if should_continue then 0 else 1)
  /\ name a' = name a.
Proof.
  rewrite interact_spec. cbn zeta. cbn [agent_of env_of].
  rewrite decide_to_continue_fst, attrs_decide_to_continue, attrs_record_step.
  pose proof (env_step_spec (env_of w) (rng_of w)) as (_ & _ & Hr & Hp).
  cbn zeta in Hr, Hp. fold (outcome w) in Hr, Hp.
  rewrite Hr, Hp.
  unfold SimpleAgent_.decide_to_continue.
  destruct (outcome w); cbn -[Z.add Z.sub Z.geb];
    match goal with |- context [?x >=? ?y] => destruct (x >=? y) end;
    cbn -[Z.add Z.sub]; unfold len; rewrite ?length_app; cbn [List.length];
    repeat split; lia.
Qed.

(* ===================================================================== *)
(** ** Further properties: one run of the loop in detail *)
(* ===================================================================== *)

(** The agent's two totals move with the environment's, the log grows
    by one entry a step and one more for the decision to give up, and
    the loop ends for one of its two reasons. *)
Lemma step_loop_detail (max_steps count : Z) (w : World) :
  let '(w', count', reason) := step_loop max_steps count w in
  let a := attrs (agent_of w) in
  let a' := attrs (agent_of w') in
  total_rewards_received a' - total_rewards_received a
  = total_rewards_given (env_of w') - total_rewards_given (env_of w)
  /\ total_punishments_received a' - total_punishments_received a
     = total_punishments_given (env_of w') - total_punishments_given (env_of w)
  /\ 0 <= total_rewards_received a' - total_rewards_received a
  /\ 0 <= total_punishments_received a' - total_punishments_received a
  /\ len (decision_log a')
     = len (decision_log a) + (count' - count)
       + (if String.eqb reason "Agent Threshold Reached" then 1 else 0)
  /\ name a' = name a
  /\ (reason = "Agent Threshold Reached" \/ reason = "Max Steps Reached").
Proof.
  revert count w.
  apply (step_loop_induction max_steps
    (fun count w r =>
       let '(w', count', reason) := r in
       let a := attrs (agent_of w) in
       let a' := attrs (agent_of w') in
       total_rewards_received a' - total_rewards_received a
       = total_rewards_given (env_of w') - total_rewards_given (env_of w)
       /\ total_punishments_received a' - total_punishments_received a
          = total_punishments_given (env_of w') - total_punishments_given (env_of w)
       /\ 0 <= total_rewards_received a' - total_rewards_received a
       /\ 0 <= total_punishments_received a' - total_punishments_received a
       /\ len (decision_log a')
          = len (decision_log a) + (count' - count)
            + (if String.eqb reason "Agent Threshold Reached" then 1 else 0)
       /\ name a' = name a
       /\ (reason = "Agent Threshold Reached" \/ reason = "Max Steps Reached"))).
  intros count w IH. rewrite step_loop_body.
  pose proof (interact_detail w) as Hi.
  destruct (interact w) as [d w1]. cbn zeta in Hi.
  destruct Hi as (Hr & Hp & Hrg & Hpg & Hlog & Hname).
  destruct d; cbn [negb].
  - destruct (count + 1 >=? max_steps) eqn:Hge.
    + cbn zeta. cbn [String.eqb Ascii.eqb Bool.eqb].
      destruct (outcome w); repeat split; try lia; try assumption; now right.
    + rewrite Z.geb_leb in Hge. apply Z.leb_gt in Hge.
      specialize (IH w1 eq_refl ltac:(lia)).
      destruct (step_loop max_steps (count + 1) w1) as [[w' count'] reason].
      cbn zeta in IH |- *.
      destruct IH as (Ir & Ip & Ir0 & Ip0 & Ilog & Iname & Ireason).
      destruct (outcome w); repeat split; try lia; try congruence; assumption.
  - cbn zeta. cbn [String.eqb Ascii.eqb Bool.eqb].
    destruct (outcome w); repeat split; try lia; try assumption; now left.
Qed.

(** The attributes a constructed agent keeps in order. *)
Definition agent_sane (a : SimpleAgent) : Prop :=
  1 <= give_up_threshold a
  /\ 0 <= consecutive_punishments a <= total_punishments_received a
  /\ 0 <= total_rewards_received a
  /\ steps_lived a = total_rewards_received a + total_punishments_received a.

(** Entered below the threshold, the loop leaves the streak at most at
    the threshold, and exactly at it when the agent gave up. *)
Lemma step_loop_streak (max_steps count : Z) (w : World) :
  agent_sane (attrs (agent_of w)) ->
  consecutive_punishments (attrs (agent_of w))
    < give_up_threshold (attrs (agent_of w)) ->
  let '(w', _, reason) := step_loop max_steps count w in
  let a' := attrs (agent_of w') in
  agent_sane a'
  /\ consecutive_punishments a' <= give_up_threshold a'
  /\ (reason = "Agent Threshold Reached" ->
      consecutive_punishments a' = give_up_threshold a').
Proof.
  revert count w.
  apply (step_loop_induction max_steps
    (fun count w r =>
       agent_sane (attrs (agent_of w)) ->
       consecutive_punishments (attrs (agent_of w))
         < give_up_threshold (attrs (agent_of w)) ->
       let '(w', _, reason) := r in
       let a' := attrs (agent_of w') in
       agent_sane a'
       /\ consecutive_punishments a' <= give_up_threshold a'
       /\ (reason = "Agent Threshold Reached" ->
           consecutive_punishments a' = give_up_threshold a'))).
  intros count w IH (Hthr & Hcp & Htr & Hbal) Hbelow. rewrite step_loop_body.
  pose proof (interact_detail w) as Hi.
  pose proof (interact_streak w) as Hs.
  pose proof (interact_advanced w) as Hadv.
  destruct (interact w) as [d w1]. cbn zeta in Hi, Hs. cbn [snd] in Hadv.
  destruct Hi as (Hr & Hp & _).
  destruct Hs as (Ht1 & Hc1 & Hd & _).
  pose proof (adv_steps_lived _ _ _ Hadv) as Hl1.
  assert (Hsane1 : agent_sane (attrs (agent_of w1))).
  { unfold agent_sane. destruct (outcome w); repeat split; lia. }
  rewrite Z.geb_leb in Hd.
  destruct d; cbn [negb].
  - symmetry in Hd. apply negb_true_iff, Z.leb_gt in Hd.
    destruct (count + 1 >=? max_steps) eqn:Hge.
    + cbn zeta. split; [exact Hsane1|]. split; [lia | discriminate].
    + rewrite Z.geb_leb in Hge. apply Z.leb_gt in Hge.
      apply (IH w1 eq_refl ltac:(lia) Hsane1 Hd).
  - symmetry in Hd. apply negb_false_iff, Z.leb_le in Hd.
    cbn zeta. split; [exact Hsane1|].
    assert (consecutive_punishments (attrs (agent_of w1))
            = give_up_threshold (attrs (agent_of w1)))
      by (destruct (outcome w); lia).
    split; [lia | intros _; assumption].
Qed.

(* ===================================================================== *)
(** ** Further properties: the record of a generation *)
(* ===================================================================== *)

(** What holds of every record [run_simulation] stores, under the step
    cap [max_steps]. *)
Record record_ok (max_steps : Z) (gd : GenerationData) : Prop := mkRecordOk {
  ok_threshold : 1 <= threshold_used gd;
  ok_lifespan : 1 <= lifespan (summary gd) <= Z.max 1 max_steps;
  ok_rewards : 0 <= total_rewards (summary gd);
  ok_punishments : 0 <= total_punishments (summary gd);
  ok_balance :
    total_rewards (summary gd) + total_punishments (summary gd)
    = lifespan (summary gd);
  ok_streak :
    0 <= final_consecutive_punishments (summary gd)
      <= total_punishments (summary gd);
  ok_reason :
    (end_reason gd = "Agent Threshold Reached"
     /\ final_consecutive_punishments (summary gd) = threshold_used gd)
    \/ (end_reason gd = "Max Steps Reached"
        /\ final_consecutive_punishments (summary gd) < threshold_used gd
        /\ lifespan (summary gd) = Z.max 1 max_steps);
  ok_log :
    len (summary_decision_log (summary gd))
    = lifespan (summary gd)
      + (if String.eqb (end_reason gd) "Agent Threshold Reached" then 1 else 0)
}.

Lemma generation_start_fresh (agent_type : string) (gen_num : Z) (st : SimState) :
  let a := attrs (agent_of (generation_start agent_type gen_num st)) in
  decision_log a = []
  /\ name a = (agent_type ++ "_Gen" ++ str gen_num)%string
  /\ agent_of (generation_start agent_type gen_num st)
     = set_attrs a (agent_of (world st)).
Proof.
  unfold generation_start, rename. cbn [agent_of]. rewrite attrs_set_attrs.
  destruct (agent_of (world st)) as [a | [b lr h]]; cbn; repeat split.
Qed.

(** A generation, from a threshold of at least 1: the record it
    appends, what it adds to the environment's counters, the samples it
    reads, and the agent it leaves. *)
Lemma run_generation_record (config : Config) (agent_type : string)
  (gen_num : Z) (st : SimState) :
  1 <= give_up_threshold (attrs (agent_of (world st))) ->
  let st' := fst (run_generation config agent_type gen_num st) in
  exists gd,
    all_generation_data st' = all_generation_data st ++ [gd]
    /\ generation gd = gen_num
    /\ threshold_used gd = give_up_threshold (attrs (agent_of (world st)))
    /\ record_ok (max_steps_per_generation config) gd
    /\ total_rewards_given (env_of (world st'))
       = total_rewards_given (env_of (world st)) + total_rewards (summary gd)
    /\ total_punishments_given (env_of (world st'))
       = total_punishments_given (env_of (world st))
         + total_punishments (summary gd)
    /\ steps_taken (env_of (world st'))
       = steps_taken (env_of (world st)) + lifespan (summary gd)
    /\ (forall n, rng_of (world st') n
                  = rng_of (world st) (Z.to_nat (lifespan (summary gd)) + n)%nat)
    /\ learn_if_learner (lifespan (summary gd))
         (set_attrs
            (mkSimpleAgent (agent_type ++ "_Gen" ++ str gen_num)%string
               (threshold_used gd) (final_consecutive_punishments (summary gd))
               (total_punishments (summary gd)) (total_rewards (summary gd))
               (lifespan (summary gd)) (summary_decision_log (summary gd)))
            (agent_of (world st)))
       = match snd (run_generation config agent_type gen_num st) with
         | None => inr (agent_of (world st'))
         | Some e => inl e
         end.
Proof.
  intros Hthr. cbn zeta.
  pose proof (run_generation_spec config agent_type gen_num st) as Hgen.
  pose proof (generation_start_attrs agent_type gen_num st)
    as (Ht0 & Hc0 & Hr0 & Hp0 & Hl0).
  pose proof (generation_start_fresh agent_type gen_num st) as (Hlog0 & Hn0 & Hcls0).
  cbn zeta in Hgen, Ht0, Hc0, Hr0, Hp0, Hl0, Hlog0, Hn0, Hcls0.
  set (w0 := generation_start agent_type gen_num st) in *.
  set (cap := max_steps_per_generation config) in *.
  assert (Hsane0 : agent_sane (attrs (agent_of w0)))
    by (unfold agent_sane; repeat split; lia).
  pose proof (step_loop_advanced cap 0 w0) as Hadv.
  pose proof (step_loop_count cap 0 w0) as Hcount.
  pose proof (step_loop_end cap 0 w0) as Hend.
  pose proof (step_loop_detail cap 0 w0) as Hdet.
  pose proof (step_loop_streak cap 0 w0 Hsane0 ltac:(lia)) as Hstreak.
  destruct (step_loop cap 0 w0) as [[w' count'] reason].
  cbn zeta in Hend, Hdet, Hstreak.
  destruct Hadv as [_ Hadv].
  destruct Hdet as (Dr & Dp & Dr0 & Dp0 & Dlog & Dname & Dreason).
  destruct Hstreak as ((St & Scp & Str & Sbal) & Sle & Seq).
  pose proof (adv_steps_taken _ _ _ Hadv) as Ast.
  pose proof (adv_steps_lived _ _ _ Hadv) as Ali.
  pose proof (adv_threshold _ _ _ Hadv) as Ath.
  pose proof (adv_class _ _ _ Hadv) as Acls.
  pose proof (adv_rng _ _ _ Hadv) as Arng.
  change (env_of w0) with (env_of (world st)) in *.
  change (rng_of w0) with (rng_of (world st)) in *.
  destruct (run_generation config agent_type gen_num st) as [st' raised].
  destruct Hgen as (Hdata & Henv & Hrng & _ & Hlearn).
  cbn [fst snd].
  eexists. split; [exact Hdata|].
  cbn [generation threshold_used summary end_reason lifespan total_rewards
         total_punishments final_consecutive_punishments summary_decision_log
         get_generation_summary].
  split; [reflexivity|]. split; [exact Ht0|].
  split; [|split; [|split; [|split; [|split]]]].
  - constructor;
      cbn [generation threshold_used summary end_reason lifespan total_rewards
             total_punishments final_consecutive_punishments
             summary_decision_log get_generation_summary]; try lia.
    + destruct Hend as [[-> Hge] | (-> & Hlt & Hcap)].
      * left. split; [reflexivity | lia].
      * right. split; [reflexivity|]. split; lia.
    + rewrite Dlog, Hlog0. change (len (@nil string)) with 0. lia.
  - rewrite Henv. lia.
  - rewrite Henv. lia.
  - rewrite Henv. lia.
  - intros n. rewrite Hrng, Arng. do 2 f_equal. lia.
  - assert (Hagent : set_attrs
                       (mkSimpleAgent (agent_type ++ "_Gen" ++ str gen_num)%string
                          (give_up_threshold (attrs (agent_of w0)))
                          (consecutive_punishments (attrs (agent_of w')))
                          (total_punishments_received (attrs (agent_of w')))
                          (total_rewards_received (attrs (agent_of w')))
                          (steps_lived (attrs (agent_of w')))
                          (decision_log (attrs (agent_of w'))))
                       (agent_of (world st)) = agent_of w').
    { assert (Hrec : mkSimpleAgent (agent_type ++ "_Gen" ++ str gen_num)%string
                       (give_up_threshold (attrs (agent_of w0)))
                       (consecutive_punishments (attrs (agent_of w')))
                       (total_punishments_received (attrs (agent_of w')))
                       (total_rewards_received (attrs (agent_of w')))
                       (steps_lived (attrs (agent_of w')))
                       (decision_log (attrs (agent_of w')))
                     = attrs (agent_of w')).
      { rewrite <- Ath, <- Hn0, <- Dname. now destruct (attrs (agent_of w')). }
      rewrite Hrec.
      etransitivity; [|symmetry; exact Acls].
      rewrite Hcls0. now rewrite set_attrs_set_attrs. }
    rewrite Hagent.
    destruct (learn_if_learner _ _) as [e | learned].
    + destruct Hlearn as [-> _]. reflexivity.
    + destruct Hlearn as [-> ->]. reflexivity.
Qed.

(* ===================================================================== *)
(** ** Further properties: the records of a run *)
(* ===================================================================== *)

Lemma sum_from (l : list Z) (a : Z) : fold_left Z.add l a = a + sum l.
Proof.
  unfold sum. revert a.
  induction l as [|x l IH]; intros a; cbn [fold_left]; [lia|].
  rewrite (IH (a + x)), (IH (0 + x)). lia.
Qed.

Lemma sum_cons (x : Z) (l : list Z) : sum (x :: l) = x + sum l.
Proof. unfold sum at 1. cbn [fold_left]. rewrite sum_from. lia. Qed.

(** The agent after a generation that raised nothing: a fixed agent
    keeps its class and threshold, a learning agent its class and
    rate, with the lifespan appended to its history; the threshold
    stays at least 1. *)
Lemma run_generation_agent (config : Config) (agent_type : string)
  (gen_num : Z) (st : SimState) (gd : GenerationData) :
  1 <= give_up_threshold (attrs (agent_of (world st))) ->
  all_generation_data (fst (run_generation config agent_type gen_num st))
  = all_generation_data st ++ [gd] ->
  let st' := fst (run_generation config agent_type gen_num st) in
  match agent_of (world st) with
  | Simple a =>
      snd (run_generation config agent_type gen_num st) = None
      /\ exists a', agent_of (world st') = Simple a'
                    /\ give_up_threshold a' = give_up_threshold a
  | Learner a =>
      snd (run_generation config agent_type gen_num st) = None ->
      exists a', agent_of (world st') = Learner a'
                 /\ 1 <= give_up_threshold (base a')
                 /\ learning_rate a' = learning_rate a
                 /\ historical_lifespans a'
                    = historical_lifespans a ++ [lifespan (summary gd)]
  end.
Proof.
  intros Hthr Hdata. cbn zeta.
  destruct (run_generation_record config agent_type gen_num st Hthr)
    as (gd' & Hdata' & _ & Hused & _ & _ & _ & _ & _ & Hlearn).
  rewrite Hdata' in Hdata. apply app_inj_tail in Hdata as [_ ->].
  destruct (agent_of (world st)) as [a | a] eqn:Ea; cbn [attrs] in *.
  - cbn [set_attrs learn_if_learner] in Hlearn.
    destruct (snd (run_generation config agent_type gen_num st)) as [e|];
      [discriminate Hlearn|].
    injection Hlearn as Hlearn. split; [reflexivity|].
    eexists. split; [symmetry; exact Hlearn|]. exact Hused.
  - intros Hnone. rewrite Hnone in Hlearn.
    cbn [set_attrs learn_if_learner] in Hlearn.
    apply bind_inr in Hlearn as (a' & Hl & Hret). injection Hret as Hret.
    apply learn_from_history_frame in Hl as (H1 & Hh & Hlr & _).
    exists a'. split; [symmetry; exact Hret|].
    split; [exact H1|]. split; [exact Hlr | exact Hh].
Qed.

(** The records a run of the [for] loop appends, from a threshold of at
    least 1: each is well formed, they are numbered as the loop
    numbers its passes, and their rewards and punishments are the ones
    the environment gave. *)
Lemma run_generations_records (config : Config) (agent_type : string)
  (gen_nums : list Z) :
  forall st,
    1 <= give_up_threshold (attrs (agent_of (world st))) ->
    let final := run_generations config agent_type gen_nums st in
    exists new,
      all_generation_data final = all_generation_data st ++ new
      /\ Forall (record_ok (max_steps_per_generation config)) new
      /\ map generation new = firstn (List.length new) gen_nums
      /\ total_rewards_given (env_of (world final))
         = total_rewards_given (env_of (world st))
           + sum (map (fun g => total_rewards (summary g)) new)
      /\ total_punishments_given (env_of (world final))
         = total_punishments_given (env_of (world st))
           + sum (map (fun g => total_punishments (summary g)) new)
      /\ (forall gd, hd_error new = Some gd ->
                     threshold_used gd
                     = give_up_threshold (attrs (agent_of (world st))))
      /\ (forall a, agent_of (world st) = Simple a ->
                    List.length new = List.length gen_nums
                    /\ Forall (fun gd => threshold_used gd = give_up_threshold a)
                         new).
Proof.
  induction gen_nums as [|gen_num rest IH]; intros st Hthr; cbn zeta.
  - exists []. cbn. rewrite app_nil_r.
    split; [reflexivity|]. split; [constructor|]. split; [reflexivity|].
    split; [lia|]. split; [lia|]. split; [discriminate|].
    intros a _. split; [reflexivity | constructor].
  - cbn [run_generations].
    destruct (run_generation_record config agent_type gen_num st Hthr)
      as (gd & Hdata & Hnum & Hused & Hok & Hrg & Hpg & _ & _ & _).
    pose proof (run_generation_agent config agent_type gen_num st gd Hthr Hdata)
      as Hagent.
    cbn zeta in Hdata, Hrg, Hpg, Hagent.
    destruct (run_generation config agent_type gen_num st) as [st' [e|]];
      cbn [fst snd] in *.
    + exists [gd]. split; [exact Hdata|].
      split; [constructor; [exact Hok | constructor]|].
      split; [cbn; now rewrite Hnum|].
      cbn [map]. rewrite !sum_cons. unfold sum at 1 2. cbn [fold_left].
      split; [lia|]. split; [lia|]. split.
      * intros gd0 H. injection H as <-. exact Hused.
      * intros a Ha. rewrite Ha in Hagent. destruct Hagent as [Hnone _].
        discriminate Hnone.
    + assert (Hthr' : 1 <= give_up_threshold (attrs (agent_of (world st')))).
      { destruct (agent_of (world st)) as [a | a].
        - destruct Hagent as (_ & a' & -> & Ha'). cbn [attrs] in *. lia.
        - destruct (Hagent eq_refl) as (a' & -> & H1 & _). exact H1. }
      destruct (IH st' Hthr') as (new & Hnew & Hoks & Hnums & Hr & Hp & Hhd & Hsimple).
      cbn zeta in Hnew, Hr, Hp, Hsimple.
      exists (gd :: new).
      split; [rewrite Hnew, Hdata, <- app_assoc; reflexivity|].
      split; [constructor; assumption|].
      split; [cbn [map List.length firstn]; now rewrite Hnum, Hnums|].
      cbn [map]. rewrite !sum_cons.
      split; [lia|]. split; [lia|]. split.
      * intros gd0 H. injection H as <-. exact Hused.
      * intros a Ha. rewrite Ha in Hagent.
        destruct Hagent as (_ & a' & Ha' & Hsame).
        destruct (Hsimple a' Ha') as [Hlen Hall].
        split; [cbn [List.length]; lia|].
        constructor; [rewrite Hused, Ha; reflexivity|].
        rewrite <- Hsame. exact Hall.
Qed.

(** A run that returned statistics is the [for] loop run from the
    constructed objects. *)
Lemma run_simulation_inr (config : Config) (rng : Rng)
  (gens : list GenerationData) (s : EnvStats) :
  run_simulation config rng = inr (gens, Some s) ->
  exists environment agent,
    initialise config = inr (environment, agent)
    /\ let final :=
         run_generations config (get (agent_type config) "SimpleAgent")
           (range_from_1 (num_generations config + 1))
           (mkSimState (mkWorld environment agent rng) [] 0) in
       gens = all_generation_data final
       /\ HarshEnvironment_.get_stats (env_of (world final)) = inr s.
Proof.
  intros H. apply run_simulation_returned in H as [_ H].
  destruct (initialise config) as [e | [environment agent]]; [discriminate|].
  exists environment, agent. split; [reflexivity|]. cbn zeta in *.
  destruct H as (s2 & Hs2 & _ & _ & H).
  injection H as -> <-. split; [reflexivity | exact Hs2].
Qed.

(** A run that returned no statistics has no record. *)
Lemma run_simulation_none (config : Config) (rng : Rng)
  (gens : list GenerationData) :
  run_simulation config rng = inr (gens, None) -> gens = [].
Proof.
  intros H. apply run_simulation_returned in H as [_ H].
  destruct (initialise config) as [e | [environment agent]].
  - now injection H as ->.
  - cbn zeta in H. destruct H as (s2 & _ & _ & _ & H). discriminate H.
Qed.

(** Everything the loop lemmas say, for the records a run returns. *)
Lemma run_simulation_records (config : Config) (rng : Rng)
  (gens : list GenerationData) (s : EnvStats) :
  run_simulation config rng = inr (gens, Some s) ->
  Forall (record_ok (max_steps_per_generation config)) gens
  /\ map generation gens
     = firstn (List.length gens) (range_from_1 (num_generations config + 1))
  /\ stats_total_rewards s = sum (map (fun g => total_rewards (summary g)) gens)
  /\ stats_total_punishments s
     = sum (map (fun g => total_punishments (summary g)) gens)
  /\ (forall gd, hd_error gens = Some gd ->
                 threshold_used gd = agent_initial_threshold config)
  /\ (get (agent_type config) "SimpleAgent" <> "LearningAgent" ->
      len gens = Z.max 0 (num_generations config)
      /\ Forall (fun gd => threshold_used gd = agent_initial_threshold config)
           gens).
Proof.
  intros Hrun.
  apply run_simulation_inr in Hrun as (environment & agent & Hinit & Hgens & Hstats).
  cbn zeta in Hgens, Hstats.
  pose proof Hinit as Hinit'.
  apply initialise_inr in Hinit' as (-> & _ & Hpos & Hthr).
  match type of Hgens with
  | _ = all_generation_data (run_generations ?c ?t ?l ?st) =>
      destruct (run_generations_records c t l st)
        as (new & Hnew & Hoks & Hnums & Hr & Hp & Hhd & Hsimple);
      [cbn [world agent_of]; lia|];
      set (final := run_generations c t l st) in *
  end.
  cbn zeta in Hnew, Hr, Hp. cbn [world agent_of env_of all_generation_data] in *.
  cbn [app] in Hnew. rewrite Hnew in Hgens. subst new.
  apply get_stats_inr in Hstats as (_ & Hsr & Hsp).
  split; [exact Hoks|]. split; [exact Hnums|].
  split; [rewrite Hsr, Hr; cbn; lia|].
  split; [rewrite Hsp, Hp; cbn; lia|].
  split; [intros gd Hgd; rewrite (Hhd gd Hgd); exact Hthr|].
  intros Hfixed.
  unfold initialise in Hinit.
  apply bind_inr in Hinit as (e0 & _ & Hinit). cbn zeta in Hinit.
  destruct (String.eqb_spec (get (agent_type config) "SimpleAgent") "LearningAgent")
    as [Heq | _]; [contradiction|].
  apply bind_inr in Hinit as (a & Ha & Hinit). injection Hinit as _ <-.
  destruct (Hsimple a eq_refl) as [Hlen Hall].
  split.
  - unfold len. rewrite Hlen. apply len_range_from_1.
  - cbn [attrs] in Hthr. now rewrite <- Hthr.
Qed.

(* ===================================================================== *)
(** ** Further properties of [run_simulation] *)
(* ===================================================================== *)

(** A tape for examples: against probability [0.5] it gives a reward,
    then two punishments, again and again. *)
Definition reward_every_third : Rng :=
  fun i => if Nat.eqb (i mod 3) 0 then zero else lit_0_5.

Definition example_config : Config :=
  mkConfig 4 lit_0_5 (Some "LearningAgent") 2 None 10.

Definition example_fixed_config : Config :=
  mkConfig 4 lit_0_5 (Some "SimpleAgent") 2 None 10.

Lemma example_run_returns :
  exists gens s,
    run_simulation example_config reward_every_third = inr (gens, Some s).
Proof. eexists _, _. vm_compute. reflexivity. Qed.

Lemma example_fixed_run_returns :
  exists gens s,
    run_simulation example_fixed_config reward_every_third = inr (gens, Some s).
Proof. eexists _, _. vm_compute. reflexivity. Qed.

(** X1.  In every record of a returned run the lifespan is at least 1
    and at most [max(1, max_steps_per_generation)], the rewards and
    punishments are non-negative and add up to the lifespan, and the
    final streak lies between 0 and the punishments. *)
Theorem record_counts_bounded :
  forall (config : Config) (rng : Rng) (gens : list GenerationData)
    (s : EnvStats),
    run_simulation config rng = inr (gens, Some s) ->
    Forall
      (fun gd =>
         1 <= lifespan (summary gd)
             <= Z.max 1 (max_steps_per_generation config)
         /\ 0 <= total_rewards (summary gd)
         /\ 0 <= total_punishments (summary gd)
         /\ total_rewards (summary gd) + total_punishments (summary gd)
            = lifespan (summary gd)
         /\ 0 <= final_consecutive_punishments (summary gd)
              <= total_punishments (summary gd))
      gens.
Proof.
  intros config rng gens s Hrun.
  apply run_simulation_records in Hrun as (Hoks & _).
  apply (Forall_impl _ (P := record_ok (max_steps_per_generation config)));
    [|exact Hoks].
  intros gd []. repeat split; lia.
Qed.

Lemma record_counts_bounded_witness :
  exists gens s,
    run_simulation example_config reward_every_third = inr (gens, Some s)
    /\ Forall
         (fun gd =>
            1 <= lifespan (summary gd)
                <= Z.max 1 (max_steps_per_generation example_config)
            /\ 0 <= total_rewards (summary gd)
            /\ 0 <= total_punishments (summary gd)
            /\ total_rewards (summary gd) + total_punishments (summary gd)
               = lifespan (summary gd)
            /\ 0 <= final_consecutive_punishments (summary gd)
                 <= total_punishments (summary gd))
         gens.
Proof.
  destruct example_run_returns as (gens & s & Hrun).
  exists gens, s. split; [exact Hrun|].
  exact (record_counts_bounded example_config reward_every_third gens s Hrun).
Defined.

(** X2.  Every record of a returned run was used with a threshold of at
    least 1 and ends in one of two ways: with "Agent Threshold
    Reached", the final streak being exactly the threshold used (so the
    lifespan is at least that threshold); or with "Max Steps Reached",
    the final streak being below the threshold used and the lifespan
    exactly [max(1, max_steps_per_generation)]. *)
Theorem record_end_reason_exact :
  forall (config : Config) (rng : Rng) (gens : list GenerationData)
    (s : EnvStats),
    run_simulation config rng = inr (gens, Some s) ->
    Forall
      (fun gd =>
         1 <= threshold_used gd
         /\ ((end_reason gd = "Agent Threshold Reached"
              /\ final_consecutive_punishments (summary gd) = threshold_used gd
              /\ threshold_used gd <= lifespan (summary gd))
             \/ (end_reason gd = "Max Steps Reached"
                 /\ final_consecutive_punishments (summary gd) < threshold_used gd
                 /\ lifespan (summary gd)
                    = Z.max 1 (max_steps_per_generation config))))
      gens.
Proof.
  intros config rng gens s Hrun.
  apply run_simulation_records in Hrun as (Hoks & _).
  apply (Forall_impl _ (P := record_ok (max_steps_per_generation config)));
    [|exact Hoks].
  intros gd []. split; [assumption|].
  destruct ok_reason0 as [[Hr Hc] | (Hr & Hc & Hl)].
  - left. repeat split; try assumption. lia.
  - right. repeat split; assumption.
Qed.

Lemma record_end_reason_exact_witness :
  exists gens s,
    run_simulation example_config reward_every_third = inr (gens, Some s)
    /\ Forall
         (fun gd =>
            1 <= threshold_used gd
            /\ ((end_reason gd = "Agent Threshold Reached"
                 /\ final_consecutive_punishments (summary gd) = threshold_used gd
                 /\ threshold_used gd <= lifespan (summary gd))
                \/ (end_reason gd = "Max Steps Reached"
                    /\ final_consecutive_punishments (summary gd)
                       < threshold_used gd
                    /\ lifespan (summary gd)
                       = Z.max 1 (max_steps_per_generation example_config))))
         gens.
Proof.
  destruct example_run_returns as (gens & s & Hrun).
  exists gens, s. split; [exact Hrun|].
  exact (record_end_reason_exact example_config reward_every_third gens s Hrun).
Defined.

(** X3.  The decision log stored in a record has one entry for each
    step lived, and one more, the decision to give up, when the
    generation ended with "Agent Threshold Reached". *)
Theorem record_decision_log_length :
  forall (config : Config) (rng : Rng) (gens : list GenerationData)
    (s : EnvStats),
    run_simulation config rng = inr (gens, Some s) ->
    Forall
      (fun gd =>
         len (summary_decision_log (summary gd))
         = lifespan (summary gd)
           + (if String.eqb (end_reason gd) "Agent Threshold Reached"
              then 1 else 0))
      gens.
Proof.
  intros config rng gens s Hrun.
  apply run_simulation_records in Hrun as (Hoks & _).
  apply (Forall_impl _ (P := record_ok (max_steps_per_generation config)));
    [|exact Hoks].
  intros gd []. assumption.
Qed.

Lemma record_decision_log_length_witness :
  exists gens s,
    run_simulation example_config reward_every_third = inr (gens, Some s)
    /\ Forall
         (fun gd =>
            len (summary_decision_log (summary gd))
            = lifespan (summary gd)
              + (if String.eqb (end_reason gd) "Agent Threshold Reached"
                 then 1 else 0))
         gens.
Proof.
  destruct example_run_returns as (gens & s & Hrun).
  exists gens, s. split; [exact Hrun|].
  exact (record_decision_log_length example_config reward_every_third gens s Hrun).
Defined.

Lemma firstn_seq_le (k : nat) :
  forall start m, (k <= m)%nat -> firstn k (seq start m) = seq start k.
Proof.
  induction k as [|k IH]; intros start m Hk; [reflexivity|].
  destruct m as [|m]; [lia|]. cbn. f_equal. apply IH. lia.
Qed.

Lemma firstn_range_from_1 (k : nat) (n : Z) :
  (k <= List.length (range_from_1 (n + 1)))%nat ->
  firstn k (range_from_1 (n + 1)) = map Z.of_nat (seq 1 k).
Proof.
  unfold range_from_1. rewrite length_map, length_seq. intros Hk.
  rewrite firstn_map, firstn_seq_le by exact Hk. reflexivity.
Qed.

(** X4.  The records of a returned run are numbered 1, 2, 3, ... in
    order, without gaps, and there are at most
    [max(0, num_generations)] of them. *)
Theorem records_numbered_from_one :
  forall (config : Config) (rng : Rng) (gens : list GenerationData)
    (s : EnvStats),
    run_simulation config rng = inr (gens, Some s) ->
    map generation gens = map Z.of_nat (seq 1 (List.length gens))
    /\ len gens <= Z.max 0 (num_generations config).
Proof.
  intros config rng gens s Hrun.
  apply run_simulation_records in Hrun as (_ & Hnums & _).
  assert (Hle : (List.length gens
                 <= List.length (range_from_1 (num_generations config + 1)))%nat).
  { apply (f_equal (@List.length Z)) in Hnums.
    rewrite length_map, length_firstn in Hnums. lia. }
  split.
  - rewrite Hnums. now apply firstn_range_from_1.
  - rewrite <- len_range_from_1. unfold len. lia.
Qed.

Lemma records_numbered_from_one_witness :
  exists gens s,
    run_simulation example_config reward_every_third = inr (gens, Some s)
    /\ map generation gens = map Z.of_nat (seq 1 (List.length gens))
    /\ len gens <= Z.max 0 (num_generations example_config).
Proof.
  destruct example_run_returns as (gens & s & Hrun).
  exists gens, s. split; [exact Hrun|].
  exact (records_numbered_from_one example_config reward_every_third gens s Hrun).
Defined.

(** X5.  With any agent type other than "LearningAgent" a returned run
    has exactly [max(0, num_generations)] records, and every one of
    them was run with the configured initial threshold. *)
Theorem fixed_agent_run_complete :
  forall (config : Config) (rng : Rng) (gens : list GenerationData)
    (s : EnvStats),
    get (agent_type config) "SimpleAgent" <> "LearningAgent" ->
    run_simulation config rng = inr (gens, Some s) ->
    len gens = Z.max 0 (num_generations config)
    /\ Forall (fun gd => threshold_used gd = agent_initial_threshold config) gens.
Proof.
  intros config rng gens s Hfixed Hrun.
  apply run_simulation_records in Hrun as (_ & _ & _ & _ & _ & H).
  exact (H Hfixed).
Qed.

Lemma fixed_agent_run_complete_witness :
  exists gens s,
    run_simulation example_fixed_config reward_every_third = inr (gens, Some s)
    /\ len gens = Z.max 0 (num_generations example_fixed_config)
    /\ Forall (fun gd => threshold_used gd
                         = agent_initial_threshold example_fixed_config) gens.
Proof.
  destruct example_fixed_run_returns as (gens & s & Hrun).
  exists gens, s. split; [exact Hrun|].
  apply (fixed_agent_run_complete example_fixed_config reward_every_third gens s).
  - cbn. discriminate.
  - exact Hrun.
Defined.

(** X6.  In a returned run the environment's statistics count what the
    records count: ["total_rewards"] is the sum of the records'
    rewards and ["total_punishments"] the sum of their punishments. *)
Theorem stats_match_records :
  forall (config : Config) (rng : Rng) (gens : list GenerationData)
    (s : EnvStats),
    run_simulation config rng = inr (gens, Some s) ->
    stats_total_rewards s = sum (map (fun g => total_rewards (summary g)) gens)
    /\ stats_total_punishments s
       = sum (map (fun g => total_punishments (summary g)) gens).
Proof.
  intros config rng gens s Hrun.
  apply run_simulation_records in Hrun as (_ & _ & Hr & Hp & _).
  split; assumption.
Qed.

Lemma stats_match_records_witness :
  exists gens s,
    run_simulation example_config reward_every_third = inr (gens, Some s)
    /\ stats_total_rewards s = sum (map (fun g => total_rewards (summary g)) gens)
    /\ stats_total_punishments s
       = sum (map (fun g => total_punishments (summary g)) gens).
Proof.
  destruct example_run_returns as (gens & s & Hrun).
  exists gens, s. split; [exact Hrun|].
  exact (stats_match_records example_config reward_every_third gens s Hrun).
Defined.

(** X7.  The first record of a returned run, for either agent class,
    was run with the configured initial threshold: learning takes
    effect from the second generation on. *)
Theorem first_generation_uses_initial_threshold :
  forall (config : Config) (rng : Rng) (gd : GenerationData)
    (gens : list GenerationData) (s : EnvStats),
    run_simulation config rng = inr (gd :: gens, Some s) ->
    threshold_used gd = agent_initial_threshold config
    /\ generation gd = 1.
Proof.
  intros config rng gd gens s Hrun.
  pose proof (records_numbered := run_simulation_records config rng (gd :: gens) s Hrun).
  destruct records_numbered as (_ & Hnums & _ & _ & Hhd & _).
  split; [apply Hhd; reflexivity|].
  assert (Hle : (List.length (gd :: gens)
                 <= List.length (range_from_1 (num_generations config + 1)))%nat).
  { apply (f_equal (@List.length Z)) in Hnums.
    rewrite length_map, length_firstn in Hnums. lia. }
  rewrite (firstn_range_from_1 _ _ Hle) in Hnums.
  cbn in Hnums. now injection Hnums.
Qed.

Lemma first_generation_uses_initial_threshold_witness :
  exists gd gens s,
    run_simulation example_config reward_every_third = inr (gd :: gens, Some s)
    /\ threshold_used gd = agent_initial_threshold example_config
    /\ generation gd = 1.
Proof.
  assert (H : exists gd gens s,
             run_simulation example_config reward_every_third
             = inr (gd :: gens, Some s))
    by (eexists _, _, _; vm_compute; reflexivity).
  destruct H as (gd & gens & s & Hrun).
  exists gd, gens, s. split; [exact Hrun|].
  exact (first_generation_uses_initial_threshold example_config
           reward_every_third gd gens s Hrun).
Defined.

(* ===================================================================== *)
(** ** Further properties of a generation *)
(* ===================================================================== *)

(** X8.  A generation draws exactly one sample per step: the
    environment's step count grows by the lifespan recorded, the
    samples left are the old ones with that many dropped, and the
    reward probability is untouched. *)
Theorem generation_draws_one_sample_per_step :
  forall (config : Config) (agent_type : string) (gen_num : Z) (st : SimState),
    let st' := fst (run_generation config agent_type gen_num st) in
    exists gd,
      all_generation_data st' = all_generation_data st ++ [gd]
      /\ 1 <= lifespan (summary gd)
      /\ steps_taken (env_of (world st'))
         = steps_taken (env_of (world st)) + lifespan (summary gd)
      /\ (forall n, rng_of (world st') n
                    = rng_of (world st) (Z.to_nat (lifespan (summary gd)) + n)%nat)
      /\ reward_probability (env_of (world st'))
         = reward_probability (env_of (world st)).
Proof.
  intros config agent_type gen_num st. cbn zeta.
  pose proof (run_generation_spec config agent_type gen_num st) as Hgen.
  pose proof (generation_start_attrs agent_type gen_num st)
    as (_ & _ & _ & _ & Hl0).
  cbn zeta in Hgen, Hl0.
  set (w0 := generation_start agent_type gen_num st) in *.
  pose proof (step_loop_advanced (max_steps_per_generation config) 0 w0) as Hadv.
  destruct (step_loop (max_steps_per_generation config) 0 w0)
    as [[w' count'] reason].
  destruct Hadv as [Hpos Hadv].
  destruct (run_generation config agent_type gen_num st) as [st' raised].
  destruct Hgen as (Hdata & Henv & Hrng & _).
  pose proof (adv_steps_lived _ _ _ Hadv) as Hli.
  cbn [fst]. eexists. split; [exact Hdata|].
  cbn [summary lifespan get_generation_summary].
  split; [lia|]. split; [|split].
  - rewrite Henv, (adv_steps_taken _ _ _ Hadv). change (env_of w0) with (env_of (world st)).
    lia.
  - intros n. rewrite Hrng, (adv_rng _ _ _ Hadv).
    change (rng_of w0) with (rng_of (world st)). do 2 f_equal. lia.
  - rewrite Henv. exact (adv_probability _ _ _ Hadv).
Qed.

(** X9.  A generation of a learning agent that raises nothing calls the
    learning rule once, with the lifespan just recorded: the history
    grows by that lifespan, the learning rate stays, the new threshold
    is at least 1, and the record shows the threshold from before the
    update. *)
Theorem learner_history_grows_by_lifespan :
  forall (config : Config) (agent_type : string) (gen_num : Z)
    (st st' : SimState) (a : LearningAgent),
    agent_of (world st) = Learner a ->
    1 <= give_up_threshold (base a) ->
    run_generation config agent_type gen_num st = (st', None) ->
    exists gd a',
      all_generation_data st' = all_generation_data st ++ [gd]
      /\ threshold_used gd = give_up_threshold (base a)
      /\ agent_of (world st') = Learner a'
      /\ historical_lifespans a'
         = historical_lifespans a ++ [lifespan (summary gd)]
      /\ learning_rate a' = learning_rate a
      /\ 1 <= give_up_threshold (base a').
Proof.
  intros config agent_type gen_num st st' a Hagent Hthr Hrun.
  assert (Hthr' : 1 <= give_up_threshold (attrs (agent_of (world st))))
    by (rewrite Hagent; exact Hthr).
  destruct (run_generation_record config agent_type gen_num st Hthr')
    as (gd & Hdata & _ & Hused & _).
  pose proof (run_generation_agent config agent_type gen_num st gd Hthr' Hdata)
    as Hnext.
  cbn zeta in Hdata, Hnext. rewrite Hagent in Hnext, Hused.
  rewrite Hrun in Hdata, Hnext. cbn [fst snd attrs] in *.
  destruct (Hnext eq_refl) as (a' & Ha' & H1 & Hlr & Hh).
  exists gd, a'. repeat split; assumption.
Qed.

Definition example_learner : LearningAgent :=
  mkLearningAgent (mkSimpleAgent "Learner_Gen0" 2 0 0 0 0 []) lit_0_05 [2].

Definition example_learner_state : SimState :=
  start_state (mkWorld (mkHarshEnvironment lit_0_5 0 0 0)
                 (Learner example_learner) reward_every_third).

Lemma learner_history_grows_by_lifespan_witness :
  exists st' gd a',
    run_generation example_config "LearningAgent" 1 example_learner_state
    = (st', None)
    /\ all_generation_data st' = [] ++ [gd]
    /\ threshold_used gd = 2
    /\ agent_of (world st') = Learner a'
    /\ historical_lifespans a' = [2] ++ [lifespan (summary gd)]
    /\ learning_rate a' = lit_0_05
    /\ 1 <= give_up_threshold (base a').
Proof.
  assert (H : exists st',
             run_generation example_config "LearningAgent" 1 example_learner_state
             = (st', None))
    by (eexists; vm_compute; reflexivity).
  destruct H as (st' & Hrun).
  destruct (learner_history_grows_by_lifespan example_config "LearningAgent" 1
              example_learner_state st' example_learner eq_refl
              ltac:(cbn; lia) Hrun) as (gd & a' & H).
  exists st', gd, a'. split; [exact Hrun | exact H].
Defined.

(* ===================================================================== *)
(** ** Further properties of the agent and the environment *)
(* ===================================================================== *)

Lemma reachable_agent_sane (agent : Agent) :
  agent_reachable agent -> agent_sane (attrs agent).
Proof.
  intros Hreach. unfold agent_sane.
  induction Hreach as [t n a H | t lr n a H | agent _ IH | b agent _ IH
                      | agent _ IH | n agent _ IH | n a a' _ IH H].
  - apply simple_init_inr in H as [Hpos ->]. cbn. lia.
  - apply learning_init_inr in H as [Hpos ->]. cbn. lia.
  - destruct agent; cbn in *; lia.
  - rewrite attrs_record_step. destruct b; cbn in *; lia.
  - rewrite attrs_decide_to_continue.
    pose proof (simple_decide_frame (attrs agent)) as (_ & Ht & Hc & Hp & Hr & Hs).
    cbn zeta in Ht, Hc, Hp, Hr, Hs. rewrite Ht, Hc, Hp, Hr, Hs. exact IH.
  - unfold rename. rewrite attrs_set_attrs. exact IH.
  - apply learn_from_history_frame in H
      as (Hthr & _ & _ & _ & Hc & Hp & Hr & Hs & _).
    cbn [attrs] in *. rewrite Hc, Hp, Hr, Hs. lia.
Qed.

(** X10.  On every agent the constructors and methods can produce, of
    either class, the threshold is at least 1, no counter is negative,
    the streak is at most the punishments received, and neither the
    rewards nor the punishments received exceed the steps lived. *)
Theorem reachable_agent_counters_ordered :
  forall agent : Agent,
    agent_reachable agent ->
    let a := attrs agent in
    1 <= give_up_threshold a
    /\ 0 <= consecutive_punishments a <= total_punishments_received a
    /\ total_punishments_received a <= steps_lived a
    /\ 0 <= total_rewards_received a <= steps_lived a.
Proof.
  intros agent Hreach. cbn zeta.
  destruct (reachable_agent_sane agent Hreach) as (H1 & H2 & H3 & H4). lia.
Qed.

Lemma reachable_agent_counters_ordered_witness :
  let agent := record_step false (record_step true (fresh_simple 3)) in
  agent_reachable agent
  /\ 1 <= give_up_threshold (attrs agent)
  /\ 0 <= consecutive_punishments (attrs agent)
       <= total_punishments_received (attrs agent)
  /\ total_punishments_received (attrs agent) <= steps_lived (attrs agent)
  /\ 0 <= total_rewards_received (attrs agent) <= steps_lived (attrs agent).
Proof.
  cbv zeta.
  assert (H : agent_reachable (record_step false (record_step true (fresh_simple 3)))).
  { do 2 apply reach_record_step.
    apply (reach_SimpleAgent 3 "Simple_Gen0"). reflexivity. }
  split; [exact H|].
  exact (reachable_agent_counters_ordered _ H).
Defined.

(** X11.  [reset] takes a fixed-threshold agent back to its
    construction: constructing an agent with the current threshold and
    name gives the reset agent.  For both classes a second [reset]
    changes nothing. *)
Theorem reset_restores_construction :
  (forall a : SimpleAgent,
      1 <= give_up_threshold a ->
      SimpleAgent_.__init__ (give_up_threshold a) (name a)
      = inr (SimpleAgent_.reset a))
  /\ (forall agent : Agent, reset (reset agent) = reset agent).
Proof.
  split.
  - intros a Hthr. unfold SimpleAgent_.__init__.
    destruct (Z.leb_spec (give_up_threshold a) 0); [lia | reflexivity].
  - intros [a | a]; reflexivity.
Qed.

Lemma reset_restores_construction_witness :
  let a := attrs (record_step false (record_step true (fresh_simple 3))) in
  1 <= give_up_threshold a
  /\ SimpleAgent_.__init__ (give_up_threshold a) (name a)
     = inr (SimpleAgent_.reset a).
Proof.
  cbv zeta.
  assert (H : 1 <= give_up_threshold
                     (attrs (record_step false (record_step true (fresh_simple 3)))))
    by (cbn; lia).
  split; [exact H|].
  exact (proj1 reset_restores_construction _ H).
Defined.

Lemma reachable_env_sane (e : HarshEnvironment) :
  env_reachable e ->
  probability_in_range (reward_probability e) = true
  /\ 0 <= total_rewards_given e
  /\ 0 <= total_punishments_given e
  /\ steps_taken e = total_rewards_given e + total_punishments_given e.
Proof.
  intros Hreach.
  induction Hreach as [p e H | e r _ IH | e _ IH].
  - unfold HarshEnvironment_.__init__ in H. unfold probability_in_range.
    destruct (leb zero p && leb p one) eqn:Hrange; [|discriminate].
    injection H as <-. cbn. split; [exact Hrange|]. lia.
  - pose proof (env_step_spec e r) as (Hp & Hs & Hr & Hq).
    cbn zeta in Hp, Hs, Hr, Hq. rewrite Hp, Hs, Hr, Hq.
    destruct IH as (Hrange & H1 & H2 & H3).
    split; [exact Hrange|]. destruct (ltb _ _); lia.
  - destruct IH as (Hrange & _). cbn. repeat split; (assumption || lia).
Qed.

(** X12.  On every environment the constructor, [step] and
    [reset_stats] can produce, [get_stats] returns (it never divides by
    zero and the quotient is a float): the probability it reports lies
    within [0.0, 1.0], its counts are non-negative with
    ["total_steps"] their sum, and the reward rate is the [int] 0
    exactly when no step has been taken. *)
Theorem reachable_env_stats :
  forall e : HarshEnvironment,
    env_reachable e ->
    exists s,
      HarshEnvironment_.get_stats e = inr s
      /\ probability_in_range (configured_reward_prob s) = true
      /\ 0 <= stats_total_rewards s
      /\ 0 <= stats_total_punishments s
      /\ total_steps s = stats_total_rewards s + stats_total_punishments s
      /\ (actual_reward_rate s = Int 0 <-> total_steps s = 0).
Proof.
  intros e Hreach.
  destruct (reachable_env_sane e Hreach) as (Hrange & Hr & Hp & Hs).
  destruct (get_stats_returns e) as [s Hstats]; [unfold env_sane; lia|].
  exists s. split; [exact Hstats|].
  unfold HarshEnvironment_.get_stats in Hstats.
  destruct (Z.gtb_spec (steps_taken e) 0) as [Hpos | Hzero].
  - apply bind_inr in Hstats as (rate & Hrate & Hret).
    apply bind_inr in Hrate as (q & _ & Hq). injection Hq as <-.
    injection Hret as <-. cbn. repeat split; try assumption; try lia; discriminate.
  - cbn in Hstats. injection Hstats as <-. cbn.
    repeat split; try assumption; lia.
Qed.

Lemma reachable_env_stats_witness :
  let e := snd (fst (HarshEnvironment_.step (mkHarshEnvironment lit_0_5 0 0 0)
                       reward_every_third)) in
  env_reachable e
  /\ exists s,
      HarshEnvironment_.get_stats e = inr s
      /\ probability_in_range (configured_reward_prob s) = true
      /\ 0 <= stats_total_rewards s
      /\ 0 <= stats_total_punishments s
      /\ total_steps s = stats_total_rewards s + stats_total_punishments s
      /\ (actual_reward_rate s = Int 0 <-> total_steps s = 0).
Proof.
  cbv zeta.
  assert (H : env_reachable
                (snd (fst (HarshEnvironment_.step (mkHarshEnvironment lit_0_5 0 0 0)
                             reward_every_third)))).
  { apply reach_step. apply (reach_HarshEnvironment lit_0_5). reflexivity. }
  split; [exact H|].
  exact (reachable_env_stats _ H).
Defined.

(* ===================================================================== *)
(** ** Further properties: a learning rate that is not finite *)
(* ===================================================================== *)

Definition not_finite (x : float) : Prop :=
  match x with
  | S754_infinity _ | S754_nan => True
  | S754_zero _ | S754_finite _ _ _ => False
  end.

Lemma round_not_finite (x : float) :
  not_finite x -> exists e, round x = inl e.
Proof. destruct x; cbn; try contradiction; eauto. Qed.

(** With a rate that is not finite the interpolation is not finite
    either, whatever the two integers were converted to. *)
Lemma interpolation_not_finite (tf gf rate : float) :
  not_finite rate ->
  not_finite (add (mul tf (sub one rate)) (mul gf rate)).
Proof.
  destruct rate as [s | s | | s m e]; cbn [not_finite]; try contradiction;
    intros _; destruct tf as [st | st | | st mt et], gf as [sg | sg | | sg mg eg];
    try destruct s; try destruct st; try destruct sg; exact I.
Qed.

Lemma learn_from_history_raises (n : Z) (self : LearningAgent) :
  not_finite (learning_rate self) ->
  exists e, LearningAgent_.learn_from_history n self = inl e.
Proof.
  intros Hrate. rewrite learn_from_history_rule. unfold learning_rule.
  destruct (int_true_div _ _) as [e | avg]; cbn [bind]; [eauto|].
  destruct (round avg) as [e | r]; cbn [bind]; [eauto|].
  destruct (of_int (give_up_threshold (base self))) as [e | tf]; cbn [bind]; [eauto|].
  destruct (of_int (Z.max 1 r)) as [e | gf]; cbn [bind]; [eauto|].
  destruct (round_not_finite _ (interpolation_not_finite tf gf _ Hrate)) as [e ->].
  cbn [bind]. eauto.
Qed.

(** X13.  A learning rate that is infinite or NaN passes construction,
    but the first learning update raises: a run with at least one
    generation then returns exactly one record, generation 1 with the
    configured threshold, together with the statistics. *)
Theorem rate_not_finite_stops_after_first_generation :
  forall (config : Config) (rng : Rng) (gens : list GenerationData)
    (s : EnvStats),
    get (agent_type config) "SimpleAgent" = "LearningAgent" ->
    not_finite (get (cfg_learning_rate config) lit_0_05) ->
    1 <= num_generations config ->
    run_simulation config rng = inr (gens, Some s) ->
    exists gd,
      gens = [gd]
      /\ generation gd = 1
      /\ threshold_used gd = agent_initial_threshold config.
Proof.
  intros config rng gens s Htype Hrate Hgens Hrun.
  apply run_simulation_inr in Hrun as (environment & agent & Hinit & Hdata & _).
  cbn zeta in Hdata.
  pose proof Hinit as Hinit'.
  apply initialise_inr in Hinit' as (_ & _ & Hpos & Hthr).
  unfold initialise in Hinit.
  apply bind_inr in Hinit as (e0 & _ & Hinit). cbn zeta in Hinit.
  rewrite Htype in Hinit. cbn [String.eqb Ascii.eqb Bool.eqb] in Hinit.
  apply bind_inr in Hinit as (a & Ha & Hinit). injection Hinit as _ <-.
  apply learning_init_inr in Ha as [_ ->].
  unfold range_from_1 in Hdata.
  replace (Z.to_nat (num_generations config + 1 - 1))
    with (S (Z.to_nat (num_generations config - 1))) in Hdata by lia.
  cbn [seq map run_generations] in Hdata.
  match type of Hdata with
  | context [run_generation ?c ?t ?g ?st] =>
      destruct (run_generation_record c t g st) as (gd & Hgd & Hnum & Hused & Hrest);
      [cbn [world agent_of attrs base]; cbn [attrs base] in Hthr; lia|];
      destruct Hrest as (_ & _ & _ & _ & _ & Hlearn);
      destruct (run_generation c t g st) as [st' raised]
  end.
  cbn [fst snd world agent_of all_generation_data attrs base] in *.
  cbn [set_attrs learn_if_learner] in Hlearn.
  match type of Hlearn with
  | context [LearningAgent_.learn_from_history ?n ?x] =>
      destruct (learn_from_history_raises n x Hrate) as [e He]
  end.
  rewrite He in Hlearn. cbn [bind] in Hlearn.
  destruct raised as [e'|]; [|discriminate Hlearn].
  exists gd. subst gens. cbn [app] in Hgd.
  split; [exact Hgd|]. split; [exact Hnum | lia].
Qed.

Lemma rate_not_finite_stops_after_first_generation_witness :
  let config := mkConfig 4 lit_0_5 (Some "LearningAgent") 2 (Some S754_nan) 10 in
  exists gens s gd,
    run_simulation config reward_every_third = inr (gens, Some s)
    /\ gens = [gd]
    /\ generation gd = 1
    /\ threshold_used gd = agent_initial_threshold config.
Proof.
  cbv zeta.
  assert (H : exists gens s,
             run_simulation
               (mkConfig 4 lit_0_5 (Some "LearningAgent") 2 (Some S754_nan) 10)
               reward_every_third = inr (gens, Some s))
    by (eexists _, _; vm_compute; reflexivity).
  destruct H as (gens & s & Hrun).
  destruct (rate_not_finite_stops_after_first_generation
              (mkConfig 4 lit_0_5 (Some "LearningAgent") 2 (Some S754_nan) 10)
              reward_every_third gens s eq_refl I ltac:(cbn; lia) Hrun)
    as (gd & H).
  exists gens, s, gd. split; [exact Hrun | exact H].
Defined.

(* ===================================================================== *)
(** ** Further properties: the samples a run reads *)
(* ===================================================================== *)

Lemma interact_rng (w : World) (n : nat) :
  rng_of (snd (interact w)) n = rng_of w (S n).
Proof. rewrite interact_spec. reflexivity. Qed.

(** One pass of steps 1 to 3 reads the first sample and no other. *)
Lemma interact_prefix (w w' : World) :
  env_of w' = env_of w -> agent_of w' = agent_of w ->
  rng_of w' 0%nat = rng_of w 0%nat ->
  fst (interact w') = fst (interact w)
  /\ env_of (snd (interact w')) = env_of (snd (interact w))
  /\ agent_of (snd (interact w')) = agent_of (snd (interact w)).
Proof.
  intros He Ha Hr. rewrite !interact_spec. cbn [fst snd env_of agent_of].
  unfold outcome, HarshEnvironment_.step, random_random.
  rewrite He, Ha, Hr. repeat split.
  destruct (ltb (rng_of w 0%nat) (reward_probability (env_of w))); reflexivity.
Qed.

(** The loop reads one sample per step: a world with the same objects
    and the same first samples, as many as the loop took steps, runs
    the same way. *)
Lemma step_loop_prefix (max_steps count : Z) (w : World) :
  let '(w1, count1, reason) := step_loop max_steps count w in
  forall w',
    env_of w' = env_of w -> agent_of w' = agent_of w ->
    (forall i, (i < Z.to_nat (count1 - count))%nat -> rng_of w' i = rng_of w i) ->
    exists w1',
      step_loop max_steps count w' = (w1', count1, reason)
      /\ env_of w1' = env_of w1 /\ agent_of w1' = agent_of w1.
Proof.
  revert count w.
  apply (step_loop_induction max_steps
           (fun count w r => let '(w1, count1, reason) := r in
              forall w',
                env_of w' = env_of w -> agent_of w' = agent_of w ->
                (forall i, (i < Z.to_nat (count1 - count))%nat ->
                           rng_of w' i = rng_of w i) ->
                exists w1',
                  step_loop max_steps count w' = (w1', count1, reason)
                  /\ env_of w1' = env_of w1 /\ agent_of w1' = agent_of w1)).
  intros count w IH.
  rewrite step_loop_body.
  pose proof (interact_rng w) as Hrng.
  destruct (interact w) as [d w1] eqn:Hi. cbn [snd] in Hrng.
  assert (Hone : forall w',
             env_of w' = env_of w -> agent_of w' = agent_of w ->
             rng_of w' 0%nat = rng_of w 0%nat ->
             exists w1', interact w' = (d, w1')
                         /\ env_of w1' = env_of w1 /\ agent_of w1' = agent_of w1
                         /\ forall n, rng_of w1' n = rng_of w' (S n)).
  { intros w' He Ha Hr.
    pose proof (interact_prefix w w' He Ha Hr) as (Hd & He1 & Ha1).
    pose proof (interact_rng w') as Hrng'.
    rewrite Hi in Hd, He1, Ha1.
    destruct (interact w') as [d' w1']. cbn [fst snd] in *. subst d'.
    exists w1'. repeat split; assumption. }
  destruct d; cbn [negb].
  - destruct (count + 1 >=? max_steps) eqn:Hge.
    + intros w' He Ha Hr.
      destruct (Hone w' He Ha (Hr 0%nat ltac:(lia))) as (w1' & Hi' & He1 & Ha1 & _).
      exists w1'. rewrite step_loop_body, Hi'. cbn [negb]. rewrite Hge.
      repeat split; assumption.
    + assert (Hlt : count + 1 < max_steps).
      { rewrite Z.geb_leb in Hge. apply Z.leb_gt in Hge. lia. }
      specialize (IH w1 eq_refl Hlt).
      pose proof (step_loop_advanced max_steps (count + 1) w1) as Hadv.
      destruct (step_loop max_steps (count + 1) w1) as [[w2 count2] reason].
      destruct Hadv as [Hc _].
      intros w' He Ha Hr.
      destruct (Hone w' He Ha (Hr 0%nat ltac:(lia))) as (w1' & Hi' & He1 & Ha1 & Hr1).
      destruct (IH w1' He1 Ha1) as (w2' & Hs & He2 & Ha2).
      { intros i Hlti. rewrite Hr1, Hrng. apply Hr. lia. }
      exists w2'. rewrite step_loop_body, Hi'. cbn [negb]. rewrite Hge.
      repeat split; assumption.
  - intros w' He Ha Hr.
    destruct (Hone w' He Ha (Hr 0%nat ltac:(lia))) as (w1' & Hi' & He1 & Ha1 & _).
    exists w1'. rewrite step_loop_body, Hi'. cbn [negb].
    repeat split; assumption.
Qed.

(** Two states of the [for] loop with the same objects, whatever their
    samples. *)
Definition same_objects (st st' : SimState) : Prop :=
  env_of (world st') = env_of (world st)
  /\ agent_of (world st') = agent_of (world st)
  /\ all_generation_data st' = all_generation_data st
  /\ generations_completed st' = generations_completed st.

(** The steps and the samples of one generation. *)
Lemma run_generation_samples (config : Config) (agent_type : string)
  (gen_num : Z) (st : SimState) :
  let st1 := fst (run_generation config agent_type gen_num st) in
  exists k,
    1 <= k
    /\ steps_taken (env_of (world st1)) = steps_taken (env_of (world st)) + k
    /\ forall n, rng_of (world st1) n = rng_of (world st) (Z.to_nat k + n)%nat.
Proof.
  cbn zeta.
  pose proof (run_generation_spec config agent_type gen_num st) as Hgen.
  cbn zeta in Hgen.
  set (w0 := generation_start agent_type gen_num st) in *.
  pose proof (step_loop_advanced (max_steps_per_generation config) 0 w0) as Hadv.
  destruct (step_loop (max_steps_per_generation config) 0 w0)
    as [[w' count'] reason].
  destruct Hadv as [Hpos Hadv].
  destruct (run_generation config agent_type gen_num st) as [st' raised].
  destruct Hgen as (_ & Henv & Hrng & _).
  cbn [fst]. exists (count' - 0). split; [lia|]. split.
  - rewrite Henv. exact (adv_steps_taken _ _ _ Hadv).
  - intros n. rewrite Hrng. exact (adv_rng _ _ _ Hadv n).
Qed.

Lemma run_generation_prefix (config : Config) (agent_type : string)
  (gen_num : Z) (st st' : SimState) :
  same_objects st st' ->
  let st1 := fst (run_generation config agent_type gen_num st) in
  (forall i,
      (i < Z.to_nat (steps_taken (env_of (world st1))
                     - steps_taken (env_of (world st))))%nat ->
      rng_of (world st') i = rng_of (world st) i) ->
  same_objects st1 (fst (run_generation config agent_type gen_num st'))
  /\ snd (run_generation config agent_type gen_num st')
     = snd (run_generation config agent_type gen_num st).
Proof.
  intros (He & Ha & Hd & Hg). cbn zeta.
  pose proof (run_generation_spec config agent_type gen_num st) as Hgen.
  pose proof (run_generation_spec config agent_type gen_num st') as Hgen'.
  cbn zeta in Hgen, Hgen'.
  pose proof (step_loop_prefix (max_steps_per_generation config) 0
                (generation_start agent_type gen_num st)) as Hpre.
  pose proof (step_loop_advanced (max_steps_per_generation config) 0
                (generation_start agent_type gen_num st)) as Hadv.
  destruct (step_loop (max_steps_per_generation config) 0
              (generation_start agent_type gen_num st)) as [[w1 count1] reason].
  destruct Hadv as [Hpos Hadv].
  pose proof (adv_steps_taken _ _ _ Hadv) as Hst.
  change (env_of (generation_start agent_type gen_num st))
    with (env_of (world st)) in Hst.
  destruct (run_generation config agent_type gen_num st) as [st1 raised].
  destruct Hgen as (Hdata & Henv & _ & Hgc & Hlearn).
  cbn [fst snd]. intros Hr.
  destruct (Hpre (generation_start agent_type gen_num st')) as (w1' & Hs & He1 & Ha1).
  { exact He. }
  { unfold generation_start. cbn [agent_of]. now rewrite Ha. }
  { intros i Hi. apply Hr. rewrite Henv, Hst. lia. }
  rewrite Hs in Hgen'.
  destruct (run_generation config agent_type gen_num st') as [st1' raised'].
  destruct Hgen' as (Hdata' & Henv' & _ & Hgc' & Hlearn').
  cbn [fst snd]. rewrite Ha1 in Hlearn', Hdata'.
  assert (Hthr : give_up_threshold
                   (attrs (agent_of (generation_start agent_type gen_num st')))
                 = give_up_threshold
                     (attrs (agent_of (generation_start agent_type gen_num st)))).
  { unfold generation_start. cbn [agent_of]. now rewrite Ha. }
  unfold same_objects.
  destruct (learn_if_learner _ _) as [e | learned].
  - destruct Hlearn as [-> Hag], Hlearn' as [-> Hag'].
    repeat split; congruence.
  - destruct Hlearn as [-> Hag], Hlearn' as [-> Hag'].
    repeat split; congruence.
Qed.

Lemma run_generations_steps (config : Config) (agent_type : string)
  (gen_nums : list Z) :
  forall st,
    steps_taken (env_of (world st))
    <= steps_taken (env_of (world (run_generations config agent_type gen_nums st))).
Proof.
  induction gen_nums as [|gen_num rest IH]; intros st; cbn [run_generations]; [lia|].
  destruct (run_generation_samples config agent_type gen_num st) as (k & Hk & Hs & _).
  destruct (run_generation config agent_type gen_num st) as [st1 [e|]];
    cbn [fst] in Hs; [lia|].
  specialize (IH st1). lia.
Qed.

Lemma run_generations_prefix (config : Config) (agent_type : string)
  (gen_nums : list Z) :
  forall st st',
    same_objects st st' ->
    let final := run_generations config agent_type gen_nums st in
    (forall i,
        (i < Z.to_nat (steps_taken (env_of (world final))
                       - steps_taken (env_of (world st))))%nat ->
        rng_of (world st') i = rng_of (world st) i) ->
    same_objects final (run_generations config agent_type gen_nums st').
Proof.
  induction gen_nums as [|gen_num rest IH]; intros st st' Hsame; cbn zeta;
    cbn [run_generations]; [intros _; exact Hsame|].
  pose proof (run_generation_prefix config agent_type gen_num st st' Hsame) as Hpre.
  destruct (run_generation_samples config agent_type gen_num st)
    as (k & Hk & Hs & Hrng).
  destruct (run_generation_samples config agent_type gen_num st')
    as (k' & Hk' & Hs' & Hrng').
  pose proof (run_generations_steps config agent_type rest
                (fst (run_generation config agent_type gen_num st))) as Hmono.
  cbn zeta in Hpre.
  destruct (run_generation config agent_type gen_num st) as [st1 raised].
  destruct (run_generation config agent_type gen_num st') as [st1' raised'].
  cbn [fst snd] in *.
  destruct raised as [e|].
  - intros Hr. destruct Hpre as [Hsame1 ->]; [|exact Hsame1].
    intros i Hi. apply Hr. exact Hi.
  - intros Hr. destruct Hpre as [Hsame1 ->].
    { intros i Hi. apply Hr. lia. }
    apply IH; [exact Hsame1|].
    intros i Hi. rewrite Hrng', Hrng.
    assert (k' = k).
    { destruct Hsame as (He & _), Hsame1 as (He1 & _). rewrite He, He1 in Hs'. lia. }
    subst k'. apply Hr. lia.
Qed.

(** X14.  A run reads exactly as many samples as the statistics count
    steps: on any other sequence of samples that starts with the same
    [total_steps] values it returns the same records and the same
    statistics. *)
Theorem run_determined_by_samples_read :
  forall (config : Config) (rng rng' : Rng) (gens : list GenerationData)
    (s : EnvStats),
    run_simulation config rng = inr (gens, Some s) ->
    (forall i, (i < Z.to_nat (total_steps s))%nat -> rng' i = rng i) ->
    run_simulation config rng' = inr (gens, Some s).
Proof.
  intros config rng rng' gens s Hrun Hr.
  pose proof Hrun as Hrun'.
  apply run_simulation_inr in Hrun' as (environment & agent & Hinit & _ & Hstats).
  cbn zeta in Hstats.
  unfold run_simulation in *. rewrite Hinit in *. cbn zeta in *.
  pose proof (initialise_inr _ _ _ Hinit) as (Henv & _).
  pose proof (get_stats_inr _ _ Hstats) as (Hsteps & _).
  destruct (run_generations_prefix config (get (agent_type config) "SimpleAgent")
              (range_from_1 (num_generations config + 1))
              (mkSimState (mkWorld environment agent rng) [] 0)
              (mkSimState (mkWorld environment agent rng') [] 0))
    as (He & _ & Hd & Hg).
  { repeat split. }
  { cbn [world env_of rng_of]. intros i Hi. apply Hr.
    rewrite Hsteps. rewrite Henv in Hi at 2. cbn [steps_taken] in Hi. lia. }
  unfold summary_averages in *. rewrite He, Hd, Hg. exact Hrun.
Qed.

Definition reward_every_third_then_none : Rng :=
  fun i => if (i <? 40)%nat then reward_every_third i else lit_0_5.

Lemma run_determined_by_samples_read_witness :
  exists gens s,
    run_simulation example_config reward_every_third = inr (gens, Some s)
    /\ (forall i, (i < Z.to_nat (total_steps s))%nat ->
                  reward_every_third_then_none i = reward_every_third i)
    /\ run_simulation example_config reward_every_third_then_none
       = inr (gens, Some s).
Proof.
  assert (H : exists gens s,
             run_simulation example_config reward_every_third = inr (gens, Some s)
             /\ total_steps s <= 40)
    by (eexists _, _; split; [vm_compute; reflexivity | vm_compute; discriminate]).
  destruct H as (gens & s & Hrun & Hle).
  assert (Hr : forall i, (i < Z.to_nat (total_steps s))%nat ->
                         reward_every_third_then_none i = reward_every_third i).
  { intros i Hi. unfold reward_every_third_then_none.
    destruct (Nat.ltb_spec i 40) as [_ | Hge]; [reflexivity | lia]. }
  exists gens, s. split; [exact Hrun|]. split; [exact Hr|].
  exact (run_determined_by_samples_read example_config reward_every_third
           reward_every_third_then_none gens s Hrun Hr).
Defined.

(* ===================================================================== *)
(** ** Further properties: the learning rates 0.0 and 1.0 *)
(* ===================================================================== *)

(** A mantissa already at the exponent of its magnitude is not rounded. *)
Lemma binary_round_aux_exact (s : bool) (m : positive) (e : Z) :
  fexp64 (Zpos (digits2_pos m) + e) = e -> e <= 971 ->
  binary_round_aux prec emax s (Zpos m) e loc_Exact = S754_finite s m e.
Proof.
  intros Hc He. unfold binary_round_aux, shr_fexp. rewrite fexp_eq.
  cbn [Zdigits2]. rewrite Hc, Z.sub_diag.
  cbn [shr shr_record_of_loc shr_m loc_of_shr_record round_nearest_even].
  rewrite fexp_eq. cbn [Zdigits2]. rewrite Hc, Z.sub_diag.
  cbn [shr shr_record_of_loc shr_m].
  replace (e <=? emax - prec) with true
    by (symmetry; apply Z.leb_le; cbn; lia).
  reflexivity.
Qed.

(** [float(n)] is exact below [2^53]. *)
Lemma of_int_exact (n : Z) :
  1 <= n < 2 ^ 53 ->
  exists m e,
    of_int n = inr (S754_finite false m e)
    /\ is_binary64 (S754_finite false m e)
    /\ e <= 0
    /\ Zpos m = n * 2 ^ (- e).
Proof.
  intros [Hlo Hhi]. destruct n as [|p|p]; try lia.
  unfold of_int. cbn [binary_normalize]. unfold binary_round.
  pose proof (shl_align_spec p 0 (fexp prec emax (Zpos (digits2_pos p) + 0))) as H.
  destruct (shl_align p 0 _) as [mz ez].
  destruct H as (Hez & Hmz & Hmag). rewrite fexp_eq in Hez.
  assert (Hd : Zpos (digits2_pos p) <= 53)
    by (apply (Zdigits2_le (Zpos p) 53); lia).
  assert (Hc : fexp64 (Zpos (digits2_pos mz) + ez) = ez)
    by (rewrite Hmag; unfold fexp64 in *; lia).
  assert (He : ez <= 0) by lia.
  rewrite (binary_round_aux_exact false mz ez Hc ltac:(lia)).
  exists mz, ez. split; [reflexivity|].
  split; [apply finite_is_binary64; [exact Hc | lia]|].
  split; [exact He|]. rewrite Hmz. f_equal.
Qed.

(** An integer held exactly rounds to itself. *)
Lemma round_exact (n : Z) (m : positive) (e : Z) :
  e <= 0 -> Zpos m = n * 2 ^ (- e) ->
  round (S754_finite false m e) = inr n.
Proof.
  intros He Hm. unfold round, round_with, round_half_even_pos, ret. f_equal.
  destruct e as [|q|q]; try lia.
  change (- Zneg q) with (Zpos q) in Hm.
  change (Z.pow_pos 2 q) with (2 ^ Zpos q).
  assert (Hp : 0 < 2 ^ Zpos q) by (apply Z.pow_pos_nonneg; lia).
  set (d := 2 ^ Zpos q) in *.
  rewrite Hm, Z.div_mul, Z.mod_mul by lia.
  destruct (Z.compare_spec (2 * 0) d); lia.
Qed.

Lemma shift_52_exact (m : positive) :
  iter_pos shr_1 52
    {| shr_m := Zpos (4503599627370496 * m); shr_r := false; shr_s := false |}
  = {| shr_m := Zpos m; shr_r := false; shr_s := false |}.
Proof. reflexivity. Qed.

(** [x * 1.0] is [x]. *)
Lemma mul_one_r (s : bool) (m : positive) (e : Z) :
  is_binary64 (S754_finite s m e) ->
  mul (S754_finite s m e) one = S754_finite s m e.
Proof.
  intros Hx. apply is_binary64_finite in Hx as [Hc He].
  unfold mul, one. cbn [SFmul]. unfold binary_round_aux, shr_fexp.
  rewrite fexp_eq.
  assert (Hdig : Zdigits2 (Zpos (m * 4503599627370496))
                 = Zpos (digits2_pos m) + 52).
  { rewrite Pos2Z.inj_mul. change (Zpos 4503599627370496) with (2 ^ 52).
    rewrite Zdigits2_mul_pow2 by lia. reflexivity. }
  rewrite Hdig.
  replace (Zpos (digits2_pos m) + 52 + (e + -52))
    with (Zpos (digits2_pos m) + e) by lia.
  rewrite Hc. replace (e - (e + -52)) with 52 by lia.
  cbn [shr shr_record_of_loc]. rewrite (Pos.mul_comm m), shift_52_exact.
  cbn [shr_m loc_of_shr_record round_nearest_even].
  replace (e + -52 + 52) with e by lia.
  rewrite fexp_eq. cbn [Zdigits2]. rewrite Hc, Z.sub_diag.
  cbn [shr shr_record_of_loc shr_m].
  replace (e <=? emax - prec) with true
    by (symmetry; apply Z.leb_le; cbn; lia).
  now destruct s.
Qed.

(** X15.  With the learning rate [0.0] the update leaves the threshold
    as it is, whatever the history, as long as the threshold is below
    [2^53] and so survives the conversion to a float. *)
Theorem learning_rate_zero_keeps_threshold :
  forall (n : Z) (self self' : LearningAgent),
    learning_rate self = zero ->
    1 <= give_up_threshold (base self) < 2 ^ 53 ->
    LearningAgent_.learn_from_history n self = inr self' ->
    give_up_threshold (base self') = give_up_threshold (base self).
Proof.
  intros n self self' Hrate Hthr.
  rewrite learn_from_history_rule. unfold learning_rule. rewrite Hrate.
  intros H.
  apply bind_inr in H as (avg & _ & H).
  apply bind_inr in H as (r & _ & H).
  apply bind_inr in H as (tf & Htf & H).
  apply bind_inr in H as (gf & Hgf & H).
  apply bind_inr in H as (k & Hk & H).
  injection H as <-. cbn [base give_up_threshold set_give_up_threshold].
  destruct (of_int_exact _ Hthr) as (m & e & Htf' & Vtf & He & Hm).
  rewrite Htf' in Htf. injection Htf as <-.
  change (sub one zero) with one in Hk.
  rewrite (mul_one_r _ _ _ Vtf) in Hk.
  assert (Hsum : add (S754_finite false m e) (mul gf zero) = S754_finite false m e
                 \/ gf = S754_nan \/ exists s, gf = S754_infinity s).
  { destruct gf as [sg | sg | | sg mg eg]; cbn; eauto. }
  destruct Hsum as [Hsum | [-> | [sg ->]]]; [| discriminate Hk | discriminate Hk].
  rewrite Hsum, (round_exact _ _ _ He Hm) in Hk. injection Hk as <-. lia.
Qed.

Lemma learning_rate_zero_keeps_threshold_witness :
  let self := mkLearningAgent (mkSimpleAgent "Learner_Gen1" 3 0 0 0 0 []) zero [5] in
  exists self',
    LearningAgent_.learn_from_history 40 self = inr self'
    /\ give_up_threshold (base self') = 3.
Proof.
  cbv zeta.
  assert (H : exists self',
             LearningAgent_.learn_from_history 40
               (mkLearningAgent (mkSimpleAgent "Learner_Gen1" 3 0 0 0 0 []) zero [5])
             = inr self')
    by (eexists; vm_compute; reflexivity).
  destruct H as (self' & H). exists self'. split; [exact H|].
  exact (learning_rate_zero_keeps_threshold 40
           (mkLearningAgent (mkSimpleAgent "Learner_Gen1" 3 0 0 0 0 []) zero [5])
           self' eq_refl ltac:(cbn; lia) H).
Defined.

(** X16.  With the learning rate [1.0] the update replaces the
    threshold by the target: the mean of the history, the new lifespan
    included, rounded and raised to at least 1, as long as the target
    is below [2^53]. *)
Theorem learning_rate_one_adopts_target :
  forall (n : Z) (self self' : LearningAgent) (avg : float) (r : Z),
    learning_rate self = one ->
    int_true_div (sum (historical_lifespans self ++ [n]))
      (len (historical_lifespans self ++ [n])) = inr avg ->
    round avg = inr r ->
    Z.max 1 r < 2 ^ 53 ->
    LearningAgent_.learn_from_history n self = inr self' ->
    give_up_threshold (base self') = Z.max 1 r.
Proof.
  intros n self self' avg r Hrate Havg Hr Hlt.
  rewrite learn_from_history_rule. unfold learning_rule. rewrite Hrate, Havg.
  cbn [bind]. rewrite Hr. cbn [bind].
  intros H.
  apply bind_inr in H as (tf & Htf & H).
  apply bind_inr in H as (gf & Hgf & H).
  apply bind_inr in H as (k & Hk & H).
  injection H as <-. cbn [base give_up_threshold set_give_up_threshold].
  destruct (of_int_exact (Z.max 1 r) ltac:(lia)) as (m & e & Hgf' & Vgf & He & Hm).
  rewrite Hgf' in Hgf. injection Hgf as <-.
  change (sub one one) with (S754_zero false) in Hk.
  rewrite (mul_one_r _ _ _ Vgf) in Hk.
  assert (Hsum : add (mul tf (S754_zero false)) (S754_finite false m e)
                 = S754_finite false m e
                 \/ tf = S754_nan \/ exists s, tf = S754_infinity s).
  { destruct tf as [st | st | | st mt et]; cbn; eauto. }
  destruct Hsum as [Hsum | [-> | [st ->]]]; [| discriminate Hk | discriminate Hk].
  rewrite Hsum, (round_exact _ _ _ He Hm) in Hk. injection Hk as <-. lia.
Qed.

Lemma learning_rate_one_adopts_target_witness :
  let self := mkLearningAgent (mkSimpleAgent "Learner_Gen1" 3 0 0 0 0 []) one [5] in
  exists self',
    LearningAgent_.learn_from_history 40 self = inr self'
    /\ give_up_threshold (base self') = 22.
Proof.
  cbv zeta.
  assert (H : exists self' avg,
             LearningAgent_.learn_from_history 40
               (mkLearningAgent (mkSimpleAgent "Learner_Gen1" 3 0 0 0 0 []) one [5])
             = inr self'
             /\ int_true_div (sum ([5] ++ [40])) (len ([5] ++ [40])) = inr avg
             /\ round avg = inr 22)
    by (eexists _, _; repeat split; vm_compute; reflexivity).
  destruct H as (self' & avg & H & Havg & Hr). exists self'. split; [exact H|].
  exact (learning_rate_one_adopts_target 40
           (mkLearningAgent (mkSimpleAgent "Learner_Gen1" 3 0 0 0 0 []) one [5])
           self' avg 22 eq_refl Havg Hr ltac:(cbn; lia) H).
Defined.

(* ===================================================================== *)
(** ** Further properties: a generation without a single reward *)
(* ===================================================================== *)

(** With probability [0.0] every step of the loop is a punishment: the
    streak grows by one a step and no reward is counted. *)
Lemma step_loop_never_rewarded (max_steps count : Z) (w : World) :
  reward_probability (env_of w) = zero ->
  (forall i, unit_sample (rng_of w i)) ->
  let '(w', count', _) := step_loop max_steps count w in
  consecutive_punishments (attrs (agent_of w'))
  = consecutive_punishments (attrs (agent_of w)) + (count' - count)
  /\ total_rewards_received (attrs (agent_of w'))
     = total_rewards_received (attrs (agent_of w)).
Proof.
  revert count w.
  apply (step_loop_induction max_steps
    (fun count w r =>
       reward_probability (env_of w) = zero ->
       (forall i, unit_sample (rng_of w i)) ->
       let '(w', count', _) := r in
       consecutive_punishments (attrs (agent_of w'))
       = consecutive_punishments (attrs (agent_of w)) + (count' - count)
       /\ total_rewards_received (attrs (agent_of w'))
          = total_rewards_received (attrs (agent_of w)))).
  intros count w IH Hp Hs. rewrite step_loop_body.
  pose proof (interact_streak w) as Hi.
  pose proof (interact_detail w) as Hd.
  destruct (interact w) as [d w1]. cbn zeta in Hi, Hd.
  destruct Hi as (_ & Hc & _ & Hp1 & Hr1).
  destruct Hd as (Hr & _).
  rewrite (outcome_punishment w Hp (Hs 0%nat)) in Hc, Hr.
  destruct d; cbn [negb].
  - destruct (count + 1 >=? max_steps) eqn:Hge.
    + split; lia.
    + rewrite Z.geb_leb in Hge. apply Z.leb_gt in Hge.
      specialize (IH w1 eq_refl ltac:(lia) ltac:(congruence)).
      assert (Hs1 : forall i, unit_sample (rng_of w1 i))
        by (intros i; rewrite Hr1; apply Hs).
      specialize (IH Hs1).
      destruct (step_loop max_steps (count + 1) w1) as [[w' count'] reason].
      destruct IH as [Ic Ir]. split; lia.
  - split; lia.
Qed.

(** X17.  With reward probability [0.0] a generation of an agent of
    either class with threshold [T >= 1] lasts exactly
    [min(T, max(1, max_steps_per_generation))] steps, all of them
    punishments, and ends with "Agent Threshold Reached" exactly when
    [T <= max(1, max_steps_per_generation)]: when the cap equals the
    threshold the agent's decision wins. *)
Theorem never_rewarded_generation_length :
  forall (config : Config) (agent_type : string) (gen_num : Z) (st : SimState),
    reward_probability (env_of (world st)) = zero ->
    (forall i, unit_sample (rng_of (world st) i)) ->
    1 <= give_up_threshold (attrs (agent_of (world st))) ->
    exists gd,
      all_generation_data (fst (run_generation config agent_type gen_num st))
      = all_generation_data st ++ [gd]
      /\ lifespan (summary gd)
         = Z.min (give_up_threshold (attrs (agent_of (world st))))
             (Z.max 1 (max_steps_per_generation config))
      /\ total_rewards (summary gd) = 0
      /\ total_punishments (summary gd) = lifespan (summary gd)
      /\ (end_reason gd = "Agent Threshold Reached"
          <-> give_up_threshold (attrs (agent_of (world st)))
              <= Z.max 1 (max_steps_per_generation config)).
Proof.
  intros config agent_type gen_num st Hp Hs Hthr.
  destruct (run_generation_record config agent_type gen_num st Hthr)
    as (gd & Hdata & _ & Hused & Hok & _).
  cbn zeta in Hdata.
  pose proof (run_generation_spec config agent_type gen_num st) as Hgen.
  pose proof (generation_start_attrs agent_type gen_num st)
    as (_ & Hc0 & Hr0 & _ & Hl0).
  cbn zeta in Hgen, Hc0, Hr0, Hl0.
  set (w0 := generation_start agent_type gen_num st) in *.
  pose proof (step_loop_never_rewarded (max_steps_per_generation config) 0 w0 Hp Hs)
    as Hloop.
  pose proof (step_loop_advanced (max_steps_per_generation config) 0 w0) as Hadv.
  destruct (step_loop (max_steps_per_generation config) 0 w0)
    as [[w' count'] reason].
  destruct Hadv as [_ Hadv]. destruct Hloop as [Hstreak Hnone].
  pose proof (adv_steps_lived _ _ _ Hadv) as Hlived.
  destruct (run_generation config agent_type gen_num st) as [st' raised].
  destruct Hgen as (Hdata' & _). cbn [fst] in Hdata.
  rewrite Hdata' in Hdata. apply app_inj_tail in Hdata as [_ Hgd].
  assert (Hsl : final_consecutive_punishments (summary gd) = lifespan (summary gd))
    by (rewrite <- Hgd; cbn; lia).
  assert (Hrw : total_rewards (summary gd) = 0)
    by (rewrite <- Hgd; cbn; lia).
  destruct Hok as [_ Hlife _ _ Hbal _ Hreason _].
  exists gd. cbn [fst]. split; [rewrite Hdata', Hgd; reflexivity|].
  destruct Hreason as [[Hrs Heq] | (Hrs & Hlt & Hcap)].
  - split; [lia|]. split; [exact Hrw|]. split; [lia|].
    split; [lia | intros _; exact Hrs].
  - split; [lia|]. split; [exact Hrw|]. split; [lia|].
    split; [rewrite Hrs; discriminate | lia].
Qed.

Lemma never_rewarded_generation_length_witness :
  exists gd,
    all_generation_data
      (fst (run_generation (punishing_config 3 2) "SimpleAgent" 1
              (start_state (punishing_world 3))))
    = [] ++ [gd]
    /\ lifespan (summary gd) = Z.min 3 (Z.max 1 2)
    /\ total_rewards (summary gd) = 0
    /\ total_punishments (summary gd) = lifespan (summary gd)
    /\ (end_reason gd = "Agent Threshold Reached" <-> 3 <= Z.max 1 2).
Proof.
  exact (never_rewarded_generation_length (punishing_config 3 2) "SimpleAgent" 1
           (start_state (punishing_world 3)) eq_refl all_zero_unit_samples
           ltac:(cbn; lia)).
Defined.

(* ===================================================================== *)
(** ** Further properties: a run without generations *)
(* ===================================================================== *)

(** X18.  On a configuration that the first log line can print (the
    ["agent_type"] entry present, the three integers of at most 4300
    digits), with a valid probability and threshold but
    [num_generations <= 0], the [for] loop has nothing to run:
    [run_simulation] reads no sample and returns no record, together
    with statistics that are all zero, the reward rate being the [int]
    0 and not a float; the averages of the [finally] block are skipped,
    so nothing is divided by zero. *)
Theorem no_generations_empty_run :
  forall (config : Config) (rng : Rng),
    printable config ->
    num_generations config <= 0 ->
    probability_in_range (cfg_reward_probability config) = true ->
    0 < agent_initial_threshold config ->
    run_simulation config rng
    = inr ([], Some (mkEnvStats 0 0 0 (cfg_reward_probability config) (Int 0))).
Proof.
  intros config rng Hprint Hn Hp Ht.
  rewrite (run_simulation_printable config rng Hprint).
  destruct Hprint as (_ & _ & Hsize & _).
  pose proof (initialise_agent config Hsize Hp) as Hinit.
  destruct (Z.leb_spec (agent_initial_threshold config) 0) as [Hle | _]; [lia|].
  destruct Hinit as [agent ->]. cbn zeta.
  unfold range_from_1.
  replace (Z.to_nat (num_generations config + 1 - 1)) with 0%nat by lia.
  cbn [seq map run_generations world env_of].
  unfold HarshEnvironment_.get_stats, summary_averages.
  cbn [steps_taken Z.gtb Z.compare bind ret total_steps generations_completed
       total_rewards_given total_punishments_given reward_probability
       all_generation_data].
  rewrite format_int_inr by (pose proof str_digits_limit_pos; cbn; lia).
  reflexivity.
Qed.

Lemma no_generations_empty_run_witness :
  let config := mkConfig 0 lit_0_5 (Some "LearningAgent") 2 None 10 in
  printable config
  /\ run_simulation config reward_every_third
     = inr ([], Some (mkEnvStats 0 0 0 lit_0_5 (Int 0))).
Proof.
  cbv zeta.
  assert (Hprint : printable (mkConfig 0 lit_0_5 (Some "LearningAgent") 2 None 10)).
  { split; [discriminate|]. repeat split; vm_compute; reflexivity. }
  split; [exact Hprint|].
  apply (no_generations_empty_run
           (mkConfig 0 lit_0_5 (Some "LearningAgent") 2 None 10)
           reward_every_third Hprint).
  - cbn. lia.
  - reflexivity.
  - cbn. lia.
Defined.
